(** * A shallow embedding of the two-phase assembler (assembler.cpp)

    The development follows the whole-buffer implementation,
    [assembler.cpp]: the lexer ([skip_blank], [skip_word], [get_word]), the
    numeric literal parser ([parse_num]), the symbol table lookup
    ([parse_constant]), the encoder ([parse_reg], [parse_instruction]) and
    the driver ([main]).  The comment pre-pass of the older line-based
    implementation, [assembler_apr7.cpp], is embedded next to it.

    Conventions of the embedding:
    - a [char*] cursor is the list of characters from the cursor on; the end
      of the list stands for the terminating NUL, and a NUL inside the list
      ends every C-string loop the way it does in the source.  The buffer
      of [read_entire_file] is taken to be followed by a NUL (the source
      stores none);
    - a [SubString] (pointer and length) is the list of the characters it
      views.  The only read the source makes outside a view is
      [num_str[0]] on an empty view, which the driver only produces at the
      terminating NUL; the embedding reads NUL there;
    - [uint32_t], [int32_t], [uint16_t] and [uint8_t] values are integers
      of [Z] with the wrap-around written out ([u32], [i32], [u16], [u8]);
      [char] is signed and [unsigned long] has 64 bits;
    - [asm_assert] exiting the process, a failing [assert] (assertions are
      compiled in), and a store outside [rom_data] are results of the
      [outcome] type; what the
      process writes on standard output is kept in the [Exit1] result only
      (the line number and the message). *)

From Stdlib Require Import ZArith Ascii String Bool Lia List.
Import ListNotations.

Local Open Scope Z_scope.

(** ** Results of a run *)

Inductive outcome (A : Type) : Type :=
| Ok (a : A)                          (* normal return *)
| Exit1 (line : Z) (msg : string)     (* asm_assert: "Line <n>: <msg>", exit(1) *)
| Abort                               (* assert(...) failed *)
| Undefined                           (* store outside an array *)
| Fuel.                               (* the loop bound of the embedding ran out *)

Arguments Ok {A} a.
Arguments Exit1 {A} line msg.
Arguments Abort {A}.
Arguments Undefined {A}.
Arguments Fuel {A}.

Definition bind {A B : Type} (m : outcome A) (k : A -> outcome B) : outcome B :=
  match m with
  | Ok a => k a
  | Exit1 l s => Exit1 l s
  | Abort => Abort
  | Undefined => Undefined
  | Fuel => Fuel
  end.

Notation "x <- m ;; k" := (bind m (fun x => k))
  (at level 61, m at next level, right associativity).
Notation "' p <- m ;; k" := (bind m (fun x => let p := x in k))
  (at level 61, p pattern, m at next level, right associativity).
Notation "m ;;; k" := (bind m (fun _ => k))
  (at level 61, right associativity).

(** ** Machine integers *)

Definition u8 (z : Z) : Z := z mod 2 ^ 8.
Definition u16 (z : Z) : Z := z mod 2 ^ 16.
Definition u32 (z : Z) : Z := z mod 2 ^ 32.
Definition i32 (z : Z) : Z := (z + 2 ^ 31) mod 2 ^ 32 - 2 ^ 31.

(** ** Constants and the fixed-capacity array *)

Definition ROM_SIZE : Z := 1024.
Definition MAX_INSTR : Z := ROM_SIZE / 2.
Definition MAX_LABELS : Z := 512.
Definition INVALID_OP : Z := 0xFFFFFFFF.

(** [uint32_t line_num = 0;] -- [assembler.cpp] never assigns it. *)
Definition line_num : Z := 0.

(** [Array<T, max_size>]: the elements pushed so far, [size] their number. *)
Definition Array (T : Type) : Type := list T.

Definition size {T : Type} (a : Array T) : Z := Z.of_nat (length a).

Definition push {T : Type} (max_size : Z) (a : Array T) (element : T)
  : outcome (Array T) :=
  if size a <? max_size then Ok (a ++ [element]) else Abort.

(** ** Characters *)

Definition chr (c : ascii) : Z := Z.of_N (N_of_ascii c).

(** The value of a [char] in an arithmetic expression ([char] is signed). *)
Definition char_val (c : ascii) : Z :=
  if chr c <? 128 then chr c else chr c - 256.

Definition NUL : ascii := zero.
Definition NL : ascii := "010"%char.

Definition is_nul (c : ascii) : bool := Ascii.eqb c NUL.

Definition in_range (lo hi c : ascii) : bool :=
  (chr lo <=? chr c) && (chr c <=? chr hi).

Definition toupper (c : ascii) : ascii :=
  if in_range "a" "z" c then ascii_of_N (N_of_ascii c - 32) else c.

Definition cstr (s : string) : list ascii := list_ascii_of_string s.

(** ** Sub-strings *)

Definition SubString : Type := list ascii.

Definition len (s : SubString) : Z := Z.of_nat (length s).

(** [operator[]]; past the end of the model's list lies the NUL. *)
Definition at_ (s : list ascii) (i : nat) : ascii := nth i s NUL.

(** [SubString::operator==(const char* rhs)] *)
Fixpoint eq_cstr (s : SubString) (rhs : list ascii) : bool :=
  match s with
  | [] => is_nul (at_ rhs 0)
  | c :: s' => if negb (Ascii.eqb c (at_ rhs 0)) then false else eq_cstr s' (tl rhs)
  end.

Fixpoint eq_chars (a b : list ascii) : bool :=
  match a, b with
  | [], _ => true
  | c :: a', d :: b' => if negb (Ascii.eqb c d) then false else eq_chars a' b'
  | _ :: _, [] => false
  end.

(** [SubString::operator==(const SubString& rhs)] *)
Definition eq_sub (s rhs : SubString) : bool :=
  if negb (len rhs =? len s) then false else eq_chars s rhs.

Record Label : Type := mkLabel { name : SubString; addr : Z }.

(** ** Opcode table *)

Inductive InstructionFormat : Type := A0 | A1 | A2 | A3 | B1 | B2 | L1 | L2.

Record OpData : Type := mkOp {
  mnemonic : list ascii;
  opcode : Z;
  format : InstructionFormat;
  upper : bool
}.

Definition OP : list OpData :=
  [ mkOp (cstr "NOP") 0 A0 false;
    mkOp (cstr "ADD") 1 A1 false;
    mkOp (cstr "SUB") 2 A1 false;
    mkOp (cstr "MUL") 3 A1 false;
    mkOp (cstr "NAND") 4 A1 false;
    mkOp (cstr "SHL") 5 A2 false;
    mkOp (cstr "SHR") 6 A2 false;
    mkOp (cstr "TEST") 7 A3 false;
    mkOp (cstr "MUH") 8 A1 false;
    mkOp (cstr "OUT") 32 A3 false;
    mkOp (cstr "IN") 33 A3 false;
    mkOp (cstr "BRR") 64 B1 false;
    mkOp (cstr "BRR.N") 65 B1 false;
    mkOp (cstr "BRR.Z") 66 B1 false;
    mkOp (cstr "BRR.O") 73 B1 false;
    mkOp (cstr "BR") 67 B2 false;
    mkOp (cstr "BR.N") 68 B2 false;
    mkOp (cstr "BR.Z") 69 B2 false;
    mkOp (cstr "BR.O") 72 B2 false;
    mkOp (cstr "BR.SUB") 70 B2 false;
    mkOp (cstr "RETURN") 71 A0 false;
    mkOp (cstr "LOAD") 16 L2 false;
    mkOp (cstr "STORE") 17 L2 false;
    mkOp (cstr "LOADIMM.LOWER") 18 L1 false;
    mkOp (cstr "LOADIMM.UPPER") 18 L1 true;
    mkOp (cstr "MOV") 19 L2 false ].

Definition NUM_OPCODES : Z := Z.of_nat (length OP).

(** ** Lexer *)

(** [to_upper]: upper-cases the buffer up to its first NUL. *)
Fixpoint to_upper (buf : list ascii) : list ascii :=
  match buf with
  | [] => []
  | c :: rest => if is_nul c then buf else toupper c :: to_upper rest
  end.

(** [strip_comments] of [assembler_apr7.cpp]: from the first [;] of a line
    buffer on, every character up to the NUL is overwritten with NUL. *)
Fixpoint strip_comments_from (found_comment : bool) (buf : list ascii) : list ascii :=
  match buf with
  | [] => []
  | c :: rest =>
      if is_nul c then buf
      else
        let found_comment := if Ascii.eqb c ";" then true else found_comment in
        (if found_comment then NUL else c) :: strip_comments_from found_comment rest
  end.

Definition strip_comments (buf : list ascii) : list ascii :=
  strip_comments_from false buf.

(** The characters a word is made of. *)
Definition word_char (c : ascii) : bool :=
  Ascii.eqb c "." || Ascii.eqb c ":" || in_range "A" "Z" c || in_range "0" "9" c.

(** [skip_blank]: to the start of the next word (a newline counts as one). *)
Fixpoint skip_blank (buf : list ascii) : list ascii :=
  match buf with
  | [] => []
  | c :: rest =>
      if is_nul c then buf
      else if word_char c || Ascii.eqb c NL then buf
      else skip_blank rest
  end.

Fixpoint skip_word_chars (buf : list ascii) : list ascii :=
  match buf with
  | [] => []
  | c :: rest =>
      if is_nul c then buf
      else if negb (word_char c) then buf
      else skip_word_chars rest
  end.

(** [skip_word]: a newline is a one-character word of its own. *)
Definition skip_word (buf : list ascii) : list ascii :=
  if Ascii.eqb (at_ buf 0) NL then tl buf else skip_word_chars buf.

(** [get_word]: the next word and the cursor behind it.  (The source also
    prints the word's first character on standard output.) *)
Definition get_word (buf : list ascii) : SubString * list ascii :=
  let start := skip_blank buf in
  let stop := skip_word start in
  (firstn (length start - length stop) start, stop).

(** [lookup_op]: the index of the first table entry with that mnemonic. *)
Fixpoint lookup_op_from (i : Z) (ops : list OpData) (word : SubString) : Z :=
  match ops with
  | [] => INVALID_OP
  | op :: ops' => if eq_cstr word (mnemonic op) then i else lookup_op_from (i + 1) ops' word
  end.

Definition lookup_op (word : SubString) : Z := lookup_op_from 0 OP word.

Definition is_label (word : SubString) : bool :=
  if len word =? 0 then false
  else Ascii.eqb (at_ word (length word - 1)) ":".

Definition is_comment (word : SubString) : bool :=
  if len word =? 0 then false
  else Ascii.eqb (at_ word 0) ";".

Definition asm_assert (condition : bool) (err_msg : string) : outcome unit :=
  if negb condition then Exit1 line_num err_msg else Ok tt.

(** ** Numeric literals *)

(** [strtoul] of the C library (ISO C, [unsigned long] of 64 bits): white
    space, an optional sign, for base 16 an optional [0x], then the longest
    run of digits of the base; a value that does not fit is [ULONG_MAX], a
    minus sign negates in [unsigned long]. *)
Definition ULONG_MAX : Z := 2 ^ 64 - 1.

Definition isspace (c : ascii) : bool :=
  Ascii.eqb c " " || in_range "009" "013" c.

Definition digit_val (c : ascii) : Z :=
  if in_range "0" "9" c then chr c - chr "0"
  else if in_range "A" "Z" c then chr c - chr "A" + 10
  else if in_range "a" "z" c then chr c - chr "a" + 10
  else 36.

Fixpoint skip_space (s : list ascii) : list ascii :=
  match s with
  | c :: rest => if isspace c then skip_space rest else s
  | [] => []
  end.

Fixpoint strtoul_digits (base acc : Z) (s : list ascii) : Z :=
  match s with
  | [] => acc
  | c :: rest =>
      if digit_val c <? base then strtoul_digits base (acc * base + digit_val c) rest
      else acc
  end.

Definition strtoul (nptr : list ascii) (base : Z) : Z :=
  let s := skip_space nptr in
  let c0 := at_ s 0 in
  let negative := Ascii.eqb c0 "-" in
  let s := if Ascii.eqb c0 "-" || Ascii.eqb c0 "+" then tl s else s in
  let s := if (base =? 16) && Ascii.eqb (at_ s 0) "0"
              && (Ascii.eqb (at_ s 1) "x" || Ascii.eqb (at_ s 1) "X")
           then skipn 2 s else s in
  let v := strtoul_digits base 0 s in
  if v >? ULONG_MAX then ULONG_MAX
  else if negative then (- v) mod 2 ^ 64
  else v.

(** The digits [parse_num] accepts for a base. *)
Definition valid_digit (base : Z) (c : ascii) : bool :=
  if base =? 10 then in_range "0" "9" c
  else if base =? 16 then in_range "0" "9" c || in_range "A" "F" c
  else if base =? 2 then Ascii.eqb c "0" || Ascii.eqb c "1"
  else true.

(** The validation loop of [parse_num]: [valid_number] is the test of the
    last character looked at, and the loop leaves at the first bad one. *)
Fixpoint valid_digits (base : Z) (s : list ascii) : bool :=
  match s with
  | [] => true
  | c :: rest => if negb (valid_digit base c) then false else valid_digits base rest
  end.

(** [0xffffffff << bits], in [uint32_t]. *)
Definition high_mask (bits : Z) : Z := u32 (Z.shiftl 0xffffffff bits).

(** The test of the "argument needs too many bits" assertion. *)
Definition fits (result bits : Z) : bool :=
  (Z.land (u32 result) (high_mask bits) =? 0)
  || (Z.land (u32 result) (high_mask bits) =? high_mask bits).

(** [result &= ~(0xffffffff << bits)] *)
Definition mask_low (result bits : Z) : Z :=
  i32 (Z.land (u32 result) (u32 (Z.lnot (high_mask bits)))).

(** [parse_num] from its "check base" comment on, with the sign already
    taken off [num_str]. *)
Definition parse_num_from_base (negative : bool) (num_str : SubString) (bits : Z)
    (success : bool) : outcome (Z * bool) :=
  '(base, num_str) <-
    (if 2 <=? len num_str then
       if Ascii.eqb (at_ num_str 1) "X" then
         asm_assert (Ascii.eqb (at_ num_str 0) "0") "malformed constant" ;;;
         Ok (16, skipn 2 num_str)
       else if Ascii.eqb (at_ num_str 1) "B" then
         asm_assert (Ascii.eqb (at_ num_str 0) "0") "malformed constant" ;;;
         Ok (2, skipn 2 num_str)
       else Ok (10, num_str)
     else Ok (10, num_str)) ;;
  let valid_number := valid_digits base num_str in
  (if negb success then asm_assert valid_number "malformed constant" else Ok tt) ;;;
  let result := i32 (strtoul num_str base) in
  let result := if negative then i32 (- result) else result in
  asm_assert (fits result bits) "argument needs too many bits" ;;;
  Ok (mask_low result bits, valid_number).

(** [parse_num]; [success] tells whether the [bool* success] argument is
    non-null, and the second component of the result is [valid_number],
    the value the source stores through it. *)
Definition parse_num (num_str : SubString) (bits : Z) (success : bool)
  : outcome (Z * bool) :=
  let c0 := at_ num_str 0 in
  let negative := Ascii.eqb c0 "-" in
  let num_str := if Ascii.eqb c0 "+" || Ascii.eqb c0 "-" then tl num_str else num_str in
  parse_num_from_base negative num_str bits success.

(** The label loop of [parse_constant]: every label of that name is
    resolved and range-checked, the last one stays in [result]. *)
Fixpoint parse_constant_labels (const_str : SubString) (addr_ : Z)
    (labels : list Label) (bits : Z) (result : Z) (label_found : bool)
  : outcome (Z * bool) :=
  match labels with
  | [] => Ok (result, label_found)
  | l :: rest =>
      if eq_sub const_str (name l) then
        let result := i32 (Z.quot (i32 (i32 (addr l) - i32 addr_)) 2) in
        asm_assert (fits result bits) "argument needs too many bits" ;;;
        parse_constant_labels const_str addr_ rest bits (mask_low result bits) true
      else parse_constant_labels const_str addr_ rest bits result label_found
  end.

Definition parse_constant (const_str : SubString) (addr_ : Z)
    (labels : Array Label) (bits : Z) : outcome Z :=
  '(result, valid_number) <- parse_num const_str bits true ;;
  if negb valid_number then
    '(result, label_found) <-
      parse_constant_labels const_str addr_ labels bits result false ;;
    asm_assert label_found "label not found" ;;;
    Ok result
  else Ok result.

Definition parse_reg (reg_str : SubString) : outcome Z :=
  asm_assert ((len reg_str =? 2) && Ascii.eqb (at_ reg_str 0) "R")
             "not a valid register" ;;;
  Ok (u32 (char_val (at_ reg_str 1) - char_val "0")).

(** [instr |= v], the result converted back to [uint16_t]. *)
Definition or16 (instr v : Z) : Z := u16 (Z.lor instr v).

Definition arg (args : Array SubString) (i : nat) : SubString := nth i args [].

Definition parse_instruction (op_str : SubString) (args : Array SubString)
    (labels : Array Label) (addr_ : Z) : outcome Z :=
  let instr := 0 in
  let op_idx := lookup_op op_str in
  if op_idx =? INVALID_OP then Abort else
  match nth_error OP (Z.to_nat op_idx) with
  | None => Undefined
  | Some op =>
  let instr := or16 instr (u32 (Z.shiftl (opcode op) 9)) in
  match format op with
  | A0 =>
      asm_assert (size args =? 0) "too many args" ;;;
      Ok instr
  | A1 =>
      asm_assert (size args =? 3) "too many args" ;;;
      r0 <- parse_reg (arg args 0) ;;
      let instr := or16 instr (u32 (Z.shiftl r0 6)) in
      r1 <- parse_reg (arg args 1) ;;
      let instr := or16 instr (u32 (Z.shiftl r1 3)) in
      r2 <- parse_reg (arg args 2) ;;
      Ok (or16 instr r2)
  | A2 =>
      asm_assert (size args =? 2) "too many args" ;;;
      r0 <- parse_reg (arg args 0) ;;
      let instr := or16 instr (u32 (Z.shiftl r0 6)) in
      '(n, _) <- parse_num (arg args 1) 4 false ;;
      Ok (or16 instr n)
  | A3 =>
      asm_assert (size args =? 1) "too many args" ;;;
      r0 <- parse_reg (arg args 0) ;;
      Ok (or16 instr (u32 (Z.shiftl r0 6)))
  | B1 =>
      asm_assert (size args =? 1) "too many args" ;;;
      n <- parse_constant (arg args 0) addr_ labels 9 ;;
      Ok (or16 instr n)
  | B2 =>
      asm_assert (size args =? 2) "too many args" ;;;
      r0 <- parse_reg (arg args 0) ;;
      let instr := or16 instr (u32 (Z.shiftl r0 6)) in
      '(n, _) <- parse_num (arg args 1) 6 false ;;
      Ok (or16 instr n)
  | L1 =>
      asm_assert (size args =? 1) "too many args" ;;;
      let instr := if upper op then or16 instr (Z.shiftl 1 8) else instr in
      '(n, _) <- parse_num (arg args 0) 8 false ;;
      Ok (or16 instr n)
  | L2 =>
      asm_assert (size args =? 2) "too many args" ;;;
      r0 <- parse_reg (arg args 0) ;;
      let instr := or16 instr (u32 (Z.shiftl r0 6)) in
      r1 <- parse_reg (arg args 1) ;;
      Ok (or16 instr (u32 (Z.shiftl r1 3)))
  end
  end.

(** ** Driver *)

Record Instr : Type := mkInstr {
  instr_addr : Z;
  op : SubString;
  args : Array SubString
}.

(** The operand loop of phase 1,
    [while (!is_comment(word) && word != "\n")].  Every turn pushes one
    word, so [fuel] turns bound it when [fuel] exceeds the capacity. *)
Fixpoint collect_args (fuel : nat) (word : SubString) (file_pos : list ascii)
    (args_ : Array SubString) : outcome (Array SubString * list ascii) :=
  if negb (is_comment word) && negb (eq_cstr word [NL]) then
    match fuel with
    | O => Fuel
    | S fuel' =>
        args_ <- push 3 args_ word ;;
        let '(word, file_pos) := get_word file_pos in
        collect_args fuel' word file_pos args_
    end
  else Ok (args_, file_pos).

(** The local variables of [main] that live across the phase-1 loop. *)
Record state : Type := mkState {
  file_pos : list ascii;
  in_comment : bool;
  next_addr : Z;
  instructions : Array Instr;
  labels : Array Label
}.

(** [asm_assert(labels[i].name != word, "duplicate label")] for every [i]. *)
Fixpoint check_duplicate (labels_ : list Label) (word : SubString) : outcome unit :=
  match labels_ with
  | [] => Ok tt
  | l :: rest =>
      asm_assert (negb (eq_sub (name l) word)) "duplicate label" ;;;
      check_duplicate rest word
  end.

(** One turn of the phase-1 loop. *)
Definition phase1_step (s : state) : outcome state :=
  let '(word, pos) := get_word (file_pos s) in
  if in_comment s && eq_cstr word [NL] then
    Ok (mkState pos false (next_addr s) (instructions s) (labels s))
  else if is_comment word then
    Ok (mkState pos true (next_addr s) (instructions s) (labels s))
  else if eq_cstr word (cstr "ORG") then
    let '(word, pos) := get_word pos in
    '(n, _) <- parse_num word 16 false ;;
    Ok (mkState pos (in_comment s) (u32 n) (instructions s) (labels s))
  else if is_label word then
    let word := removelast word in
    check_duplicate (labels s) word ;;;
    labels_ <- push MAX_LABELS (labels s) (mkLabel word (next_addr s)) ;;
    Ok (mkState pos (in_comment s) (next_addr s) (instructions s) labels_)
  else
    let op_idx := lookup_op word in
    if negb (op_idx =? INVALID_OP) then
      let op_ := word in
      let '(word, pos) := get_word pos in
      '(args_, pos) <- collect_args 4 word pos [] ;;
      instructions_ <- push MAX_INSTR (instructions s)
                         (mkInstr (next_addr s) op_ args_) ;;
      Ok (mkState pos (in_comment s) (u32 (next_addr s + 2)) instructions_ (labels s))
    else
      Ok (mkState pos (in_comment s) (next_addr s) (instructions s) (labels s)).

(** The phase-1 loop, [while (file_pos[0])]. *)
Fixpoint phase1_loop (fuel : nat) (s : state) : outcome state :=
  if is_nul (at_ (file_pos s) 0) then Ok s
  else
    match fuel with
    | O => Fuel
    | S fuel' => s' <- phase1_step s ;; phase1_loop fuel' s'
    end.

(** Phase 1 from the upper-cased buffer: every turn moves the cursor, so
    the length of the buffer bounds the number of turns. *)
Definition phase1 (input_file_buf : list ascii) : outcome state :=
  let buf := to_upper input_file_buf in
  phase1_loop (length buf) (mkState buf false 0 [] []).

(** [rom_data[i] = v] *)
Definition rom_store (rom_data : list Z) (i : Z) (v : Z) : outcome (list Z) :=
  if (0 <=? i) && (i <? ROM_SIZE) then
    Ok (firstn (Z.to_nat i) rom_data ++ u8 v :: skipn (S (Z.to_nat i)) rom_data)
  else Undefined.

(** The phase-2 loop over the recorded instructions. *)
Fixpoint phase2 (instrs : list Instr) (labels_ : Array Label) (rom_data : list Z)
  : outcome (list Z) :=
  match instrs with
  | [] => Ok rom_data
  | i :: rest =>
      let addr_ := instr_addr i in
      instr <- parse_instruction (op i) (args i) labels_ addr_ ;;
      rom_data <- rom_store rom_data addr_ (Z.land (Z.shiftr instr 8) 0xFF) ;;
      rom_data <- rom_store rom_data (u32 (addr_ + 1)) (Z.land instr 0xFF) ;;
      phase2 rest labels_ rom_data
  end.

(** [%02X] of a byte. *)
Definition hex_digit (n : Z) : ascii :=
  if n <? 10 then ascii_of_N (Z.to_N (chr "0" + n))
  else ascii_of_N (Z.to_N (chr "A" + (n - 10))).

Definition hex02 (b : Z) : list ascii := [hex_digit (b / 16); hex_digit (b mod 16)].

(** One [fprintf(output_file, "%02X%02X\n", rom_data[i], rom_data[i + 1])]. *)
Definition rom_line (rom_data : list Z) (i : nat) : list ascii :=
  hex02 (nth i rom_data 0) ++ hex02 (nth (i + 1) rom_data 0) ++ [NL].

(** The output loop, [for (i = 0; i < ROM_SIZE; i += 2)]: the lines. *)
Definition rom_lines (rom_data : list Z) : list (list ascii) :=
  map (fun k => rom_line rom_data (2 * k)) (seq 0 (Z.to_nat (ROM_SIZE / 2))).

(** [main] from the contents of the input file to those of the output file. *)
Definition main (input_file_buf : list ascii) : outcome (list ascii) :=
  s <- phase1 input_file_buf ;;
  let rom_data := repeat 0 (Z.to_nat ROM_SIZE) in
  rom_data <- phase2 (instructions s) (labels s) rom_data ;;
  Ok (concat (rom_lines rom_data)).

(** ** Definitions used to state the properties *)

(** A source line: its text and the newline that ends it. *)
Definition line (s : string) : list ascii := cstr s ++ [NL].

(** The digits of a literal, in the order of their values. *)
Definition spec_alphabet : list ascii := cstr "0123456789ABCDEF".

Fixpoint spec_index (c : ascii) (alphabet : list ascii) (i : Z) : option Z :=
  match alphabet with
  | [] => None
  | d :: rest => if Ascii.eqb c d then Some i else spec_index c rest (i + 1)
  end.

Definition spec_digit (c : ascii) : option Z := spec_index c spec_alphabet 0.

(** The value of a run of digits, each weighted by its position. *)
Fixpoint spec_number (base : Z) (ds : list ascii) : option Z :=
  match ds with
  | [] => Some 0
  | c :: rest =>
      match spec_digit c, spec_number base rest with
      | Some d, Some v =>
          if d <? base then Some (d * base ^ Z.of_nat (length rest) + v) else None
      | _, _ => None
      end
  end.

Definition spec_sign (tok : list ascii) : Z * list ascii :=
  match tok with
  | c :: rest =>
      if Ascii.eqb c "+" then (1, rest)
      else if Ascii.eqb c "-" then (-1, rest)
      else (1, tok)
  | [] => (1, tok)
  end.

Definition spec_base (body : list ascii) : Z * list ascii :=
  match body with
  | c0 :: c1 :: rest =>
      if Ascii.eqb c0 "0" && Ascii.eqb c1 "X" then (16, rest)
      else if Ascii.eqb c0 "0" && Ascii.eqb c1 "B" then (2, rest)
      else (10, body)
  | _ => (10, body)
  end.

(** The value of a numeric literal as the specification words it: an
    optional [+] or [-], then [0X] and hexadecimal digits, [0B] and binary
    digits, or decimal digits. *)
Definition spec_literal_value (tok : list ascii) : option Z :=
  let '(sign, body) := spec_sign tok in
  let '(base, ds) := spec_base body in
  match ds with
  | [] => None
  | _ => option_map (Z.mul sign) (spec_number base ds)
  end.

(** Decoding a [bits]-wide field as a two's-complement number. *)
Definition sign_extend (bits field : Z) : Z :=
  if field <? 2 ^ (bits - 1) then field else field - 2 ^ bits.

(** The operand widths of the instruction set, and [ORG]'s. *)
Definition isa_widths : list Z := [4; 6; 8; 9; 16].

(** The cursor positions reached from a position by calls of [get_word]. *)
Inductive advanced : list ascii -> list ascii -> Prop :=
| advanced_here pos : advanced pos pos
| advanced_word pos pos' : advanced (snd (get_word pos)) pos' -> advanced pos pos'.

(** No word of the buffer from this position on is [ORG]. *)
Inductive org_free : list ascii -> Prop :=
| org_free_end pos : is_nul (at_ pos 0) = true -> org_free pos
| org_free_word pos :
    is_nul (at_ pos 0) = false ->
    eq_cstr (fst (get_word pos)) (cstr "ORG") = false ->
    org_free (snd (get_word pos)) ->
    org_free pos.

(** Every [ORG] word of the buffer from this position on has an even
    operand (when the operand is one [parse_num] accepts). *)
Definition org_even (buf : list ascii) : Prop :=
  forall pos, advanced buf pos ->
    eq_cstr (fst (get_word pos)) (cstr "ORG") = true ->
    forall n b,
      parse_num (fst (get_word (snd (get_word pos)))) 16 false = Ok (n, b) ->
      Z.even n = true.

(** What one turn of the phase-1 loop does to the tables and the cursor. *)
Inductive step_shape (s s' : state) : Prop :=
| shape_skip :
    instructions s' = instructions s -> labels s' = labels s ->
    next_addr s' = next_addr s -> step_shape s s'
| shape_org (n : Z) (b : bool) :
    eq_cstr (fst (get_word (file_pos s))) (cstr "ORG") = true ->
    parse_num (fst (get_word (snd (get_word (file_pos s))))) 16 false = Ok (n, b) ->
    instructions s' = instructions s -> labels s' = labels s ->
    next_addr s' = n -> 0 <= n < 2 ^ 16 -> step_shape s s'
| shape_label (l : Label) :
    instructions s' = instructions s -> labels s' = labels s ++ [l] ->
    addr l = next_addr s -> size (labels s) < MAX_LABELS ->
    Forall (fun l' => eq_sub (name l') (name l) = false) (labels s) ->
    next_addr s' = next_addr s -> step_shape s s'
| shape_instr (i : Instr) :
    instructions s' = instructions s ++ [i] -> labels s' = labels s ->
    instr_addr i = next_addr s -> size (args i) <= 3 ->
    size (instructions s) < MAX_INSTR ->
    next_addr s' = u32 (next_addr s + 2) -> step_shape s s'.

(** The addresses of a program whose [ORG] operands are even. *)
Definition even_addresses (s : state) : Prop :=
  org_even (file_pos s) /\
  Z.even (next_addr s) = true /\
  Forall (fun i => Z.even (instr_addr i) = true) (instructions s) /\
  Forall (fun l => Z.even (addr l) = true) (labels s).

(** The addresses of a program without [ORG]. *)
Definition plain_addresses (s : state) : Prop :=
  org_free (file_pos s) /\
  next_addr s = 2 * size (instructions s) /\
  size (instructions s) <= MAX_INSTR /\
  Forall (fun i => 0 <= instr_addr i /\ instr_addr i + 1 < ROM_SIZE)
         (instructions s) /\
  Forall (fun l => 0 <= addr l <= ROM_SIZE) (labels s).

(** A byte of the image. *)
Definition byte (b : Z) : Prop := 0 <= b < 256.

Definition is_upper_hex (c : ascii) : bool :=
  in_range "0" "9" c || in_range "A" "F" c.

(** An output line: four upper-case hexadecimal digits and a newline. *)
Definition hex_line (l : list ascii) : Prop :=
  exists a b c d, l = [a; b; c; d; NL] /\
    is_upper_hex a && is_upper_hex b && is_upper_hex c && is_upper_hex d = true.

(** The instruction stores a byte of the 16-bit slot [k] of the image. *)
Definition writes_slot (i : Instr) (k : Z) : Prop :=
  instr_addr i = 2 * k \/ instr_addr i = 2 * k + 1 \/ instr_addr i + 1 = 2 * k.

(** Two instructions whose stores do not meet. *)
Definition apart (i j : Instr) : Prop :=
  instr_addr j <> instr_addr i /\ instr_addr j + 1 <> instr_addr i /\
  instr_addr j <> instr_addr i + 1.

(** The C string a buffer holds: its characters up to the first NUL. *)
Fixpoint until_nul (buf : list ascii) : list ascii :=
  match buf with
  | [] => []
  | c :: rest => if is_nul c then [] else c :: until_nul rest
  end.

(** Line [k] (from 0) of an output file. *)
Definition output_line (k : nat) (out : list ascii) : list ascii :=
  firstn 5 (skipn (5 * k) out).

(** Every error exit of the computation prints the value of [line_num]. *)
Definition reports_line_num {A : Type} (m : outcome A) : Prop :=
  forall n msg, m = Exit1 n msg -> n = line_num.

(** [n] output lines of an empty 16-bit slot. *)
Definition blank_lines (n : nat) : list ascii := concat (repeat (line "0000") n).

(** ** Further definitions of the source, and of statements about it *)

(** [Array::pop]: [assert(size); return data[--size];] *)
Definition pop {T : Type} (a : Array T) : outcome (T * Array T) :=
  if size a =? 0 then Abort
  else
    match nth_error a (length a - 1) with
    | Some element => Ok (element, firstn (length a - 1) a)
    | None => Undefined
    end.

(** A character a C string can hold. *)
Definition not_nul (c : ascii) : Prop := is_nul c = false.

(** A character [skip_blank] passes over. *)
Definition blank (c : ascii) : Prop :=
  is_nul c = false /\ word_char c = false /\ Ascii.eqb c NL = false.

(** The three kinds of word [get_word] returns, [rest] being the cursor
    behind the word: nothing at the end of the text, a newline, or a run
    of word characters that stops where the next character is none. *)
Inductive lexed : SubString -> list ascii -> Prop :=
| lexed_end rest : is_nul (at_ rest 0) = true -> lexed [] rest
| lexed_newline rest : lexed [NL] rest
| lexed_run c w rest :
    Forall (fun c => word_char c = true) (c :: w) ->
    word_char (at_ rest 0) = false -> lexed (c :: w) rest.

(** An operand word as phase 1 records them. *)
Definition operand_word (w : SubString) : Prop :=
  w <> [] /\ Forall (fun c => word_char c = true) w.

(** The number of operands the [switch] of [parse_instruction] asserts for
    a format. *)
Definition operand_count (f : InstructionFormat) : Z :=
  match f with
  | A0 => 0
  | A1 => 3
  | A2 => 2
  | A3 => 1
  | B1 => 1
  | B2 => 2
  | L1 => 1
  | L2 => 2
  end.

(** The register token [R<n>] of a one-digit register number. *)
Definition reg_token (n : Z) : SubString :=
  ["R"%char; ascii_of_N (Z.to_N (chr "0" + n))].

(** The width [parse_instruction] passes to [parse_num] for the immediate
    operand of a format that has one. *)
Definition immediate_bits (f : InstructionFormat) : Z :=
  match f with
  | A2 => 4
  | B2 => 6
  | L1 => 8
  | _ => 0
  end.

(** A character of the input the lexer steps over: upper-cased it is a
    blank.  Spaces, tabs, commas, semicolons and signs are of this kind. *)
Definition separator (c : ascii) : Prop := blank (toupper c).

(** Two texts that differ only in which separator stands at a place. *)
Definition same_tokens (a b : list ascii) : Prop :=
  Forall2 (fun x y => x = y \/ (separator x /\ separator y)) a b.

(** The same, for upper-cased buffers. *)
Definition same_words (a b : list ascii) : Prop :=
  Forall2 (fun x y => x = y \/ (blank x /\ blank y)) a b.

(** Two states of phase 1 that differ only in the separators ahead. *)
Definition same_state (s1 s2 : state) : Prop :=
  same_words (file_pos s1) (file_pos s2) /\
  in_comment s1 = in_comment s2 /\ next_addr s1 = next_addr s2 /\
  instructions s1 = instructions s2 /\ labels s1 = labels s2.

(** Two computations that end alike, their results related by [R]. *)
Definition alike {A : Type} (R : A -> A -> Prop) (m1 m2 : outcome A) : Prop :=
  match m1, m2 with
  | Ok a1, Ok a2 => R a1 a2
  | _, Ok _ | Ok _, _ => False
  | _, _ => m1 = m2
  end.

(** ** The line-based assembler of [assembler_apr7.cpp]

    This version reads the input line by line, twice: the first pass
    collects the labels, the second one encodes.  Its [to_upper],
    [strip_comments], [lookup_op], [is_label], [parse_num], [parse_reg],
    [parse_constant] and [parse_instruction] are those modelled above;
    its lexer knows no newline, and [line_num] counts the lines. *)
Module Apr7.

Definition LINE_BUF_SIZE : Z := 256.
Definition LABEL_BUF_SIZE : Z := 65536.

Fixpoint skip_blank (buf : list ascii) : list ascii :=
  match buf with
  | [] => []
  | c :: rest =>
      if is_nul c then buf
      else if word_char c then buf
      else skip_blank rest
  end.

Definition skip_word (buf : list ascii) : list ascii := skip_word_chars buf.

Definition get_word (buf : list ascii) : SubString * list ascii :=
  let start := skip_blank buf in
  let stop := skip_word start in
  (firstn (length start - length stop) start, stop).

(** The values [line_buf] takes in [while (input_file.getline(line_buf,
    LINE_BUF_SIZE))], [cur] being the characters of the line read so far:
    a line ends at a newline or at the end of the file; a call that finds
    the end of the file at once fails, and so does a line of
    [LINE_BUF_SIZE] characters or more, after which nothing more is
    read. *)
Fixpoint getlines (cur : list ascii) (file : list ascii) : list (list ascii) :=
  match file with
  | [] =>
      match cur with
      | [] => []
      | _ => if len cur <? LINE_BUF_SIZE then [cur] else []
      end
  | c :: rest =>
      if Ascii.eqb c NL then
        if len cur <? LINE_BUF_SIZE then cur :: getlines [] rest else []
      else getlines (cur ++ [c]) rest
  end.

(** A computation of the shared functions, run while the global
    [line_num] holds [n]: its [asm_assert] prints [n]. *)
Definition at_line {A : Type} (n : Z) (m : outcome A) : outcome A :=
  match m with
  | Exit1 _ msg => Exit1 n msg
  | _ => m
  end.

(** The way on after a line: to the next line, or out through the
    [cout << "Assembler error: ..."; exit(1)] of the first pass. *)
Inductive step (A : Type) : Type :=
| Next (a : A)
| AssemblerError (msg : string).

Arguments Next {A} a.
Arguments AssemblerError {A} msg.

(** The variables of [main] the two loops change, and the global
    [rom_data]. *)
Record state : Type := mkState {
  label_buf_mark : Z;
  labels : Array Label;
  write_addr : Z;
  rom_data : list Z
}.

(** The body of the first loop for one line, [n] being [line_num] after
    its [++line_num]. *)
Definition pass1_line (n : Z) (s : state) (line_buf : list ascii)
  : outcome (step state) :=
  let line := to_upper (strip_comments line_buf) in
  let '(word, line) := get_word line in
  if eq_cstr word (cstr "ORG") then
    let '(word, line) := get_word line in
    '(v, _) <- at_line n (parse_num word 16 false) ;;
    Ok (Next (mkState (label_buf_mark s) (labels s) (u32 v) (rom_data s)))
  else if negb (lookup_op word =? INVALID_OP) then
    Ok (Next (mkState (label_buf_mark s) (labels s) (u32 (write_addr s + 2))
                (rom_data s)))
  else if is_label word then
    let word := removelast word in
    at_line n (check_duplicate (labels s) word) ;;;
    if u32 (label_buf_mark s + len word) <=? LABEL_BUF_SIZE then
      labels_ <- push MAX_LABELS (labels s) (mkLabel word (write_addr s)) ;;
      Ok (Next (mkState (u32 (label_buf_mark s + len word)) labels_
                  (write_addr s) (rom_data s)))
    else
      Ok (AssemblerError
            "Assembler error: not enough space left in the label name buffer")
  else Ok (Next s).

(** The first loop over the lines that are left, [n] being [line_num]. *)
Fixpoint pass1 (n : Z) (s : state) (lines : list (list ascii))
  : outcome (step state) :=
  match lines with
  | [] => Ok (Next s)
  | line_buf :: rest =>
      let n := u32 (n + 1) in
      r <- pass1_line n s line_buf ;;
      match r with
      | Next s' => pass1 n s' rest
      | AssemblerError msg => Ok (AssemblerError msg)
      end
  end.

(** The operand loop of the second pass, [while (word.len)]. *)
Fixpoint collect_args (fuel : nat) (word : SubString) (line : list ascii)
    (args_ : Array SubString) : outcome (Array SubString) :=
  if negb (len word =? 0) then
    match fuel with
    | O => Fuel
    | S fuel' =>
        args_ <- push 3 args_ word ;;
        let '(word, line) := get_word line in
        collect_args fuel' word line args_
    end
  else Ok args_.

(** The body of the second loop for one line. *)
Definition pass2_line (n : Z) (s : state) (line_buf : list ascii) : outcome state :=
  let line := to_upper (strip_comments line_buf) in
  let '(word, line) := get_word line in
  if eq_cstr word (cstr "ORG") then
    let '(word, line) := get_word line in
    '(v, _) <- at_line n (parse_num word 16 false) ;;
    Ok (mkState (label_buf_mark s) (labels s) (u32 v) (rom_data s))
  else if negb (lookup_op word =? INVALID_OP) then
    let op := word in
    let '(word, line) := get_word line in
    args_ <- collect_args 4 word line [] ;;
    instr <- at_line n (parse_instruction op args_ (labels s) (write_addr s)) ;;
    rom <- rom_store (rom_data s) (write_addr s) (Z.land (Z.shiftr instr 8) 0xFF) ;;
    rom <- rom_store rom (u32 (write_addr s + 1)) (Z.land instr 0xFF) ;;
    Ok (mkState (label_buf_mark s) (labels s) (u32 (write_addr s + 2)) rom)
  else Ok s.

Fixpoint pass2 (n : Z) (s : state) (lines : list (list ascii)) : outcome state :=
  match lines with
  | [] => Ok s
  | line_buf :: rest =>
      let n := u32 (n + 1) in
      s' <- pass2_line n s line_buf ;;
      pass2 n s' rest
  end.

(** [main] from the contents of the input file to those of the output
    file. *)
Definition main (file : list ascii) : outcome (step (list ascii)) :=
  let lines := getlines [] file in
  r <- pass1 0 (mkState 0 [] 0 (repeat 0 (Z.to_nat ROM_SIZE))) lines ;;
  match r with
  | AssemblerError msg => Ok (AssemblerError msg)
  | Next s =>
      s <- pass2 0 (mkState (label_buf_mark s) (labels s) 0 (rom_data s)) lines ;;
      Ok (Next (concat (rom_lines (rom_data s))))
  end.

End Apr7.

(** * Machine arithmetic *)

Lemma i32_small z : - 2 ^ 31 <= z < 2 ^ 31 -> i32 z = z.
Proof.
  intros H. unfold i32. rewrite Z.mod_small; lia.
Qed.

Lemma i32_range z : - 2 ^ 31 <= i32 z < 2 ^ 31.
Proof.
  unfold i32. pose proof (Z.mod_pos_bound (z + 2 ^ 31) (2 ^ 32) ltac:(lia)). lia.
Qed.

Lemma u32_range z : 0 <= u32 z < 2 ^ 32.
Proof. unfold u32. apply Z.mod_pos_bound. lia. Qed.

Lemma u32_signed z :
  - 2 ^ 31 <= z < 2 ^ 31 -> u32 z = if z <? 0 then z + 2 ^ 32 else z.
Proof.
  intros H. unfold u32. destruct (Z.ltb_spec z 0).
  - symmetry. apply Z.mod_unique with (q := -1); lia.
  - apply Z.mod_small. lia.
Qed.

Lemma pow2_split w : 0 <= w <= 32 -> 2 ^ 32 = 2 ^ w * 2 ^ (32 - w).
Proof.
  intros H. rewrite <- Z.pow_add_r by lia. f_equal. lia.
Qed.

Lemma high_mask_eq w : 0 <= w <= 32 -> high_mask w = 2 ^ 32 - 2 ^ w.
Proof.
  intros H. unfold high_mask, u32. rewrite Z.shiftl_mul_pow2 by lia.
  assert (Hp : 0 < 2 ^ w) by (apply Z.pow_pos_nonneg; lia).
  assert (Hle : 2 ^ w <= 2 ^ 32) by (apply Z.pow_le_mono_r; lia).
  change (2 ^ 32) with 4294967296 in *.
  symmetry. apply Z.mod_unique with (q := 2 ^ w - 1); [lia | ring].
Qed.

Lemma high_mask_shape w :
  0 <= w <= 32 -> 2 ^ 32 - 2 ^ w = Z.shiftl (Z.ones (32 - w)) w.
Proof.
  intros H. rewrite Z.shiftl_mul_pow2, Z.ones_equiv by lia.
  rewrite (pow2_split w H). lia.
Qed.

Lemma land_high x w :
  0 <= x < 2 ^ 32 -> 0 <= w <= 32 ->
  Z.land x (2 ^ 32 - 2 ^ w) = 2 ^ w * (x / 2 ^ w).
Proof.
  intros Hx Hw. rewrite (high_mask_shape w Hw).
  rewrite (Z.mul_comm (2 ^ w)), <- Z.shiftr_div_pow2, <- Z.shiftl_mul_pow2 by lia.
  apply Z.bits_inj'. intros n Hn.
  rewrite Z.land_spec, !Z.shiftl_spec by lia.
  destruct (Z.ltb_spec n w) as [Hlt | Hge].
  - rewrite !(Z.testbit_neg_r _ (n - w)) by lia. apply andb_false_r.
  - rewrite Z.shiftr_spec by lia. replace (n - w + w) with n by lia.
    destruct (Z.ltb_spec n 32) as [Hn32 | Hn32].
    + rewrite Z.ones_spec_low by lia. apply andb_true_r.
    + rewrite Z.ones_spec_high by lia. rewrite andb_false_r.
      symmetry. apply Z.bits_above_log2; [lia |].
      destruct (Z.eq_dec x 0) as [-> | Hx0]; [simpl; lia |].
      apply Z.log2_lt_pow2; [lia |].
      apply Z.lt_le_trans with (2 ^ 32); [lia |].
      apply Z.pow_le_mono_r; lia.
Qed.

Lemma div_zero_iff x m : 0 <= x -> 0 < m -> (m * (x / m) = 0 <-> x < m).
Proof.
  intros Hx Hm. split; intros H.
  - assert (Hq : x / m = 0) by nia.
    apply Z.div_small_iff in Hq; lia.
  - rewrite Z.div_small by lia. lia.
Qed.

Lemma div_top_iff x m K :
  0 <= x -> 0 < m -> (m * (x / m) = m * K - m <-> m * K - m <= x < m * K).
Proof.
  intros Hx Hm.
  pose proof (Z.div_mod x m ltac:(lia)) as Hdm.
  pose proof (Z.mod_pos_bound x m Hm) as Hb.
  split; intros H.
  - lia.
  - assert (Hq : x / m = K - 1).
    { symmetry. apply Z.div_unique with (r := x - m * (K - 1)); [left; nia | ring]. }
    rewrite Hq. ring.
Qed.

Lemma fits_spec r w :
  - 2 ^ 31 <= r < 2 ^ 31 -> 0 <= w < 32 ->
  fits r w = (- 2 ^ w <=? r) && (r <? 2 ^ w).
Proof.
  intros Hr Hw. unfold fits.
  rewrite high_mask_eq by lia.
  rewrite land_high by (try apply u32_range; lia).
  assert (Hp : 0 < 2 ^ w) by (apply Z.pow_pos_nonneg; lia).
  assert (Hle : 2 ^ w <= 2 ^ 31) by (apply Z.pow_le_mono_r; lia).
  pose proof (pow2_split w ltac:(lia)) as Hs.
  pose proof (u32_range r) as Hu.
  pose proof (div_zero_iff (u32 r) (2 ^ w) ltac:(lia) Hp) as H0.
  pose proof (div_top_iff (u32 r) (2 ^ w) (2 ^ (32 - w)) ltac:(lia) Hp) as H1.
  rewrite <- Hs in H1.
  rewrite (u32_signed r Hr) in *.
  change (2 ^ 32) with 4294967296 in *. change (2 ^ 31) with 2147483648 in *.
  generalize dependent (2 ^ w). intros m. intros.
  destruct (Z.ltb_spec r 0) as [Hneg | Hpos];
    destruct (Z.eqb_spec (m * ((r + 4294967296) / m)) 0) as [E0 | E0];
    destruct (Z.eqb_spec (m * ((r + 4294967296) / m)) (4294967296 - m)) as [E1 | E1];
    destruct (Z.eqb_spec (m * (r / m)) 0) as [E2 | E2];
    destruct (Z.eqb_spec (m * (r / m)) (4294967296 - m)) as [E3 | E3];
    destruct (Z.leb_spec (- m) r); destruct (Z.ltb_spec r m);
    cbn [orb andb]; try reflexivity; exfalso; lia.
Qed.

Lemma mask_low_spec r w :
  0 <= w < 32 -> mask_low r w = r mod 2 ^ w.
Proof.
  intros Hw. unfold mask_low.
  assert (Hp : 0 < 2 ^ w) by (apply Z.pow_pos_nonneg; lia).
  assert (Hle : 2 ^ w <= 2 ^ 31) by (apply Z.pow_le_mono_r; lia).
  rewrite high_mask_eq by lia.
  assert (Hn : u32 (Z.lnot (2 ^ 32 - 2 ^ w)) = Z.ones w).
  { unfold u32. rewrite Z.ones_equiv. unfold Z.lnot.
    symmetry. apply Z.mod_unique with (q := -1); lia. }
  rewrite Hn, Z.land_ones by lia.
  unfold u32. rewrite Z.mod_mod_divide.
  - apply i32_small. pose proof (Z.mod_pos_bound r (2 ^ w) Hp). lia.
  - exists (2 ^ (32 - w)). rewrite Z.mul_comm. apply pow2_split. lia.
Qed.

(** * Numeric literals *)

Lemma parse_num_unfold tok bits success :
  parse_num tok bits success =
  parse_num_from_base (Ascii.eqb (at_ tok 0) "-")
    (if Ascii.eqb (at_ tok 0) "+" || Ascii.eqb (at_ tok 0) "-" then tl tok else tok)
    bits success.
Proof. reflexivity. Qed.

Ltac each_char c :=
  destruct c as [[|] [|] [|] [|] [|] [|] [|] [|]].

Lemma spec_digit_char c d :
  spec_digit c = Some d ->
  digit_val c = d /\ 0 <= d < 16 /\
  isspace c = false /\ Ascii.eqb c "+" = false /\ Ascii.eqb c "-" = false /\
  Ascii.eqb c "x" = false /\ Ascii.eqb c "X" = false /\
  valid_digit 16 c = true /\
  (d < 10 -> valid_digit 10 c = true /\ Ascii.eqb c "B" = false) /\
  (d < 2 -> valid_digit 2 c = true).
Proof.
  intros H. each_char c; vm_compute in H; try discriminate H;
    injection H as <-; vm_compute; repeat split; intros; congruence.
Qed.

Lemma spec_number_cons base c rest v :
  spec_number base (c :: rest) = Some v ->
  exists d v', spec_digit c = Some d /\ d < base /\ spec_number base rest = Some v'.
Proof.
  cbn [spec_number]. intros H.
  destruct (spec_digit c) as [d|]; [|discriminate].
  destruct (spec_number base rest) as [v'|]; [|discriminate].
  destruct (Z.ltb_spec d base); [|discriminate]. eauto.
Qed.

Lemma spec_number_nonneg base ds v :
  0 <= base -> spec_number base ds = Some v -> 0 <= v.
Proof.
  intros Hb. revert v. induction ds as [|c rest IH]; intros v H; simpl in H.
  - injection H as <-. lia.
  - destruct (spec_digit c) as [d|] eqn:Hd; [|discriminate].
    destruct (spec_number base rest) as [v'|]; [|discriminate].
    destruct (d <? base); [|discriminate]. injection H as <-.
    specialize (IH v' eq_refl).
    apply spec_digit_char in Hd.
    assert (0 <= base ^ Z.of_nat (length rest)) by (apply Z.pow_nonneg; lia).
    nia.
Qed.

Lemma spec_number_valid base ds v :
  In base [2; 10; 16] -> spec_number base ds = Some v ->
  valid_digits base ds = true.
Proof.
  intros Hb. revert v. induction ds as [|c rest IH]; intros v H; simpl in *.
  - reflexivity.
  - destruct (spec_digit c) as [d|] eqn:Hd; [|discriminate].
    destruct (spec_number base rest) as [v'|]; [|discriminate].
    destruct (Z.ltb_spec d base) as [Hlt|]; [|discriminate].
    apply spec_digit_char in Hd.
    destruct Hd as (_ & _ & _ & _ & _ & _ & _ & H16 & H10 & H2).
    assert (Hv : valid_digit base c = true).
    { destruct Hb as [<- | [<- | [<- | []]]].
      - apply H2; lia.
      - apply H10; lia.
      - exact H16. }
    rewrite Hv. simpl. eapply IH; reflexivity.
Qed.

Lemma strtoul_digits_spec base ds : forall acc v,
  spec_number base ds = Some v ->
  strtoul_digits base acc ds = acc * base ^ Z.of_nat (length ds) + v.
Proof.
  induction ds as [|c rest IH]; intros acc v H; simpl in H.
  - injection H as <-. simpl. lia.
  - destruct (spec_digit c) as [d|] eqn:Hd; [|discriminate].
    destruct (spec_number base rest) as [v'|]; [|discriminate].
    destruct (Z.ltb_spec d base) as [Hlt|]; [|discriminate].
    injection H as <-.
    apply spec_digit_char in Hd. destruct Hd as (Hdv & _).
    cbn [strtoul_digits]. rewrite Hdv.
    destruct (Z.ltb_spec d base); [|lia].
    rewrite (IH _ v' eq_refl).
    cbn [length]. rewrite Nat2Z.inj_succ, Z.pow_succ_r by lia. ring.
Qed.

Lemma strtoul_number base ds v :
  spec_number base ds = Some v -> 0 <= base -> v <= ULONG_MAX ->
  strtoul ds base = v.
Proof.
  intros H Hb Hv. unfold strtoul.
  assert (Hs : skip_space ds = ds).
  { destruct ds as [|c rest]; [reflexivity|]. simpl in H |- *.
    destruct (spec_digit c) eqn:Hd; [|discriminate].
    apply spec_digit_char in Hd. destruct Hd as (_ & _ & -> & _). reflexivity. }
  rewrite Hs.
  assert (H0 : Ascii.eqb (at_ ds 0) "-" = false /\ Ascii.eqb (at_ ds 0) "+" = false).
  { destruct ds as [|c rest]; [split; reflexivity|]. simpl in H.
    destruct (spec_digit c) eqn:Hd; [|discriminate].
    apply spec_digit_char in Hd. cbn. tauto. }
  destruct H0 as [-> ->]. cbn [orb].
  assert (H1 : Ascii.eqb (at_ ds 1) "x" || Ascii.eqb (at_ ds 1) "X" = false).
  { destruct ds as [|c [|c1 rest]]; try reflexivity. simpl in H.
    destruct (spec_digit c); [|discriminate].
    destruct (spec_digit c1) eqn:Hd; [|discriminate].
    apply spec_digit_char in Hd. cbn.
    destruct Hd as (_ & _ & _ & _ & _ & -> & -> & _). reflexivity. }
  rewrite H1, andb_false_r.
  rewrite (strtoul_digits_spec base ds 0 v H). rewrite Z.mul_0_l, Z.add_0_l.
  destruct (Z.gtb_spec v ULONG_MAX); [lia | reflexivity].
Qed.

Lemma parse_num_digits_number (negative : bool) base ds m w (success : bool) :
  In base [2; 10; 16] -> spec_number base ds = Some m -> m < 2 ^ 31 ->
  0 <= w < 32 ->
  let v := if negative then - m else m in
  bind (if negb success then asm_assert (valid_digits base ds) "malformed constant"
        else Ok tt)
    (fun _ =>
       let result := i32 (strtoul ds base) in
       let result := if negative then i32 (- result) else result in
       asm_assert (fits result w) "argument needs too many bits" ;;;
       Ok (mask_low result w, valid_digits base ds))
  = if (- 2 ^ w <=? v) && (v <? 2 ^ w) then Ok (v mod 2 ^ w, true)
    else Exit1 line_num "argument needs too many bits".
Proof.
  intros Hb Hm Hlt Hw v.
  assert (H0 : 0 <= base) by (destruct Hb as [<- | [<- | [<- | []]]]; lia).
  pose proof (spec_number_nonneg _ _ _ H0 Hm) as Hnn.
  rewrite (spec_number_valid _ _ _ Hb Hm).
  rewrite (strtoul_number _ _ _ Hm H0) by (unfold ULONG_MAX; lia).
  assert (Hres : (if negative then i32 (- i32 m) else i32 m) = v).
  { subst v. rewrite (i32_small m) by lia. destruct negative; [|reflexivity].
    apply i32_small. lia. }
  assert (Hr : - 2 ^ 31 <= v < 2 ^ 31) by (subst v; destruct negative; lia).
  replace (if negb success then asm_assert true "malformed constant" else Ok tt)
    with (@Ok unit tt) by (destruct success; reflexivity).
  cbn [bind]. cbv zeta. rewrite Hres.
  rewrite fits_spec by lia. rewrite mask_low_spec by lia.
  destruct ((- 2 ^ w <=? v) && (v <? 2 ^ w)); reflexivity.
Qed.

(** What [parse_num] does with every literal of the specification's syntax
    whose value fits [int32_t]. *)
Lemma parse_num_literal tok v w success :
  spec_literal_value tok = Some v -> - 2 ^ 31 < v < 2 ^ 31 -> 0 <= w < 32 ->
  parse_num tok w success =
  if (- 2 ^ w <=? v) && (v <? 2 ^ w) then Ok (v mod 2 ^ w, true)
  else Exit1 line_num "argument needs too many bits".
Proof.
  intros Hlit Hv Hw. rewrite parse_num_unfold.
  unfold spec_literal_value in Hlit.
  destruct (spec_sign tok) as [sign body] eqn:Hsign.
  destruct (spec_base body) as [base ds] eqn:Hbase.
  destruct ds as [|d0 ds']; [discriminate|].
  destruct (spec_number base (d0 :: ds')) as [m|] eqn:Hm; [|discriminate].
  injection Hlit as <-.
  (* the sign *)
  match goal with
  | |- parse_num_from_base ?n ?r _ _ = _ => set (rst := r); set (neg := n)
  end.
  assert (Hs : (neg = true /\ sign = -1 /\ rst = body)
               \/ (neg = false /\ sign = 1 /\ rst = body)).
  { subst neg rst. unfold spec_sign in Hsign. destruct tok as [|c rest].
    - right. injection Hsign as <- <-. repeat split.
    - cbn [at_ nth tl].
      destruct (Ascii.eqb_spec c "+") as [-> | Hp].
      + right. injection Hsign as <- <-. repeat split.
      + destruct (Ascii.eqb c "-"); injection Hsign as <- <-;
          [left | right]; repeat split. }
  clearbody neg rst.
  (* the base *)
  assert (Hbody : forall negative,
    parse_num_from_base negative body w success =
    bind (if negb success then asm_assert (valid_digits base (d0 :: ds')) "malformed constant"
          else Ok tt)
      (fun _ =>
         let result := i32 (strtoul (d0 :: ds') base) in
         let result := if negative then i32 (- result) else result in
         asm_assert (fits result w) "argument needs too many bits" ;;;
         Ok (mask_low result w, valid_digits base (d0 :: ds')))
    /\ In base [2; 10; 16]).
  { intros negative. unfold parse_num_from_base, spec_base in *.
    destruct body as [|c0 [|c1 rest]].
    - discriminate.
    - inversion Hbase; subst. split; [reflexivity | cbn; tauto].
    - assert (Hlen : (2 <=? len (c0 :: c1 :: rest)) = true).
      { apply Z.leb_le. unfold len. cbn [length]. lia. }
      rewrite Hlen. cbn [at_ nth skipn].
      destruct (Ascii.eqb_spec c1 "X") as [-> | HX].
      + destruct (Ascii.eqb_spec c0 "0") as [-> | H0].
        * inversion Hbase; subst. split; [reflexivity | cbn; tauto].
        * cbn [andb] in Hbase.
          inversion Hbase; subst. exfalso.
          apply spec_number_cons in Hm. destruct Hm as (_ & v1 & _ & _ & Hm).
          apply spec_number_cons in Hm. destruct Hm as (d1 & _ & Hd & _).
          vm_compute in Hd. discriminate Hd.
      + destruct (Ascii.eqb_spec c1 "B") as [-> | HB].
        * destruct (Ascii.eqb_spec c0 "0") as [-> | H0].
          -- inversion Hbase; subst. split; [reflexivity | cbn; tauto].
          -- cbn [andb] in Hbase.
             inversion Hbase; subst. exfalso.
             apply spec_number_cons in Hm. destruct Hm as (_ & v1 & _ & _ & Hm).
             apply spec_number_cons in Hm. destruct Hm as (d1 & _ & Hd & Hlt & _).
             vm_compute in Hd. injection Hd as <-. lia.
        * rewrite !andb_false_r in Hbase.
          inversion Hbase; subst. split; [reflexivity | cbn; tauto]. }
  assert (Hnn : 0 <= m).
  { eapply spec_number_nonneg; [|exact Hm].
    destruct (Hbody false) as [_ [<- | [<- | [<- | []]]]]; lia. }
  destruct Hs as [(-> & -> & ->) | (-> & -> & ->)];
    destruct (Hbody true) as [Ht Hb]; destruct (Hbody false) as [Hf _].
  - rewrite Ht.
    rewrite (parse_num_digits_number true base (d0 :: ds') m w success Hb Hm) by lia.
    replace (-1 * m) with (- m) by lia. reflexivity.
  - rewrite Hf.
    rewrite (parse_num_digits_number false base (d0 :: ds') m w success Hb Hm) by lia.
    replace (1 * m) with m by lia. reflexivity.
Qed.

(** * The bits above a field *)


Lemma bits_high_nonneg a n i :
  0 <= a < 2 ^ n -> 0 <= n <= i -> Z.testbit a i = false.
Proof.
  intros Ha Hn. destruct (Z.eq_dec a 0) as [-> | Hne]; [apply Z.bits_0 |].
  apply Z.bits_above_log2; [lia |].
  assert (Z.log2 a < n) by (apply Z.log2_lt_pow2; lia). lia.
Qed.





(** * The monad *)

Lemma bind_ok {A B : Type} (m : outcome A) (k : A -> outcome B) b :
  bind m k = Ok b -> exists a, m = Ok a /\ k a = Ok b.
Proof. destruct m; simpl; intros H; try discriminate. eauto. Qed.

Lemma asm_assert_ok c msg : asm_assert c msg = Ok tt -> c = true.
Proof. unfold asm_assert. destruct c; simpl; [reflexivity | discriminate]. Qed.

Lemma push_ok {T : Type} max_size (a a' : Array T) x :
  push max_size a x = Ok a' -> a' = a ++ [x] /\ size a < max_size.
Proof.
  unfold push. destruct (Z.ltb_spec (size a) max_size) as [Hlt | Hge]; intros Hp;
    [injection Hp as <-; auto | discriminate].
Qed.

Ltac bind_inv H :=
  let a := fresh "a" in
  let Ha := fresh "Ha" in
  let Hk := fresh "Hk" in
  apply bind_ok in H; destruct H as (a & Ha & Hk); rename Hk into H.

(** * The lexer moves forward *)

Lemma skip_blank_length buf : (length (skip_blank buf) <= length buf)%nat.
Proof.
  induction buf as [|c rest IH]; simpl; [lia |].
  destruct (is_nul c); [simpl; lia |].
  destruct (word_char c || Ascii.eqb c NL); simpl; lia.
Qed.

Lemma skip_word_chars_length buf : (length (skip_word_chars buf) <= length buf)%nat.
Proof.
  induction buf as [|c rest IH]; simpl; [lia |].
  destruct (is_nul c); [simpl; lia |].
  destruct (negb (word_char c)); simpl; lia.
Qed.

Lemma skip_word_length buf : (length (skip_word buf) <= length buf)%nat.
Proof.
  unfold skip_word. destruct (Ascii.eqb (at_ buf 0) NL).
  - destruct buf; simpl; lia.
  - apply skip_word_chars_length.
Qed.

Lemma get_word_pos buf : snd (get_word buf) = skip_word (skip_blank buf).
Proof. reflexivity. Qed.

Lemma get_word_length buf : (length (snd (get_word buf)) <= length buf)%nat.
Proof.
  rewrite get_word_pos.
  pose proof (skip_word_length (skip_blank buf)).
  pose proof (skip_blank_length buf). lia.
Qed.

Lemma get_word_progress buf :
  is_nul (at_ buf 0) = false -> (length (snd (get_word buf)) < length buf)%nat.
Proof.
  intros Hn. rewrite get_word_pos. destruct buf as [|c rest]; [discriminate |].
  cbn [at_ nth] in Hn. cbn [skip_blank]. rewrite Hn.
  destruct (word_char c || Ascii.eqb c NL) eqn:Hstart.
  - unfold skip_word. cbn [at_ nth tl].
    destruct (Ascii.eqb c NL) eqn:Hnl; [simpl; lia |].
    rewrite orb_false_r in Hstart.
    cbn [skip_word_chars]. rewrite Hn, Hstart. cbn [negb].
    pose proof (skip_word_chars_length rest). simpl. lia.
  - pose proof (skip_word_length (skip_blank rest)).
    pose proof (skip_blank_length rest). simpl. lia.
Qed.

Lemma get_word_at_nul buf :
  is_nul (at_ buf 0) = true -> get_word buf = ([], buf).
Proof.
  intros Hn. unfold get_word.
  assert (Hb : skip_blank buf = buf).
  { destruct buf as [|c rest]; [reflexivity |]. cbn [at_ nth] in Hn.
    cbn [skip_blank]. rewrite Hn. reflexivity. }
  assert (Hw : skip_word buf = buf).
  { unfold skip_word. destruct buf as [|c rest]; [reflexivity |].
    cbn [at_ nth] in Hn |- *. unfold is_nul in Hn.
    apply Ascii.eqb_eq in Hn. subst c. reflexivity. }
  rewrite Hb, Hw, Nat.sub_diag. reflexivity.
Qed.

Lemma advanced_length pos pos' :
  advanced pos pos' -> (length pos' <= length pos)%nat.
Proof.
  induction 1 as [| pos pos' _ IH]; [lia |].
  pose proof (get_word_length pos). lia.
Qed.

Lemma advanced_trans p q r : advanced p q -> advanced q r -> advanced p r.
Proof.
  induction 1; intros Hr; [exact Hr |]. apply advanced_word. auto.
Qed.

Lemma org_free_next pos : org_free pos -> org_free (snd (get_word pos)).
Proof.
  intros [pos' Hn | pos' Hn Hw Hrest].
  - rewrite (get_word_at_nul _ Hn). apply org_free_end. exact Hn.
  - exact Hrest.
Qed.

Lemma org_free_head pos :
  org_free pos -> eq_cstr (fst (get_word pos)) (cstr "ORG") = false.
Proof.
  intros [pos' Hn | pos' Hn Hw Hrest].
  - rewrite (get_word_at_nul _ Hn). reflexivity.
  - exact Hw.
Qed.

Lemma org_free_advanced pos pos' : advanced pos pos' -> org_free pos -> org_free pos'.
Proof.
  induction 1 as [| pos pos' _ IH]; intros Hf; [exact Hf |].
  apply IH, org_free_next, Hf.
Qed.

(** * The operand loop *)

Lemma collect_args_ok fuel : forall word pos args_ args' pos',
  collect_args fuel word pos args_ = Ok (args', pos') ->
  advanced pos pos' /\ (size args_ <= 3 -> size args' <= 3).
Proof.
  induction fuel as [|fuel IH]; intros word pos args_ args' pos' H;
    cbn [collect_args] in H.
  - destruct (negb (is_comment word) && negb (eq_cstr word [NL])); [discriminate |].
    injection H as <- <-. split; [constructor | auto].
  - destruct (negb (is_comment word) && negb (eq_cstr word [NL])).
    + bind_inv H. apply push_ok in Ha. destruct Ha as [-> Hsz].
      destruct (get_word pos) as [word1 pos1] eqn:Hgw.
      apply IH in H. destruct H as [Hadv Hle].
      split.
      * apply advanced_word. rewrite Hgw. exact Hadv.
      * intros _. apply Hle. unfold size in *. rewrite length_app. simpl. lia.
    + injection H as <- <-. split; [constructor | auto].
Qed.

Lemma collect_args_fuel fuel : forall word pos args_,
  (3 - length args_ < fuel)%nat -> collect_args fuel word pos args_ <> Fuel.
Proof.
  induction fuel as [|fuel IH]; intros word pos args_ Hf; [lia |].
  cbn [collect_args]. destruct (negb (is_comment word) && negb (eq_cstr word [NL]));
    [| discriminate].
  unfold push. destruct (Z.ltb_spec (size args_) 3) as [Hlt | Hge]; simpl;
    [| discriminate].
  destruct (get_word pos) as [word1 pos1]. apply IH.
  unfold size in Hlt. rewrite length_app. cbn [length]. lia.
Qed.

(** * Results of [parse_num] *)

Lemma parse_num_ok_range tok w success n b :
  parse_num tok w success = Ok (n, b) -> 0 <= w < 32 -> 0 <= n < 2 ^ w.
Proof.
  intros H Hw. unfold parse_num, parse_num_from_base in H.
  bind_inv H. destruct a as [base num_str].
  bind_inv H. bind_inv H. injection H as <- <-.
  rewrite mask_low_spec by lia.
  apply Z.mod_pos_bound. apply Z.pow_pos_nonneg; lia.
Qed.

(** * Phase 1 *)

Lemma check_duplicate_ok labels_ word :
  check_duplicate labels_ word = Ok tt ->
  Forall (fun l' => eq_sub (name l') word = false) labels_.
Proof.
  induction labels_ as [|l rest IH]; intros H; [constructor |].
  cbn [check_duplicate] in H. bind_inv H.
  destruct a. apply asm_assert_ok in Ha.
  constructor; [apply negb_true_iff, Ha | auto].
Qed.

Lemma phase1_step_shape s s' :
  phase1_step s = Ok s' ->
  advanced (snd (get_word (file_pos s))) (file_pos s') /\ step_shape s s'.
Proof.
  unfold phase1_step. destruct (get_word (file_pos s)) as [word pos] eqn:Hgw.
  cbn [snd fst].
  destruct (in_comment s && eq_cstr word [NL]).
  { intros H. injection H as <-. split; [constructor | apply shape_skip; reflexivity]. }
  destruct (is_comment word).
  { intros H. injection H as <-. split; [constructor | apply shape_skip; reflexivity]. }
  destruct (eq_cstr word (cstr "ORG")) eqn:Horg.
  { destruct (get_word pos) as [word1 pos1] eqn:Hgw1. intros H.
    bind_inv H. destruct a as [n b]. injection H as <-.
    pose proof (parse_num_ok_range _ _ _ _ _ Ha ltac:(lia)) as Hn.
    split.
    - apply advanced_word. rewrite Hgw1. constructor.
    - apply shape_org with (n := n) (b := b);
        [rewrite Hgw; exact Horg | rewrite Hgw; cbn [snd]; rewrite Hgw1; exact Ha
        | reflexivity | reflexivity | | exact Hn].
      cbn [next_addr]. unfold u32. apply Z.mod_small. lia. }
  destruct (is_label word).
  { intros H. bind_inv H. destruct a. apply check_duplicate_ok in Ha.
    bind_inv H. apply push_ok in Ha0. destruct Ha0 as [-> Hsz].
    injection H as <-. split; [constructor |].
    eapply shape_label with (l := mkLabel (removelast word) (next_addr s));
      try reflexivity; assumption. }
  destruct (negb (lookup_op word =? INVALID_OP)).
  - destruct (get_word pos) as [word1 pos1] eqn:Hgw1. intros H.
    bind_inv H. destruct a as [args_ pos2].
    apply collect_args_ok in Ha. destruct Ha as [Hadv Hle].
    bind_inv H. apply push_ok in Ha. destruct Ha as [-> Hsz].
    injection H as <-. split.
    + apply advanced_word. rewrite Hgw1. exact Hadv.
    + eapply shape_instr with (i := mkInstr (next_addr s) word args_);
        try reflexivity; [apply Hle; cbn; lia | assumption].
  - intros H. injection H as <-. split; [constructor | apply shape_skip; reflexivity].
Qed.

Lemma phase1_step_progress s s' :
  is_nul (at_ (file_pos s) 0) = false -> phase1_step s = Ok s' ->
  (length (file_pos s') < length (file_pos s))%nat.
Proof.
  intros Hn H. apply phase1_step_shape in H. destruct H as [Hadv _].
  apply advanced_length in Hadv.
  pose proof (get_word_progress _ Hn). lia.
Qed.

(** Induction along the phase-1 loop. *)
Lemma phase1_loop_inv (P : state -> Prop) :
  (forall s s', P s -> is_nul (at_ (file_pos s) 0) = false ->
                phase1_step s = Ok s' -> P s') ->
  forall fuel s s', P s -> phase1_loop fuel s = Ok s' -> P s'.
Proof.
  intros Hstep. induction fuel as [|fuel IH]; intros s s' HP H;
    cbn [phase1_loop] in H;
    destruct (is_nul (at_ (file_pos s) 0)) eqn:Hn;
    try (injection H as <-; exact HP); try discriminate.
  bind_inv H. eapply IH; [| exact H]. eapply Hstep; eauto.
Qed.

Lemma phase1_inv (P : state -> Prop) src s :
  P (mkState (to_upper src) false 0 [] []) ->
  (forall s s', P s -> is_nul (at_ (file_pos s) 0) = false ->
                phase1_step s = Ok s' -> P s') ->
  phase1 src = Ok s -> P s.
Proof.
  intros H0 Hstep H. unfold phase1 in H.
  eapply phase1_loop_inv; eauto.
Qed.

(** Every recorded instruction holds at most three operand words. *)
Lemma phase1_args_bound src s :
  phase1 src = Ok s -> Forall (fun i => size (args i) <= 3) (instructions s).
Proof.
  apply (phase1_inv (fun s => Forall (fun i => size (args i) <= 3) (instructions s))).
  - constructor.
  - intros s1 s2 HP _ Hstep. apply phase1_step_shape in Hstep.
    destruct Hstep as [_ [Hi _ _ | n b _ _ Hi _ _ _ | l Hi _ _ _ _ _ | i Hi _ _ Hsz _ _]];
      rewrite Hi; try exact HP.
    apply Forall_app. split; [exact HP | constructor; [exact Hsz | constructor]].
Qed.

Lemma size_app {T : Type} (a : Array T) x : size (a ++ [x]) = size a + 1.
Proof. unfold size. rewrite length_app. simpl. lia. Qed.

Lemma phase1_plain_addresses src s :
  org_free (to_upper src) -> phase1 src = Ok s -> plain_addresses s.
Proof.
  intros Hfree. apply (phase1_inv plain_addresses).
  - split; [exact Hfree |]. split; [reflexivity |].
    split; [cbn; discriminate |]. split; constructor.
  - intros s1 s2 (Hf & Hnext & Hsz & Hi & Hl) _ Hstep.
    apply phase1_step_shape in Hstep. destruct Hstep as [Hadv Hshape].
    assert (Hf2 : org_free (file_pos s2)).
    { eapply org_free_advanced; [exact Hadv | apply org_free_next, Hf]. }
    assert (H0 : 0 <= size (instructions s1)) by (unfold size; lia).
    unfold plain_addresses.
    destruct Hshape as [Ei El En | n b Horg _ _ _ _ _
                       | l Ei El Ea _ _ En | i Ei El Ea _ Hlt En];
      unfold MAX_INSTR, ROM_SIZE in *; change (1024 / 2) with 512 in *.
    + rewrite Ei, El, En. auto.
    + rewrite (org_free_head _ Hf) in Horg. discriminate.
    + rewrite Ei, El, En. repeat split; auto.
      apply Forall_app. split; [exact Hl |]. constructor; [| constructor].
      rewrite Ea, Hnext. lia.
    + rewrite Ei, El, En, size_app.
      repeat split; auto; try lia.
      * rewrite Hnext. unfold u32. rewrite Z.mod_small; lia.
      * apply Forall_app. split; [exact Hi |]. constructor; [| constructor].
        rewrite Ea, Hnext. lia.
Qed.

Lemma even_u32 z : Z.even (u32 z) = Z.even z.
Proof.
  unfold u32. rewrite Z.mod_eq by lia.
  rewrite Z.even_sub, Z.even_mul. change (Z.even (2 ^ 32)) with true.
  cbn [orb]. destruct (Z.even z); reflexivity.
Qed.

Lemma org_even_advanced pos pos' : advanced pos pos' -> org_even pos -> org_even pos'.
Proof.
  intros Hadv He pos2 Hadv2. apply He. eapply advanced_trans; eauto.
Qed.

Lemma org_free_even pos : org_free pos -> org_even pos.
Proof.
  intros Hf pos' Hadv Horg.
  rewrite (org_free_head _ (org_free_advanced _ _ Hadv Hf)) in Horg. discriminate.
Qed.

Lemma phase1_even_addresses src s :
  org_even (to_upper src) -> phase1 src = Ok s -> even_addresses s.
Proof.
  intros Heven. apply (phase1_inv even_addresses).
  - split; [exact Heven |]. split; [reflexivity |]. split; constructor.
  - intros s1 s2 (He & Hnext & Hi & Hl) _ Hstep.
    apply phase1_step_shape in Hstep. destruct Hstep as [Hadv Hshape].
    assert (He2 : org_even (file_pos s2)).
    { eapply org_even_advanced; [| exact He].
      apply advanced_word. exact Hadv. }
    unfold even_addresses.
    destruct Hshape as [Ei El En | n b Horg Hnum Ei El En _
                       | l Ei El Ea _ _ En | i Ei El Ea _ _ En];
      rewrite Ei, El, En; repeat split; auto.
    + apply (He (file_pos s1) (advanced_here _) Horg n b Hnum).
    + apply Forall_app. split; [exact Hl |]. constructor; [| constructor].
      rewrite Ea. exact Hnext.
    + rewrite even_u32, Z.even_add, Hnext. reflexivity.
    + apply Forall_app. split; [exact Hi |]. constructor; [| constructor].
      rewrite Ea. exact Hnext.
Qed.

(** Proving [org_even] of a given buffer, word by word. *)
Lemma advanced_end pos pos' :
  is_nul (at_ pos 0) = true -> advanced pos pos' -> pos' = pos.
Proof.
  intros Hn Hadv. induction Hadv as [| pos pos' _ IH]; [reflexivity |].
  rewrite (get_word_at_nul _ Hn) in IH. apply IH, Hn.
Qed.

Lemma org_even_end pos : is_nul (at_ pos 0) = true -> org_even pos.
Proof.
  intros Hn pos' Hadv Horg. rewrite (advanced_end _ _ Hn Hadv) in Horg.
  rewrite (get_word_at_nul _ Hn) in Horg. discriminate.
Qed.

Lemma org_even_word pos :
  (eq_cstr (fst (get_word pos)) (cstr "ORG") = true ->
   forall n b,
     parse_num (fst (get_word (snd (get_word pos)))) 16 false = Ok (n, b) ->
     Z.even n = true) ->
  org_even (snd (get_word pos)) -> org_even pos.
Proof.
  intros Hhead Hrest pos' Hadv.
  inversion Hadv as [p Hp | p p' Hnext]; subst.
  - exact Hhead.
  - apply Hrest. exact Hnext.
Qed.

(** * Phase 2 and the image *)

Lemma rom_store_ok rom i v rom' :
  rom_store rom i v = Ok rom' ->
  0 <= i < ROM_SIZE /\
  rom' = firstn (Z.to_nat i) rom ++ u8 v :: skipn (S (Z.to_nat i)) rom.
Proof.
  unfold rom_store.
  destruct (Z.leb_spec 0 i) as [Hlo | Hlo];
    destruct (Z.ltb_spec i ROM_SIZE) as [Hhi | Hhi]; cbn [andb];
    intros Hs; try discriminate.
  injection Hs as <-. auto.
Qed.

Lemma Forall_take {A : Type} (P : A -> Prop) n : forall l,
  Forall P l -> Forall P (firstn n l).
Proof.
  induction n as [|n IH]; intros l Hl; [constructor |].
  destruct Hl; cbn [firstn]; constructor; auto.
Qed.

Lemma Forall_drop {A : Type} (P : A -> Prop) n : forall l,
  Forall P l -> Forall P (skipn n l).
Proof.
  induction n as [|n IH]; intros l Hl; [exact Hl |].
  destruct Hl; cbn [skipn]; [constructor | auto].
Qed.

Lemma u8_byte v : byte (u8 v).
Proof. unfold byte, u8. apply Z.mod_pos_bound. reflexivity. Qed.

Section Store.
Variables (rom rom' : list Z) (i v : Z).
Hypothesis Hlen : length rom = Z.to_nat ROM_SIZE.
Hypothesis Hstore : rom_store rom i v = Ok rom'.

Lemma rom_store_length : length rom' = Z.to_nat ROM_SIZE.
Proof.
  destruct (rom_store_ok _ _ _ _ Hstore) as [Hi ->].
  rewrite length_app, length_firstn. cbn [length]. rewrite length_skipn.
  rewrite Hlen. lia.
Qed.

Lemma rom_store_same : nth (Z.to_nat i) rom' 0 = u8 v.
Proof.
  destruct (rom_store_ok _ _ _ _ Hstore) as [Hi ->].
  rewrite app_nth2; rewrite length_firstn, Hlen; [| lia].
  replace (Z.to_nat i - Nat.min (Z.to_nat i) (Z.to_nat ROM_SIZE))%nat with O by lia.
  reflexivity.
Qed.

Lemma rom_store_other j : j <> Z.to_nat i -> nth j rom' 0 = nth j rom 0.
Proof.
  intros Hj. destruct (rom_store_ok _ _ _ _ Hstore) as [Hi ->].
  assert (Hf : length (firstn (Z.to_nat i) rom) = Z.to_nat i)
    by (rewrite length_firstn, Hlen; lia).
  destruct (Nat.lt_ge_cases j (Z.to_nat i)) as [Hlt | Hge].
  - rewrite app_nth1 by lia. rewrite nth_firstn.
    destruct (Nat.ltb_spec j (Z.to_nat i)); [reflexivity | lia].
  - rewrite app_nth2 by lia. rewrite Hf.
    destruct (j - Z.to_nat i)%nat as [|m] eqn:Hm; [lia |].
    cbn [nth]. rewrite nth_skipn. f_equal. lia.
Qed.

Lemma rom_store_bytes : Forall byte rom -> Forall byte rom'.
Proof.
  intros Hb. destruct (rom_store_ok _ _ _ _ Hstore) as [Hi ->].
  apply Forall_app. split; [apply Forall_take, Hb |].
  constructor; [apply u8_byte | apply Forall_drop, Hb].
Qed.
End Store.

Lemma asm_assert_shape c msg :
  asm_assert c msg = Ok tt \/ asm_assert c msg = Exit1 line_num msg.
Proof. destruct c; [left | right]; reflexivity. Qed.

Lemma or16_range a b : 0 <= or16 a b < 2 ^ 16.
Proof. unfold or16, u16. apply Z.mod_pos_bound. reflexivity. Qed.

Lemma parse_instruction_range op_str args_ labels_ a w :
  parse_instruction op_str args_ labels_ a = Ok w -> 0 <= w < 2 ^ 16.
Proof.
  unfold parse_instruction.
  destruct (lookup_op op_str =? INVALID_OP); [discriminate |].
  destruct (nth_error OP (Z.to_nat (lookup_op op_str))) as [o |]; [| discriminate].
  intros H.
  destruct (format o); bind_inv H;
    repeat (match type of H with
            | bind _ _ = Ok _ => bind_inv H
            | (let '(_, _) := ?p in _) = Ok _ => destruct p
            end);
    injection H as <-; try apply or16_range.
Qed.

(** The two bytes of a 16-bit word, as [phase2] stores them. *)
Lemma word_bytes w :
  0 <= w < 2 ^ 16 ->
  u8 (Z.land (Z.shiftr w 8) 0xFF) = w / 256 /\ u8 (Z.land w 0xFF) = w mod 256.
Proof.
  intros Hw. change 0xFF with (Z.ones 8). rewrite !Z.land_ones by lia.
  rewrite Z.shiftr_div_pow2 by lia. unfold u8.
  change (2 ^ 8) with 256. change (2 ^ 16) with 65536 in Hw.
  rewrite !Z.mod_mod by lia. split; [| reflexivity].
  apply Z.mod_small. split; [apply Z.div_pos; lia |].
  apply Z.div_lt_upper_bound; lia.
Qed.

Lemma phase2_image instrs labels_ : forall rom rom',
  length rom = Z.to_nat ROM_SIZE -> Forall byte rom ->
  phase2 instrs labels_ rom = Ok rom' ->
  length rom' = Z.to_nat ROM_SIZE /\ Forall byte rom' /\
  Forall (fun i => 0 <= instr_addr i /\ instr_addr i + 1 < ROM_SIZE) instrs /\
  forall j, 0 <= j ->
            (forall i, In i instrs ->
                       j <> instr_addr i /\ j <> instr_addr i + 1) ->
            nth (Z.to_nat j) rom' 0 = nth (Z.to_nat j) rom 0.
Proof.
  induction instrs as [|i rest IH]; intros rom rom' Hlen Hb H; cbn [phase2] in H.
  - injection H as <-. repeat split; auto.
  - bind_inv H. rename a into w. bind_inv H. rename a into rom1.
    bind_inv H. rename a into rom2.
    pose proof (rom_store_length _ _ _ _ Hlen Ha0) as Hlen1.
    pose proof (rom_store_bytes _ _ _ _ Ha0 Hb) as Hb1.
    pose proof (rom_store_length _ _ _ _ Hlen1 Ha1) as Hlen2.
    pose proof (rom_store_bytes _ _ _ _ Ha1 Hb1) as Hb2.
    destruct (IH _ _ Hlen2 Hb2 H) as (Hl & Hby & Hin & Hkeep).
    destruct (rom_store_ok _ _ _ _ Ha0) as [Hi0 _].
    destruct (rom_store_ok _ _ _ _ Ha1) as [Hi1 _].
    assert (Hu : u32 (instr_addr i + 1) = instr_addr i + 1).
    { unfold u32, ROM_SIZE in *. apply Z.mod_small. lia. }
    rewrite Hu in *.
    repeat split; auto.
    + constructor; [lia | exact Hin].
    + intros j Hpos Hj.
      rewrite Hkeep by (try (intros i' Hi'; apply Hj; right); assumption).
      destruct (Hj i (or_introl eq_refl)) as [Hj0 Hj1].
      rewrite (rom_store_other _ _ _ _ Hlen1 Ha1) by lia.
      rewrite (rom_store_other _ _ _ _ Hlen Ha0) by lia. reflexivity.
Qed.

Lemma phase2_word pre i post labels_ : forall rom rom',
  length rom = Z.to_nat ROM_SIZE -> Forall byte rom ->
  phase2 (pre ++ i :: post) labels_ rom = Ok rom' ->
  Forall (apart i) post ->
  exists w, parse_instruction (op i) (args i) labels_ (instr_addr i) = Ok w /\
            nth (Z.to_nat (instr_addr i)) rom' 0 = w / 256 /\
            nth (Z.to_nat (instr_addr i + 1)) rom' 0 = w mod 256.
Proof.
  induction pre as [|p pre IH]; intros rom rom' Hlen Hb H Hapart;
    cbn [app phase2] in H;
    bind_inv H; rename a into w; bind_inv H; rename a into rom1;
    bind_inv H; rename a into rom2;
    pose proof (rom_store_length _ _ _ _ Hlen Ha0) as Hlen1;
    pose proof (rom_store_bytes _ _ _ _ Ha0 Hb) as Hb1;
    pose proof (rom_store_length _ _ _ _ Hlen1 Ha1) as Hlen2;
    pose proof (rom_store_bytes _ _ _ _ Ha1 Hb1) as Hb2.
  - exists w. split; [exact Ha |].
    destruct (phase2_image _ _ _ _ Hlen2 Hb2 H) as (_ & _ & _ & Hkeep).
    destruct (rom_store_ok _ _ _ _ Ha0) as [Hi0 _].
    destruct (rom_store_ok _ _ _ _ Ha1) as [Hi1 _].
    assert (Hu : u32 (instr_addr i + 1) = instr_addr i + 1).
    { unfold u32, ROM_SIZE in *. apply Z.mod_small. lia. }
    rewrite Hu in *.
    destruct (word_bytes w (parse_instruction_range _ _ _ _ _ Ha)) as [Hhi Hlo].
    rewrite Forall_forall in Hapart.
    split.
    + rewrite Hkeep; [| lia |].
      * rewrite (rom_store_other _ _ _ _ Hlen1 Ha1) by lia.
        rewrite (rom_store_same _ _ _ _ Hlen Ha0). exact Hhi.
      * intros j Hj. destruct (Hapart j Hj) as (H1 & H2 & H3). lia.
    + rewrite Hkeep; [| lia |].
      * rewrite (rom_store_same _ _ _ _ Hlen1 Ha1). exact Hlo.
      * intros j Hj. destruct (Hapart j Hj) as (H1 & H2 & H3). lia.
  - eapply IH; eauto.
Qed.

(** * The output file *)

Lemma rom_lines_length rom : length (rom_lines rom) = 512%nat.
Proof. unfold rom_lines. rewrite length_map, length_seq. reflexivity. Qed.

Lemma rom_lines_nth rom k :
  (k < 512)%nat -> nth k (rom_lines rom) [] = rom_line rom (2 * k).
Proof.
  intros Hk. unfold rom_lines.
  rewrite nth_indep with (d' := rom_line rom (2 * 0))
    by (rewrite length_map, length_seq; exact Hk).
  rewrite (map_nth (fun k => rom_line rom (2 * k))).
  rewrite seq_nth by exact Hk. reflexivity.
Qed.

Lemma hex_digit_upper n : 0 <= n < 16 -> is_upper_hex (hex_digit n) = true.
Proof.
  intros Hn. rewrite <- (Z2Nat.id n) by lia.
  assert (Hm : (Z.to_nat n < 16)%nat) by lia.
  revert Hm. generalize (Z.to_nat n). intros m Hm.
  do 16 (destruct m as [|m]; [reflexivity |]). lia.
Qed.

Lemma rom_line_hex rom i :
  byte (nth i rom 0) -> byte (nth (i + 1) rom 0) -> hex_line (rom_line rom i).
Proof.
  unfold byte. intros H0 H1. unfold hex_line, rom_line, hex02. cbn [app].
  do 4 eexists. split; [reflexivity |].
  rewrite !hex_digit_upper; try reflexivity;
    try (apply Z.mod_pos_bound; lia);
    (split; [apply Z.div_pos; lia | apply Z.div_lt_upper_bound; lia]).
Qed.

Lemma nth_byte rom i : Forall byte rom -> byte (nth i rom 0).
Proof.
  intros Hb. destruct (Nat.lt_ge_cases i (length rom)) as [Hlt | Hge].
  - rewrite Forall_forall in Hb. apply Hb, nth_In, Hlt.
  - rewrite nth_overflow by exact Hge. unfold byte. lia.
Qed.

Lemma rom_lines_hex rom : Forall byte rom -> Forall hex_line (rom_lines rom).
Proof.
  intros Hb. unfold rom_lines. apply Forall_map, Forall_forall.
  intros k _. apply rom_line_hex; apply nth_byte, Hb.
Qed.

Lemma main_ok src out :
  main src = Ok out ->
  exists s rom, phase1 src = Ok s /\
    phase2 (instructions s) (labels s) (repeat 0 (Z.to_nat ROM_SIZE)) = Ok rom /\
    out = concat (rom_lines rom).
Proof.
  unfold main. intros H. bind_inv H. rename a into s.
  bind_inv H. rename a into rom. injection H as <-. eauto.
Qed.

Lemma blank_image_bytes : Forall byte (repeat 0 (Z.to_nat ROM_SIZE)).
Proof.
  apply Forall_forall. intros b Hb. apply repeat_spec in Hb. subst b.
  unfold byte. lia.
Qed.

(** * The loop bounds of the embedding are never reached *)

Lemma bind_no_fuel {A B : Type} (m : outcome A) (k : A -> outcome B) :
  m <> Fuel -> (forall a, k a <> Fuel) -> bind m k <> Fuel.
Proof. intros Hm Hk. destruct m; simpl; try discriminate; auto. Qed.

Lemma asm_assert_no_fuel c msg : asm_assert c msg <> Fuel.
Proof. destruct c; discriminate. Qed.

Lemma push_no_fuel {T : Type} max_size (a : Array T) x : push max_size a x <> Fuel.
Proof. unfold push. destruct (size a <? max_size); discriminate. Qed.

Ltac no_fuel :=
  repeat match goal with
         | |- asm_assert _ _ <> Fuel => apply asm_assert_no_fuel
         | |- push _ _ _ <> Fuel => apply push_no_fuel
         | |- Ok _ <> Fuel => discriminate
         | |- Exit1 _ _ <> Fuel => discriminate
         | |- Abort <> Fuel => discriminate
         | |- Undefined <> Fuel => discriminate
         | |- bind _ _ <> Fuel => apply bind_no_fuel
         | |- (if ?c then _ else _) <> Fuel => destruct c
         | |- (let '(_, _) := ?p in _) <> Fuel => destruct p
         | |- forall _ : _, _ <> Fuel => intro
         end.

Lemma parse_num_no_fuel tok bits success : parse_num tok bits success <> Fuel.
Proof. unfold parse_num, parse_num_from_base. no_fuel. Qed.

Lemma parse_reg_no_fuel reg_str : parse_reg reg_str <> Fuel.
Proof. unfold parse_reg. no_fuel. Qed.

Lemma parse_constant_labels_no_fuel const_str a labels_ bits :
  forall result found,
  parse_constant_labels const_str a labels_ bits result found <> Fuel.
Proof.
  induction labels_ as [|l rest IH]; intros result found;
    cbn [parse_constant_labels]; no_fuel; apply IH.
Qed.

Lemma parse_constant_no_fuel const_str a labels_ bits :
  parse_constant const_str a labels_ bits <> Fuel.
Proof.
  unfold parse_constant. no_fuel;
    first [apply parse_num_no_fuel | apply parse_constant_labels_no_fuel].
Qed.

Lemma parse_instruction_no_fuel op_str args_ labels_ a :
  parse_instruction op_str args_ labels_ a <> Fuel.
Proof.
  unfold parse_instruction. no_fuel.
  destruct (nth_error OP (Z.to_nat (lookup_op op_str))) as [o |]; [| discriminate].
  destruct (format o); no_fuel;
    first [apply parse_reg_no_fuel | apply parse_num_no_fuel
          | apply parse_constant_no_fuel].
Qed.

Lemma rom_store_no_fuel rom i v : rom_store rom i v <> Fuel.
Proof. unfold rom_store. no_fuel. Qed.

Lemma phase2_no_fuel instrs labels_ : forall rom, phase2 instrs labels_ rom <> Fuel.
Proof.
  induction instrs as [|i rest IH]; intros rom; cbn [phase2]; no_fuel;
    first [apply parse_instruction_no_fuel | apply rom_store_no_fuel | apply IH].
Qed.

Lemma check_duplicate_no_fuel labels_ word : check_duplicate labels_ word <> Fuel.
Proof.
  induction labels_ as [|l rest IH]; cbn [check_duplicate]; no_fuel. exact IH.
Qed.

Lemma phase1_step_no_fuel s : phase1_step s <> Fuel.
Proof.
  unfold phase1_step. no_fuel;
    first [apply parse_num_no_fuel | apply check_duplicate_no_fuel
          | apply collect_args_fuel; cbn; lia].
Qed.

Lemma phase1_loop_no_fuel fuel : forall s,
  (length (file_pos s) <= fuel)%nat -> phase1_loop fuel s <> Fuel.
Proof.
  induction fuel as [|fuel IH]; intros s Hlen; cbn [phase1_loop];
    destruct (is_nul (at_ (file_pos s) 0)) eqn:Hn; try discriminate.
  - destruct (file_pos s); [discriminate | simpl in Hlen; lia].
  - destruct (phase1_step s) as [s' | | | |] eqn:Hstep; cbn [bind];
      try discriminate.
    + apply IH. pose proof (phase1_step_progress _ _ Hn Hstep). lia.
    + exfalso. exact (phase1_step_no_fuel s Hstep).
Qed.

(** The embedding of [main] gives a result of the program for every
    input: the bounds put on its loops are never what ends them. *)
Theorem main_total src : main src <> Fuel.
Proof.
  unfold main. apply bind_no_fuel.
  - unfold phase1. apply phase1_loop_no_fuel. cbn [file_pos]. lia.
  - intros s. apply bind_no_fuel; [apply phase2_no_fuel | discriminate].
Qed.

(** * Comments and the lexer *)

Lemma skip_blank_head buf :
  skip_blank buf = [] \/
  is_nul (at_ (skip_blank buf) 0) = true \/
  word_char (at_ (skip_blank buf) 0) || Ascii.eqb (at_ (skip_blank buf) 0) NL = true.
Proof.
  induction buf as [|c rest IH]; [left; reflexivity |].
  cbn [skip_blank]. destruct (is_nul c) eqn:Hn; [right; left; exact Hn |].
  destruct (word_char c || Ascii.eqb c NL) eqn:Hs; [right; right; exact Hs |].
  exact IH.
Qed.

(** No word [get_word] returns starts with [;]: [skip_blank] passes over
    the semicolon like over a blank. *)
Lemma get_word_never_comment buf : is_comment (fst (get_word buf)) = false.
Proof.
  unfold get_word. cbn [fst]. pose proof (skip_blank_head buf) as Hh.
  remember (skip_blank buf) as start eqn:Hstart. clear Hstart.
  destruct Hh as [He | [Hn | Hs]].
  - rewrite He. rewrite firstn_nil. reflexivity.
  - destruct start as [|c rest]; [rewrite firstn_nil; reflexivity |].
    cbn [at_ nth] in Hn. unfold is_nul in Hn. apply Ascii.eqb_eq in Hn. subst c.
    destruct (length (NUL :: rest) - length (skip_word (NUL :: rest)))%nat;
      reflexivity.
  - destruct start as [|c rest]; [rewrite firstn_nil; reflexivity |].
    cbn [at_ nth] in Hs.
    destruct (length (c :: rest) - length (skip_word (c :: rest)))%nat as [|n];
      [reflexivity |].
    cbn [firstn]. unfold is_comment. cbn [at_ nth].
    destruct (len (c :: firstn n rest) =? 0); [reflexivity |].
    destruct (Ascii.eqb_spec c ";") as [-> | Hne]; [discriminate | reflexivity].
Qed.

(** To [get_word] a semicolon is a blank. *)
Lemma semicolon_is_blank rest :
  get_word (";"%char :: rest) = get_word (" "%char :: rest).
Proof. reflexivity. Qed.

(** So the driver never is in its [in_comment] state. *)
Lemma phase1_never_in_comment src s : phase1 src = Ok s -> in_comment s = false.
Proof.
  apply (phase1_inv (fun s => in_comment s = false)); [reflexivity |].
  intros s1 s2 Hc _. unfold phase1_step.
  pose proof (get_word_never_comment (file_pos s1)) as Hw.
  destruct (get_word (file_pos s1)) as [word pos]. cbn [fst] in Hw.
  rewrite Hc, Hw. cbn [andb].
  destruct (eq_cstr word (cstr "ORG")).
  { destruct (get_word pos) as [word1 pos1]. intros H. bind_inv H.
    destruct a. injection H as <-. reflexivity. }
  destruct (is_label word).
  { intros H. bind_inv H. bind_inv H. injection H as <-. reflexivity. }
  destruct (negb (lookup_op word =? INVALID_OP)).
  - destruct (get_word pos) as [word1 pos1]. intros H. bind_inv H.
    destruct a. bind_inv H. injection H as <-. reflexivity.
  - intros H. injection H as <-. reflexivity.
Qed.

(** The pre-pass of the line-based implementation does cut a line at its
    first [;]. *)
Lemma strip_comments_cuts pre post :
  Forall (fun c => is_nul c = false /\ Ascii.eqb c ";" = false) pre ->
  until_nul (strip_comments (pre ++ ";"%char :: post)) = pre.
Proof.
  unfold strip_comments. induction 1 as [|c pre [Hn Hs] _ IH]; cbn [app].
  - reflexivity.
  - cbn [strip_comments_from]. rewrite Hn, Hs. cbn [until_nul]. rewrite Hn.
    f_equal. exact IH.
Qed.

(** * Symbol lookup and registers *)

Lemma eq_chars_eq a : forall b, length a = length b -> (eq_chars a b = true <-> a = b).
Proof.
  induction a as [|c a IH]; intros [|d b] Hlen; try discriminate Hlen.
  - split; reflexivity.
  - cbn [eq_chars]. injection Hlen as Hlen.
    destruct (Ascii.eqb_spec c d) as [-> | Hne]; cbn [negb].
    + rewrite (IH b Hlen). split; [intros -> | intros H; injection H]; auto.
    + split; [discriminate | intros H; injection H; contradiction].
Qed.

(** [operator==] on sub-strings is equality of the viewed characters. *)
Lemma eq_sub_eq a b : eq_sub a b = true <-> a = b.
Proof.
  unfold eq_sub, len.
  destruct (Z.eqb_spec (Z.of_nat (length b)) (Z.of_nat (length a))) as [He | Hne];
    cbn [negb].
  - apply eq_chars_eq. lia.
  - split; [discriminate | intros ->; contradiction].
Qed.

Lemma eq_sub_refl a : eq_sub a a = true.
Proof. apply eq_sub_eq. reflexivity. Qed.

Lemma parse_constant_labels_miss tok a bits labels_ : forall result found,
  Forall (fun l => name l <> tok) labels_ ->
  parse_constant_labels tok a labels_ bits result found = Ok (result, found).
Proof.
  induction labels_ as [|l rest IH]; intros result found Hl; [reflexivity |].
  inversion Hl as [| ? ? Hne Hrest]; subst. cbn [parse_constant_labels].
  destruct (eq_sub tok (name l)) eqn:He.
  - apply eq_sub_eq in He. congruence.
  - apply IH, Hrest.
Qed.

(** A label defined once: the displacement, range-checked and masked. *)
Lemma parse_constant_labels_hit tok a bits pre l post result :
  name l = tok -> Forall (fun l' => name l' <> tok) (pre ++ post) ->
  parse_constant_labels tok a (pre ++ l :: post) bits result false =
  let d := i32 (Z.quot (i32 (i32 (addr l) - i32 a)) 2) in
  if fits d bits then Ok (mask_low d bits, true)
  else Exit1 line_num "argument needs too many bits".
Proof.
  intros Hname Hothers. apply Forall_app in Hothers. destruct Hothers as [Hpre Hpost].
  revert result. induction pre as [|p pre IH]; intros result; cbn [app].
  - cbn [parse_constant_labels]. rewrite Hname, eq_sub_refl. cbv zeta.
    destruct (fits _ bits); [| reflexivity].
    cbn [asm_assert negb bind]. apply parse_constant_labels_miss, Hpost.
  - inversion Hpre as [| ? ? Hne Hrest]; subst. cbn [parse_constant_labels].
    destruct (eq_sub (name l) (name p)) eqn:He.
    + apply eq_sub_eq in He. congruence.
    + apply IH, Hrest.
Qed.

(** The displacement of a branch, for addresses within [int32_t]. *)
Lemma displacement_value T A :
  0 <= T < 2 ^ 31 -> 0 <= A < 2 ^ 31 ->
  i32 (Z.quot (i32 (i32 T - i32 A)) 2) = Z.quot (T - A) 2.
Proof.
  intros HT HA. rewrite (i32_small T), (i32_small A) by lia.
  rewrite (i32_small (T - A)) by lia.
  apply i32_small.
  assert (H : Z.abs (Z.quot (T - A) 2) <= Z.abs (T - A)).
  { destruct (Z.eq_dec (T - A) 0) as [-> | Hne]; [reflexivity |].
    pose proof (Z.quot_abs (T - A) 2 ltac:(lia)) as Habs.
    rewrite <- Habs. change (Z.abs 2) with 2.
    apply Z.lt_le_incl, Z.quot_lt; lia. }
  lia.
Qed.

(** What the B1 operand position does with a name that [parse_num] lets
    through as "not a number" and that the table holds once. *)
Lemma parse_constant_label tok A pre l post r :
  parse_num tok 9 true = Ok (r, false) ->
  name l = tok -> Forall (fun l' => name l' <> tok) (pre ++ post) ->
  0 <= addr l < 2 ^ 31 -> 0 <= A < 2 ^ 31 ->
  let d := Z.quot (addr l - A) 2 in
  parse_constant tok A (pre ++ l :: post) 9 =
  if (- 2 ^ 9 <=? d) && (d <? 2 ^ 9) then Ok (d mod 2 ^ 9)
  else Exit1 line_num "argument needs too many bits".
Proof.
  intros Hnum Hname Hothers HT HA d. unfold parse_constant.
  rewrite Hnum. cbn [bind negb].
  rewrite (parse_constant_labels_hit tok A 9 pre l post r Hname Hothers).
  cbv zeta. rewrite (displacement_value _ _ HT HA). fold d.
  assert (Hd : - 2 ^ 31 <= d < 2 ^ 31).
  { subst d. rewrite <- (displacement_value _ _ HT HA). apply i32_range. }
  rewrite fits_spec by lia. rewrite mask_low_spec by lia.
  destruct ((- 2 ^ 9 <=? d) && (d <? 2 ^ 9)); reflexivity.
Qed.

(** A name that is no number and is in no table entry is the one fatal
    "label not found". *)
Lemma parse_constant_unknown tok A labels_ r :
  parse_num tok 9 true = Ok (r, false) ->
  Forall (fun l => name l <> tok) labels_ ->
  parse_constant tok A labels_ 9 = Exit1 line_num "label not found".
Proof.
  intros Hnum Hmiss. unfold parse_constant. rewrite Hnum. cbn [bind negb].
  rewrite (parse_constant_labels_miss tok A 9 labels_ r false Hmiss). reflexivity.
Qed.

(** [parse_reg] tests the length and the [R]; the second character is
    taken as it is. *)
Lemma parse_reg_spec reg_str :
  (exists c, reg_str = ["R"%char; c] /\
             parse_reg reg_str = Ok (u32 (char_val c - 48)))
  \/ ((forall c, reg_str <> ["R"%char; c]) /\
      parse_reg reg_str = Exit1 line_num "not a valid register").
Proof.
  unfold parse_reg.
  destruct reg_str as [|c0 [|c1 [|c2 rest]]]; try (right; split; [discriminate | reflexivity]).
  - change (len [c0; c1] =? 2) with true. cbn [andb at_ nth].
    destruct (Ascii.eqb_spec c0 "R") as [-> | Hne].
    + left. exists c1. split; reflexivity.
    + right. split; [| reflexivity]. intros c H. injection H as H _. contradiction.
  - right. split; [discriminate |].
    assert (Hl : (len (c0 :: c1 :: c2 :: rest) =? 2) = false).
    { apply Z.eqb_neq. unfold len. cbn [length]. lia. }
    rewrite Hl. reflexivity.
Qed.

(** * The line number of an error *)

Lemma bind_reports {A B : Type} (m : outcome A) (k : A -> outcome B) :
  reports_line_num m -> (forall a, reports_line_num (k a)) ->
  reports_line_num (bind m k).
Proof.
  intros Hm Hk n msg. destruct m as [a | l s | | |]; simpl; try discriminate.
  - apply (Hk a).
  - intros H. injection H as <- _. exact (Hm l s eq_refl).
Qed.

Lemma asm_assert_reports c msg : reports_line_num (asm_assert c msg).
Proof.
  intros n m. destruct c; simpl; [discriminate |].
  intros H. injection H as <- _. reflexivity.
Qed.

Lemma silent_reports {A : Type} (m : outcome A) :
  (forall n msg, m <> Exit1 n msg) -> reports_line_num m.
Proof. intros H n msg E. destruct (H n msg E). Qed.

Ltac reports :=
  repeat match goal with
         | |- reports_line_num (asm_assert _ _) => apply asm_assert_reports
         | |- reports_line_num (push _ _ _) =>
             apply silent_reports; intros; unfold push;
             match goal with |- (if ?c then _ else _) <> _ => destruct c end;
             discriminate
         | |- reports_line_num (Ok _) => apply silent_reports; discriminate
         | |- reports_line_num Abort => apply silent_reports; discriminate
         | |- reports_line_num Undefined => apply silent_reports; discriminate
         | |- reports_line_num Fuel => apply silent_reports; discriminate
         | |- reports_line_num (bind _ _) => apply bind_reports
         | |- reports_line_num (if ?c then _ else _) => destruct c
         | |- reports_line_num (let '(_, _) := ?p in _) => destruct p
         | |- forall _ : _, reports_line_num _ => intro
         end.

Lemma parse_num_reports tok bits success :
  reports_line_num (parse_num tok bits success).
Proof. unfold parse_num, parse_num_from_base. reports. Qed.

Lemma parse_reg_reports reg_str : reports_line_num (parse_reg reg_str).
Proof. unfold parse_reg. reports. Qed.

Lemma parse_constant_labels_reports const_str a labels_ bits :
  forall result found,
  reports_line_num (parse_constant_labels const_str a labels_ bits result found).
Proof.
  induction labels_ as [|l rest IH]; intros result found;
    cbn [parse_constant_labels]; reports; apply IH.
Qed.

Lemma parse_constant_reports const_str a labels_ bits :
  reports_line_num (parse_constant const_str a labels_ bits).
Proof.
  unfold parse_constant. reports;
    first [apply parse_num_reports | apply parse_constant_labels_reports].
Qed.

Lemma parse_instruction_reports op_str args_ labels_ a :
  reports_line_num (parse_instruction op_str args_ labels_ a).
Proof.
  unfold parse_instruction. reports.
  destruct (nth_error OP (Z.to_nat (lookup_op op_str))) as [o |]; reports.
  destruct (format o); reports;
    first [apply parse_reg_reports | apply parse_num_reports
          | apply parse_constant_reports].
Qed.

Lemma phase2_reports instrs labels_ : forall rom,
  reports_line_num (phase2 instrs labels_ rom).
Proof.
  induction instrs as [|i rest IH]; intros rom; cbn [phase2]; reports;
    try apply parse_instruction_reports; try apply IH;
    unfold rom_store; reports.
Qed.

Lemma check_duplicate_reports labels_ word :
  reports_line_num (check_duplicate labels_ word).
Proof.
  induction labels_ as [|l rest IH]; cbn [check_duplicate]; reports. exact IH.
Qed.

Lemma collect_args_reports fuel : forall word pos args_,
  reports_line_num (collect_args fuel word pos args_).
Proof.
  induction fuel as [|fuel IH]; intros word pos args_; cbn [collect_args];
    reports. apply IH.
Qed.

Lemma phase1_step_reports s : reports_line_num (phase1_step s).
Proof.
  unfold phase1_step. reports;
    first [apply parse_num_reports | apply check_duplicate_reports
          | apply collect_args_reports].
Qed.

Lemma phase1_loop_reports fuel : forall s, reports_line_num (phase1_loop fuel s).
Proof.
  induction fuel as [|fuel IH]; intros s; cbn [phase1_loop]; reports;
    first [apply phase1_step_reports | apply IH].
Qed.

(** Whatever line the error is on, the number printed is the initial
    value of [line_num]. *)
Lemma main_reports src : reports_line_num (main src).
Proof.
  unfold main, phase1. reports;
    first [apply phase1_loop_reports | apply phase2_reports].
Qed.

(** * The properties of the specification *)

(** ** Comments *)

(** C1 (the text from a [;] to the end of the line produces no tokens, the
    newline behind it still does): the driver does not do this.  The
    one-line program [;RETURN] is assembled as the instruction [RETURN]:
    phase 1 records it at address 0, is not in its comment state, and the
    first word of the image is 8E00 instead of 0000. *)
Theorem comment_text_is_assembled :
  phase1 (line ";RETURN") =
    Ok (mkState [] false 2 [mkInstr 0 (cstr "RETURN") []] []) /\
  main (line ";RETURN") = Ok (line "8E00" ++ blank_lines 511).
Proof. split; vm_compute; reflexivity. Qed.

(** ** Operands of the B1 format *)

(** C2 (a B1 operand that is not a numeric literal is never fatal by
    itself but looked up in the symbol table): the code does not do this
    for a name whose second character is [X] or [B].  With the label
    [EXIT] in the table, the operand [EXIT] ends the run inside
    [parse_num] with "malformed constant". *)
Theorem label_operand_fatal_in_parse_num :
  parse_constant (cstr "EXIT") 2 [mkLabel (cstr "EXIT") 0] 9 =
    Exit1 0 "malformed constant" /\
  main (line "EXIT:" ++ line "BRR EXIT") = Exit1 0 "malformed constant".
Proof. split; vm_compute; reflexivity. Qed.

(** C3 (the low 9 bits of a branch are the signed displacement and a
    displacement that does not fit 9 bits ends the run): the code lets the
    displacements from -512 to -257 through and cuts them to 9 bits.  A
    branch at address 600 to a label at address 0 has the displacement
    -300; the word is 80D4, whose low 9 bits are 212. *)
Theorem backward_displacement_truncated :
  Z.quot (0 - 600) 2 = -300 /\
  parse_instruction (cstr "BRR") [cstr "L"] [mkLabel (cstr "L") 0] 600 = Ok 0x80D4 /\
  Z.land 0x80D4 511 = 212 /\
  bind (main (line "L:" ++ line "ORG 600" ++ line "BRR L"))
       (fun out => Ok (output_line 300 out)) = Ok (line "80D4").
Proof. repeat split; vm_compute; reflexivity. Qed.

(** ** The range check of [parse_num] *)




(** C7, as amended (round trip of a literal through [parse_num]): a
    literal of value [v] with [-2^(w-1) <= v < 2^w] is accepted with the
    result [r] of [w] bits; when [v < 2^(w-1)], sign-extending [r] gives
    [v] back; when [2^(w-1) <= v], the result is [v] itself and its sign
    extension is [v - 2^w]. *)
Theorem parse_num_round_trip tok v w success :
  0 < w < 32 -> spec_literal_value tok = Some v -> - 2 ^ (w - 1) <= v < 2 ^ w ->
  exists r, parse_num tok w success = Ok (r, true) /\ 0 <= r < 2 ^ w /\
    (v < 2 ^ (w - 1) -> sign_extend w r = v) /\
    (2 ^ (w - 1) <= v -> r = v /\ sign_extend w r = v - 2 ^ w).
Proof.
  intros Hw Hlit Hv.
  assert (Hhalf : 2 ^ w = 2 * 2 ^ (w - 1)).
  { rewrite <- Z.pow_succ_r by lia. f_equal. lia. }
  assert (Hpos : 0 < 2 ^ (w - 1)) by (apply Z.pow_pos_nonneg; lia).
  assert (Hle : 2 ^ w <= 2 ^ 31) by (apply Z.pow_le_mono_r; lia).
  rewrite (parse_num_literal tok v w success Hlit) by lia.
  destruct (Z.leb_spec (- 2 ^ w) v); [| lia].
  destruct (Z.ltb_spec v (2 ^ w)); [| lia]. cbn [andb].
  exists (v mod 2 ^ w). split; [reflexivity |].
  split; [apply Z.mod_pos_bound; lia |].
  unfold sign_extend.
  destruct (Z_lt_ge_dec v 0) as [Hneg | Hnn].
  - assert (Hm : v mod 2 ^ w = v + 2 ^ w).
    { symmetry. apply Z.mod_unique with (q := -1); lia. }
    rewrite Hm. destruct (Z.ltb_spec (v + 2 ^ w) (2 ^ (w - 1))); split; lia.
  - rewrite Z.mod_small by lia.
    destruct (Z.ltb_spec v (2 ^ (w - 1))); split; lia.
Qed.

Lemma parse_num_round_trip_witness :
  (exists r, parse_num (cstr "-3") 6 false = Ok (r, true) /\
             sign_extend 6 r = -3) /\
  (exists r, parse_num (cstr "0XFF") 8 false = Ok (r, true) /\
             r = 255 /\ sign_extend 8 r = 255 - 2 ^ 8).
Proof.
  split.
  - destruct (parse_num_round_trip (cstr "-3") (-3) 6 false)
      as (r & Hr & _ & Hsigned & _).
    + lia.
    + reflexivity.
    + lia.
    + exists r. split; [exact Hr | apply Hsigned; lia].
  - destruct (parse_num_round_trip (cstr "0XFF") 255 8 false)
      as (r & Hr & _ & _ & Hunsigned).
    + lia.
    + reflexivity.
    + lia.
    + exists r. split; [exact Hr | apply Hunsigned; lia].
Defined.

(** C7 as stated fails: [0XFF] is accepted at the width 8, and the sign
    extension of its result 255 is -1. *)
Lemma unsigned_literal_no_round_trip :
  ~ (forall tok v w r, In w isa_widths -> spec_literal_value tok = Some v ->
       parse_num tok w false = Ok (r, true) -> sign_extend w r = v).
Proof.
  intros H. specialize (H (cstr "0XFF") 255 8 255).
  assert (Hw : In 8 isa_widths) by (cbn; tauto).
  specialize (H Hw eq_refl eq_refl). vm_compute in H. discriminate H.
Qed.

(** ** Registers *)

(** C5 (a register operand is [R] and one decimal digit, every other form
    is fatal): the code does not test the second character.  [RA] is
    taken as register 17, and [TEST RA] is assembled to the word 0E40. *)
Theorem register_digit_unchecked :
  parse_reg (cstr "RA") = Ok 17 /\
  main (line "TEST RA") = Ok (line "0E40" ++ blank_lines 511).
Proof. split; vm_compute; reflexivity. Qed.

(** ** Addresses *)

(** What holds of the addresses when a run returns: every store of
    phase 2 was inside [rom_data], so every instruction address satisfies
    [addr + 1 < ROM_SIZE]; when all [ORG] operands are even, the address of
    every label and of every instruction is even; and without [ORG] every
    label address is at most [ROM_SIZE]. *)
Lemma program_addresses src out :
  main src = Ok out ->
  exists s, phase1 src = Ok s /\
    Forall (fun i => 0 <= instr_addr i /\ instr_addr i + 1 < ROM_SIZE)
           (instructions s) /\
    (org_even (to_upper src) ->
     Forall (fun i => Z.even (instr_addr i) = true) (instructions s) /\
     Forall (fun l => Z.even (addr l) = true) (labels s)) /\
    (org_free (to_upper src) ->
     Forall (fun l => 0 <= addr l <= ROM_SIZE) (labels s)).
Proof.
  intros Hmain.
  destruct (main_ok src out Hmain) as (s & rom & Hp1 & Hp2 & _).
  exists s. split; [exact Hp1 |].
  assert (Hlen0 : length (repeat 0 (Z.to_nat ROM_SIZE)) = Z.to_nat ROM_SIZE)
    by apply repeat_length.
  destruct (phase2_image _ _ _ _ Hlen0 blank_image_bytes Hp2) as (_ & _ & Hin & _).
  split; [exact Hin |]. split.
  - intros Heven.
    destruct (phase1_even_addresses src s Heven Hp1) as (_ & _ & Hi & Hl).
    split; assumption.
  - intros Hfree.
    destruct (phase1_plain_addresses src s Hfree Hp1) as (_ & _ & _ & _ & Hbl).
    exact Hbl.
Qed.

(** C6 (every address the cursor assigns is even and satisfies
    [addr + 1 < ROM_SIZE], also behind an [ORG]): the code does not keep
    this, the operand of [ORG] going into the cursor unchecked.  The
    program [ORG 1023], [RETURN] passes phase 1 without an error, with the
    instruction at the odd address 1023; phase 2 encodes it to 8E00 and
    stores its low byte at the index 1024, outside [rom_data], so the run
    has no defined result.  [ORG 1] is accepted to the end: the label and
    the instruction behind it get the address 1, and the word lies across
    two lines of the output.  And behind [ORG 2000] a label records the
    address 2000. *)
Theorem org_operand_unchecked :
  phase1 (line "ORG 1023" ++ line "RETURN") =
    Ok (mkState [] false 1025 [mkInstr 1023 (cstr "RETURN") []] []) /\
  Z.even 1023 = false /\ 1023 + 1 = ROM_SIZE /\
  parse_instruction (cstr "RETURN") [] [] 1023 = Ok 0x8E00 /\
  (rom <- rom_store (repeat 0 (Z.to_nat ROM_SIZE)) 1023
            (Z.land (Z.shiftr 0x8E00 8) 0xFF) ;;
   rom_store rom (u32 (1023 + 1)) (Z.land 0x8E00 0xFF)) = Undefined /\
  main (line "ORG 1023" ++ line "RETURN") = Undefined /\
  phase1 (line "ORG 1" ++ line "L:" ++ line "RETURN") =
    Ok (mkState [] false 3 [mkInstr 1 (cstr "RETURN") []] [mkLabel (cstr "L") 1]) /\
  main (line "ORG 1" ++ line "L:" ++ line "RETURN") =
    Ok (line "008E" ++ line "0000" ++ blank_lines 510) /\
  phase1 (line "ORG 2000" ++ line "L:") =
    Ok (mkState [] false 2000 [] [mkLabel (cstr "L") 2000]) /\
  main (line "ORG 2000" ++ line "L:") = Ok (blank_lines 512).
Proof. repeat split; vm_compute; reflexivity. Qed.

(** ** The output file *)

(** C8 (the format of the output): the output of a successful run is 512
    lines, each four upper-case hexadecimal digits and a newline; the line
    of a slot no instruction stores into is 0000; and the line of an
    instruction at an even address that no later instruction overwrites
    shows its 16-bit word, high byte first. *)
Theorem rom_output_format src out :
  main src = Ok out ->
  exists s lines,
    phase1 src = Ok s /\ out = concat lines /\ length lines = 512%nat /\
    Forall hex_line lines /\
    (forall k, 0 <= k < 512 ->
       (forall i, In i (instructions s) -> ~ writes_slot i k) ->
       nth (Z.to_nat k) lines [] = line "0000") /\
    (forall pre i post,
       instructions s = pre ++ i :: post -> Forall (apart i) post ->
       Z.even (instr_addr i) = true ->
       exists w,
         parse_instruction (op i) (args i) (labels s) (instr_addr i) = Ok w /\
         nth (Z.to_nat (instr_addr i / 2)) lines [] =
           hex02 (w / 256) ++ hex02 (w mod 256) ++ [NL]).
Proof.
  intros Hmain.
  destruct (main_ok src out Hmain) as (s & rom & Hp1 & Hp2 & ->).
  assert (Hlen0 : length (repeat 0 (Z.to_nat ROM_SIZE)) = Z.to_nat ROM_SIZE)
    by apply repeat_length.
  destruct (phase2_image _ _ _ _ Hlen0 blank_image_bytes Hp2)
    as (Hlen & Hbytes & Hin & Hkeep).
  exists s, (rom_lines rom).
  split; [exact Hp1 |]. split; [reflexivity |].
  split; [apply rom_lines_length |].
  split; [apply rom_lines_hex, Hbytes |].
  split.
  - intros k Hk Hfree.
    rewrite rom_lines_nth by lia. unfold rom_line.
    replace (2 * Z.to_nat k)%nat with (Z.to_nat (2 * k)) by lia.
    replace (Z.to_nat (2 * k) + 1)%nat with (Z.to_nat (2 * k + 1)) by lia.
    rewrite !Hkeep, !nth_repeat; try lia; try reflexivity;
      intros i Hi; specialize (Hfree i Hi); unfold writes_slot in Hfree; lia.
  - intros pre i post Hsplit Hapart Heven.
    rewrite Hsplit in Hp2, Hin.
    destruct (phase2_word _ _ _ _ _ _ Hlen0 blank_image_bytes Hp2 Hapart)
      as (w & Hw & Hhi & Hlo).
    exists w. split; [exact Hw |].
    apply Forall_app in Hin. destruct Hin as [_ Hin].
    inversion Hin as [| ? ? [Hlo0 Hhi0] _]; subst.
    apply Z.even_spec in Heven. destruct Heven as [h Hh].
    unfold ROM_SIZE in *.
    assert (Hdiv : instr_addr i / 2 = h).
    { rewrite Hh, Z.mul_comm. apply Z.div_mul. lia. }
    rewrite rom_lines_nth by lia. unfold rom_line.
    replace (2 * Z.to_nat (instr_addr i / 2))%nat with (Z.to_nat (instr_addr i)) by lia.
    replace (Z.to_nat (instr_addr i) + 1)%nat with (Z.to_nat (instr_addr i + 1)) by lia.
    rewrite Hhi, Hlo. reflexivity.
Qed.

Lemma rom_output_format_witness :
  exists lines,
    line "0253" ++ blank_lines 511 = concat lines /\ length lines = 512%nat /\
    Forall hex_line lines /\
    nth 1 lines [] = line "0000" /\ nth 0 lines [] = line "0253".
Proof.
  destruct (rom_output_format (line "ADD R1 R2 R3") (line "0253" ++ blank_lines 511))
    as (s & lines & Hs & Hout & Hlen & Hhex & Hfree & Hword).
  - vm_compute. reflexivity.
  - assert (Hp : phase1 (line "ADD R1 R2 R3") =
                 Ok (mkState [] false 2
                       [mkInstr 0 (cstr "ADD") [cstr "R1"; cstr "R2"; cstr "R3"]] []))
      by (vm_compute; reflexivity).
    rewrite Hp in Hs. injection Hs as <-.
    exists lines. repeat split; try assumption.
    + apply (Hfree 1); [lia |].
      intros i [<- | []]. unfold writes_slot. cbn [instr_addr]. lia.
    + destruct (Hword [] (mkInstr 0 (cstr "ADD") [cstr "R1"; cstr "R2"; cstr "R3"]) [])
        as (w & Hw & Hline).
      * reflexivity.
      * constructor.
      * reflexivity.
      * vm_compute in Hw. injection Hw as <-. exact Hline.
Defined.

(** ** Errors *)

(** C9 (an error is reported with the 1-based number of its source line):
    the code never counts lines.  The error of line 2 of this program is
    reported as "Line 0: too many args"; the exit status is 1. *)
Theorem error_line_is_zero :
  main (line "NOP" ++ line "ADD R1 R2") = Exit1 0 "too many args".
Proof. vm_compute. reflexivity. Qed.

(** ** The operand container *)

Lemma collect_args_full fuel word pos args_ :
  size args_ = 3 -> is_comment word = false -> eq_cstr word [NL] = false ->
  collect_args (S fuel) word pos args_ = Abort.
Proof.
  intros Hsz Hc Hn. cbn [collect_args]. rewrite Hc, Hn. cbn [negb andb].
  unfold push. rewrite Hsz. reflexivity.
Qed.

(** C10 (at most three operand words; a fourth one aborts): every
    instruction phase 1 records holds at most 3 operand words, and a
    mnemonic followed by four words before the newline makes the [push]
    assertion fail, so that the run is aborted and no "too many args"
    error is reported. *)
Theorem operand_capacity src s i :
  phase1 src = Ok s -> In i (instructions s) ->
  size (args i) <= 3 /\
  phase1 (line "ADD R1 R2 R3 R4") = Abort /\
  main (line "ADD R1 R2 R3 R4") = Abort.
Proof.
  intros Hp Hin. split; [| split; vm_compute; reflexivity].
  pose proof (phase1_args_bound src s Hp) as Hall.
  rewrite Forall_forall in Hall. apply Hall, Hin.
Qed.

Lemma operand_capacity_witness :
  size (args (mkInstr 0 (cstr "ADD") [cstr "R1"; cstr "R2"; cstr "R3"])) <= 3 /\
  phase1 (line "ADD R1 R2 R3 R4") = Abort /\
  main (line "ADD R1 R2 R3 R4") = Abort.
Proof.
  apply (operand_capacity (line "ADD R1 R2 R3")
           (mkState [] false 2
              [mkInstr 0 (cstr "ADD") [cstr "R1"; cstr "R2"; cstr "R3"]] [])).
  - vm_compute. reflexivity.
  - left. reflexivity.
Defined.

(** * Further properties of the code *)

(** ** The fixed-capacity array *)

(** X1: [push] then [pop]: the element comes back and the array is as before;
    [push] on a full array and [pop] on an empty one fail their
    assertions. *)
Theorem push_pop_round_trip {T : Type} (max_size : Z) (a : Array T) (x : T) :
  size a < max_size ->
  (exists a', push max_size a x = Ok a' /\ size a' = size a + 1 /\
              pop a' = Ok (x, a)) /\
  (forall b : Array T, max_size <= size b -> push max_size b x = Abort) /\
  pop (@nil T) = Abort.
Proof.
  intros Hlt. split; [| split].
  - exists (a ++ [x]). unfold push.
    destruct (Z.ltb_spec (size a) max_size); [| lia].
    split; [reflexivity |]. split; [apply size_app |].
    unfold pop. rewrite size_app.
    destruct (Z.eqb_spec (size a + 1) 0) as [E | _]; [unfold size in E; lia |].
    rewrite length_app. cbn [length].
    replace (length a + 1 - 1)%nat with (length a) by lia.
    rewrite nth_error_app2 by lia. rewrite Nat.sub_diag. cbn [nth_error].
    rewrite firstn_app, Nat.sub_diag, firstn_all. cbn [firstn].
    rewrite app_nil_r. reflexivity.
  - intros b Hb. unfold push. destruct (Z.ltb_spec (size b) max_size); [lia | reflexivity].
  - reflexivity.
Qed.

Lemma push_pop_round_trip_witness :
  (exists a', push 3 [cstr "R1"] (cstr "R2") = Ok a' /\ size a' = size [cstr "R1"] + 1 /\
              pop a' = Ok (cstr "R2", [cstr "R1"])) /\
  (forall b : Array SubString, 3 <= size b -> push 3 b (cstr "R2") = Abort) /\
  pop (@nil SubString) = Abort.
Proof.
  apply (push_pop_round_trip 3 [cstr "R1"] (cstr "R2")). cbn. lia.
Defined.

(** ** Comparing sub-strings *)

Lemma eq_cstr_equal w : forall lit,
  Forall not_nul w -> Forall not_nul lit -> (eq_cstr w lit = true <-> w = lit).
Proof.
  unfold not_nul.
  induction w as [|c w IH]; intros lit Hw Hlit.
  - destruct lit as [|d lit]; cbn; [tauto |].
    inversion Hlit as [| ? ? Hd _]; subst. rewrite Hd. split; discriminate.
  - inversion Hw as [| ? ? Hc Hw']; subst. cbn [eq_cstr].
    destruct lit as [|d lit].
    + cbn [at_ nth]. unfold is_nul in Hc. rewrite Hc. cbn. split; discriminate.
    + inversion Hlit as [| ? ? Hd Hlit']; subst. cbn [at_ nth tl].
      destruct (Ascii.eqb_spec c d) as [-> | Hne]; cbn [negb].
      * rewrite (IH lit Hw' Hlit'). split; [intros -> | intros H; injection H]; auto.
      * split; [discriminate | intros H; injection H; contradiction].
Qed.

(** X2: The comparison of a sub-string with a C string ([word == "ORG"]) is
    true exactly when the two hold the same characters, its length check
    [!rhs[i]] included: a proper prefix of the C string, or a longer
    word, is unequal. *)
Theorem eq_cstr_is_equality w lit :
  Forall not_nul w -> Forall not_nul lit -> (eq_cstr w lit = true <-> w = lit).
Proof. apply eq_cstr_equal. Qed.

Lemma eq_cstr_is_equality_witness :
  (eq_cstr (cstr "BRR") (cstr "BRR.Z") = true <-> cstr "BRR" = cstr "BRR.Z").
Proof.
  apply (eq_cstr_is_equality (cstr "BRR") (cstr "BRR.Z"));
    repeat constructor.
Defined.

(** ** Upper-casing *)

Lemma toupper_char c :
  toupper (toupper c) = toupper c /\ is_nul (toupper c) = is_nul c /\
  in_range "a" "z" (toupper c) = false /\
  (in_range "a" "z" c = false -> toupper c = c).
Proof.
  destruct c as [[|] [|] [|] [|] [|] [|] [|] [|]]; vm_compute;
    repeat split; intros; congruence.
Qed.

Lemma to_upper_idempotent buf : to_upper (to_upper buf) = to_upper buf.
Proof.
  induction buf as [|c rest IH]; [reflexivity |].
  cbn [to_upper]. destruct (is_nul c) eqn:Hn.
  - cbn [to_upper]. rewrite Hn. reflexivity.
  - cbn [to_upper]. destruct (toupper_char c) as (Hi & Hz & _).
    rewrite Hz, Hn, Hi, IH. reflexivity.
Qed.

(** X3: [to_upper] keeps the length of the buffer, leaves no lower-case letter
    in its text, changes nothing but lower-case letters, and is
    idempotent. *)
Theorem to_upper_canonical buf :
  length (to_upper buf) = length buf /\
  Forall (fun c => in_range "a" "z" c = false) (until_nul (to_upper buf)) /\
  (Forall (fun c => in_range "a" "z" c = false) buf -> to_upper buf = buf) /\
  to_upper (to_upper buf) = to_upper buf.
Proof.
  split; [| split; [| split]].
  - induction buf as [|c rest IH]; [reflexivity |].
    cbn [to_upper]. destruct (is_nul c); cbn [length]; congruence.
  - induction buf as [|c rest IH]; [constructor |].
    cbn [to_upper]. destruct (is_nul c) eqn:Hn.
    + cbn [until_nul]. rewrite Hn. constructor.
    + cbn [until_nul]. destruct (toupper_char c) as (_ & Hz & Hl & _).
      rewrite Hz, Hn. constructor; assumption.
  - induction 1 as [|c rest Hc _ IH]; [reflexivity |].
    cbn [to_upper]. destruct (is_nul c); [reflexivity |].
    destruct (toupper_char c) as (_ & _ & _ & Hsame).
    rewrite (Hsame Hc), IH. reflexivity.
  - apply to_upper_idempotent.
Qed.

(** X4: The assembler does not see the case of letters: a source and its
    upper-cased text give the same result, be it an image or an error. *)
Theorem main_case_insensitive src : main (to_upper src) = main src.
Proof.
  unfold main, phase1. rewrite to_upper_idempotent. reflexivity.
Qed.

(** ** The lexer *)

Lemma nul_no_word_char c : is_nul c = true -> word_char c = false.
Proof.
  unfold is_nul. intros H. apply Ascii.eqb_eq in H. subst c. reflexivity.
Qed.

Lemma skip_blank_split buf :
  exists blanks, buf = blanks ++ skip_blank buf /\ Forall blank blanks.
Proof.
  induction buf as [|c rest (blanks & Hsplit & Hblank)].
  - exists []. split; [reflexivity | constructor].
  - cbn [skip_blank]. destruct (is_nul c) eqn:Hn.
    + exists []. split; [reflexivity | constructor].
    + destruct (word_char c || Ascii.eqb c NL) eqn:Hs.
      * exists []. split; [reflexivity | constructor].
      * apply orb_false_iff in Hs. destruct Hs as [Hw Hnl].
        exists (c :: blanks). split; [cbn [app]; congruence |].
        constructor; [repeat split; assumption | exact Hblank].
Qed.

Lemma skip_word_chars_split buf :
  exists w, buf = w ++ skip_word_chars buf /\
            Forall (fun c => word_char c = true) w /\
            word_char (at_ (skip_word_chars buf) 0) = false.
Proof.
  induction buf as [|c rest (w & Hsplit & Hw & Hstop)].
  - exists []. repeat split; constructor.
  - cbn [skip_word_chars]. destruct (is_nul c) eqn:Hn.
    + exists []. split; [reflexivity |]. split; [constructor |].
      cbn [at_ nth]. apply nul_no_word_char, Hn.
    + destruct (word_char c) eqn:Hc; cbn [negb].
      * exists (c :: w). split; [cbn [app]; congruence |].
        split; [constructor; assumption | exact Hstop].
      * exists []. split; [reflexivity |]. split; [constructor | exact Hc].
Qed.

Lemma firstn_prefix {A : Type} (w rest : list A) :
  firstn (length (w ++ rest) - length rest) (w ++ rest) = w.
Proof.
  rewrite length_app. replace (length w + length rest - length rest)%nat
    with (length w) by lia.
  rewrite firstn_app, Nat.sub_diag, firstn_all. cbn [firstn]. apply app_nil_r.
Qed.

Lemma skip_word_split start :
  start = [] \/ is_nul (at_ start 0) = true \/
  word_char (at_ start 0) || Ascii.eqb (at_ start 0) NL = true ->
  exists w, start = w ++ skip_word start /\ lexed w (skip_word start).
Proof.
  intros Hhead. unfold skip_word.
  destruct (Ascii.eqb_spec (at_ start 0) NL) as [Hnl | Hnl].
  - destruct start as [|c rest]; [discriminate Hnl |]. cbn [at_ nth] in Hnl.
    subst c. exists [NL]. split; [reflexivity | constructor].
  - destruct (skip_word_chars_split start) as (w & Hsplit & Hw & Hstop).
    exists w. split; [exact Hsplit |].
    destruct w as [|c w].
    + constructor. cbn [app] in Hsplit. rewrite <- Hsplit.
      destruct Hhead as [-> | [Hn | Hs]]; [reflexivity | exact Hn |].
      rewrite <- Hsplit in Hstop. rewrite Hstop in Hs. cbn [orb] in Hs.
      first [discriminate Hs | apply Ascii.eqb_eq in Hs; contradiction].
    + constructor; assumption.
Qed.

Lemma get_word_lexed buf w rest :
  get_word buf = (w, rest) ->
  exists blanks, buf = blanks ++ w ++ rest /\ Forall blank blanks /\ lexed w rest.
Proof.
  unfold get_word. intros H.
  destruct (skip_blank_split buf) as (blanks & Hsplit & Hblank).
  destruct (skip_word_split (skip_blank buf) (skip_blank_head buf))
    as (w' & Hw & Hlex).
  rewrite Hw in H at 1 3. rewrite firstn_prefix in H.
  injection H as <- <-.
  exists blanks. split; [| split]; try assumption. congruence.
Qed.

(** X5: What [get_word] returns: the buffer is a run of blanks (characters that
    are no word character, newline or NUL), then the word, then the
    returned cursor; and the word is empty with the cursor at the end of
    the text, or one newline, or a non-empty run of word characters that
    ends where the next character is none. *)
Theorem get_word_shape buf w rest :
  get_word buf = (w, rest) ->
  exists blanks, buf = blanks ++ w ++ rest /\ Forall blank blanks /\ lexed w rest.
Proof. apply get_word_lexed. Qed.

Lemma get_word_shape_witness :
  exists blanks,
    cstr "  , R12 ; x" = blanks ++ cstr "R12" ++ cstr " ; x" /\
    Forall blank blanks /\ lexed (cstr "R12") (cstr " ; x").
Proof.
  apply (get_word_shape (cstr "  , R12 ; x") (cstr "R12") (cstr " ; x")).
  reflexivity.
Defined.

(** X6: While the cursor is not at the end of the text, [get_word] moves it
    strictly forward; this is what ends the loop of phase 1. *)
Theorem get_word_moves_forward buf :
  is_nul (at_ buf 0) = false ->
  (length (snd (get_word buf)) < length buf)%nat.
Proof. apply get_word_progress. Qed.

Lemma get_word_moves_forward_witness :
  (length (snd (get_word (cstr ";;;"))) < length (cstr ";;;"))%nat.
Proof. apply (get_word_moves_forward (cstr ";;;")). reflexivity. Defined.

(** ** The opcode table *)

Lemma lookup_op_from_found word ops : forall j i,
  lookup_op_from j ops word = i -> i <> INVALID_OP ->
  exists k op, nth_error ops k = Some op /\ eq_cstr word (mnemonic op) = true /\
               i = j + Z.of_nat k.
Proof.
  induction ops as [|o ops IH]; intros j i H Hi; cbn [lookup_op_from] in H.
  - congruence.
  - destruct (eq_cstr word (mnemonic o)) eqn:He.
    + exists 0%nat, o. repeat split; [exact He | lia].
    + destruct (IH _ _ H Hi) as (k & op & Hk & Hop & ->).
      exists (S k), op. repeat split; [exact Hk | exact Hop | lia].
Qed.

Lemma lookup_op_from_missing word ops : forall j,
  lookup_op_from j ops word = INVALID_OP ->
  0 <= j -> j + Z.of_nat (length ops) < INVALID_OP ->
  Forall (fun op => eq_cstr word (mnemonic op) = false) ops.
Proof.
  induction ops as [|o ops IH]; intros j H Hj Hlen; [constructor |].
  cbn [lookup_op_from] in H. cbn [length] in Hlen.
  destruct (eq_cstr word (mnemonic o)) eqn:He.
  - unfold INVALID_OP in *. lia.
  - constructor; [exact He |]. apply (IH (j + 1)); [exact H | lia | lia].
Qed.

Lemma mnemonics_not_nul : Forall (fun op => Forall not_nul (mnemonic op)) OP.
Proof. repeat constructor. Qed.

Lemma word_char_not_nul c : word_char c = true -> not_nul c.
Proof.
  unfold not_nul. intros H. destruct (is_nul c) eqn:Hn; [| reflexivity].
  rewrite (nul_no_word_char c Hn) in H. discriminate.
Qed.

(** X7: [lookup_op] finds a word exactly when it is a mnemonic of the table,
    and then returns the index of the entry of that mnemonic; every
    mnemonic of the table is found at its own index (no entry hides
    another). *)
Theorem lookup_op_table word :
  Forall not_nul word ->
  ((lookup_op word = INVALID_OP /\ forall op, In op OP -> mnemonic op <> word) \/
   (0 <= lookup_op word < NUM_OPCODES /\
    exists op, nth_error OP (Z.to_nat (lookup_op word)) = Some op /\
               mnemonic op = word)) /\
  (forall k op, nth_error OP k = Some op -> lookup_op (mnemonic op) = Z.of_nat k).
Proof.
  intros Hw. split.
  - destruct (Z.eq_dec (lookup_op word) INVALID_OP) as [Hi | Hi].
    + left. split; [exact Hi |]. intros op Hin Heq.
      pose proof (lookup_op_from_missing word OP 0 Hi ltac:(lia)
                    ltac:(vm_compute; reflexivity)) as Hmiss.
      rewrite Forall_forall in Hmiss. specialize (Hmiss op Hin).
      pose proof mnemonics_not_nul as Hnn. rewrite Forall_forall in Hnn.
      pose proof (proj2 (eq_cstr_equal word (mnemonic op) Hw (Hnn op Hin))
                        (eq_sym Heq)).
      congruence.
    + right. destruct (lookup_op_from_found word OP 0 _ eq_refl Hi)
        as (k & op & Hk & He & Hidx).
      fold (lookup_op word) in Hidx. rewrite Hidx.
      assert (Hlt : (k < length OP)%nat)
        by (apply nth_error_Some; congruence).
      split; [unfold NUM_OPCODES; lia |].
      exists op. replace (Z.to_nat (0 + Z.of_nat k)) with k by lia.
      split; [exact Hk |].
      pose proof mnemonics_not_nul as Hnn. rewrite Forall_forall in Hnn.
      symmetry. apply (eq_cstr_equal word (mnemonic op) Hw).
      * apply Hnn. eapply nth_error_In, Hk.
      * exact He.
  - intros k op Hk.
    do 26 (destruct k as [|k]; [injection Hk as <-; reflexivity |]).
    destruct k; discriminate Hk.
Qed.

Lemma lookup_op_table_witness :
  ((lookup_op (cstr "BR.SUB") = INVALID_OP /\
    forall op, In op OP -> mnemonic op <> cstr "BR.SUB") \/
   (0 <= lookup_op (cstr "BR.SUB") < NUM_OPCODES /\
    exists op, nth_error OP (Z.to_nat (lookup_op (cstr "BR.SUB"))) = Some op /\
               mnemonic op = cstr "BR.SUB")) /\
  (forall k op, nth_error OP k = Some op -> lookup_op (mnemonic op) = Z.of_nat k).
Proof. apply (lookup_op_table (cstr "BR.SUB")). repeat constructor. Defined.

(** ** What phase 1 records *)

Lemma collect_args_end fuel : forall pos args_ r,
  is_nul (at_ pos 0) = true -> collect_args fuel [] pos args_ <> Ok r.
Proof.
  induction fuel as [|fuel IH]; intros pos args_ r Hn; cbn [collect_args].
  - discriminate.
  - change (negb (is_comment []) && negb (eq_cstr [] [NL])) with true. cbv iota.
    unfold push. destruct (size args_ <? 3); cbn [bind]; [| discriminate].
    rewrite (get_word_at_nul _ Hn). apply IH, Hn.
Qed.

Lemma collect_args_words fuel : forall word pos args_ args' pos',
  lexed word pos -> Forall operand_word args_ ->
  collect_args fuel word pos args_ = Ok (args', pos') ->
  Forall operand_word args'.
Proof.
  induction fuel as [|fuel IH]; intros word pos args_ args' pos' Hlex Hargs H;
    cbn [collect_args] in H;
    destruct (negb (is_comment word) && negb (eq_cstr word [NL])) eqn:Hc;
    try discriminate; try (injection H as <- _; exact Hargs).
  bind_inv H. apply push_ok in Ha. destruct Ha as [-> _].
  destruct Hlex as [rest Hn | rest | c w rest Hrun Hstop].
  - exfalso. destruct (get_word rest) as [w1 p1] eqn:Hgw.
    rewrite (get_word_at_nul _ Hn) in Hgw. injection Hgw as <- <-.
    exact (collect_args_end _ _ _ _ Hn H).
  - discriminate Hc.
  - destruct (get_word rest) as [w1 p1] eqn:Hgw.
    destruct (get_word_lexed _ _ _ Hgw) as (_ & _ & _ & Hlex1).
    apply (IH _ _ _ _ _ Hlex1) in H; [exact H |].
    apply Forall_app. split; [exact Hargs |].
    constructor; [| constructor]. split; [discriminate | exact Hrun].
Qed.

Lemma phase1_instructions_wf src s :
  phase1 src = Ok s ->
  Forall (fun i => lookup_op (op i) <> INVALID_OP /\ Forall operand_word (args i))
         (instructions s).
Proof.
  apply (phase1_inv (fun s =>
    Forall (fun i => lookup_op (op i) <> INVALID_OP /\ Forall operand_word (args i))
           (instructions s))); [constructor |].
  intros s1 s2 Hinv _. unfold phase1_step.
  destruct (get_word (file_pos s1)) as [word pos] eqn:Hgw.
  destruct (in_comment s1 && eq_cstr word [NL]).
  { intros H. injection H as <-. exact Hinv. }
  destruct (is_comment word).
  { intros H. injection H as <-. exact Hinv. }
  destruct (eq_cstr word (cstr "ORG")).
  { destruct (get_word pos) as [word1 pos1]. intros H. bind_inv H.
    destruct a. injection H as <-. exact Hinv. }
  destruct (is_label word).
  { intros H. bind_inv H. bind_inv H. injection H as <-. exact Hinv. }
  destruct (Z.eqb_spec (lookup_op word) INVALID_OP) as [Hop | Hop]; cbn [negb].
  - intros H. injection H as <-. exact Hinv.
  - destruct (get_word pos) as [word1 pos1] eqn:Hgw1. intros H.
    bind_inv H. destruct a as [args_ pos2].
    destruct (get_word_lexed _ _ _ Hgw1) as (_ & _ & _ & Hlex).
    apply (collect_args_words _ _ _ _ _ _ Hlex (Forall_nil _)) in Ha.
    bind_inv H. apply push_ok in Ha0. destruct Ha0 as [-> _].
    injection H as <-. cbn [instructions].
    apply Forall_app. split; [exact Hinv |].
    constructor; [| constructor]. cbn [op args]. split; assumption.
Qed.

(** X8: Every instruction phase 1 records has a mnemonic of the table as its
    [op], and its operands are non-empty runs of word characters: no
    newline, no empty word and no sign character is ever an operand. *)
Theorem recorded_instructions_well_formed src s :
  phase1 src = Ok s ->
  Forall (fun i => lookup_op (op i) <> INVALID_OP /\ Forall operand_word (args i))
         (instructions s).
Proof. apply phase1_instructions_wf. Qed.

Lemma recorded_instructions_well_formed_witness :
  Forall (fun i => lookup_op (op i) <> INVALID_OP /\ Forall operand_word (args i))
         [mkInstr 0 (cstr "SHL") [cstr "R1"; cstr "5"]].
Proof.
  apply (recorded_instructions_well_formed (line "shl r1, -5")
           (mkState [] false 2 [mkInstr 0 (cstr "SHL") [cstr "R1"; cstr "5"]] [])).
  vm_compute. reflexivity.
Defined.

Lemma collect_args_runs_out fuel : forall word pos args_,
  is_nul (at_ pos 0) = true -> is_comment word = false ->
  eq_cstr word [NL] = false -> (3 - length args_ < fuel)%nat ->
  collect_args fuel word pos args_ = Abort.
Proof.
  induction fuel as [|fuel IH]; intros word pos args_ Hn Hc Hnl Hf; [lia |].
  cbn [collect_args]. rewrite Hc, Hnl. cbn [negb andb].
  unfold push. destruct (Z.ltb_spec (size args_) 3) as [Hlt | Hge]; cbn [bind];
    [| reflexivity].
  rewrite (get_word_at_nul _ Hn). apply IH; try assumption; try reflexivity.
  unfold size in Hlt. rewrite length_app. cbn [length]. lia.
Qed.

(** X9: An instruction whose line is not ended by a newline, the text ending
    behind the mnemonic, aborts the run: the operand loop pushes the empty
    word of the end of the text until the [push] assertion fails. *)
Theorem instruction_at_end_of_text_aborts s word pos :
  get_word (file_pos s) = (word, pos) -> lookup_op word <> INVALID_OP ->
  is_nul (at_ pos 0) = true ->
  phase1_step s = Abort.
Proof.
  intros Hgw Hop Hn.
  destruct (get_word_lexed _ _ _ Hgw) as (_ & _ & _ & Hlex).
  destruct (lookup_op_from_found word OP 0 _ eq_refl Hop) as (k & o & Hk & He & _).
  assert (Hnn : Forall not_nul word).
  { destruct Hlex as [rest _ | rest | c w rest Hrun _].
    - constructor.
    - repeat constructor.
    - eapply Forall_impl; [| exact Hrun]. intros a. apply word_char_not_nul. }
  pose proof mnemonics_not_nul as Hm. rewrite Forall_forall in Hm.
  apply (eq_cstr_equal word (mnemonic o) Hnn (Hm o (nth_error_In _ _ Hk))) in He.
  assert (Hfacts : is_comment word = false /\ eq_cstr word [NL] = false /\
                   eq_cstr word (cstr "ORG") = false /\ is_label word = false).
  { subst word. clear - Hk.
    do 26 (destruct k as [|k]; [injection Hk as <-; repeat split |]).
    destruct k; discriminate Hk. }
  destruct Hfacts as (Hc & Hnl & Horg & Hl).
  unfold phase1_step. rewrite Hgw, Hnl, Hc, Horg, Hl. rewrite andb_false_r.
  destruct (Z.eqb_spec (lookup_op word) INVALID_OP) as [E | _]; [contradiction |].
  cbn [negb]. rewrite (get_word_at_nul _ Hn).
  rewrite (collect_args_runs_out 4 [] pos []); try reflexivity; try assumption.
  cbn. lia.
Qed.

Lemma instruction_at_end_of_text_aborts_witness :
  phase1_step (mkState (cstr "RETURN") false 0 [] []) = Abort.
Proof.
  apply (instruction_at_end_of_text_aborts
           (mkState (cstr "RETURN") false 0 [] []) (cstr "RETURN") []);
    [reflexivity | vm_compute; discriminate | reflexivity].
Defined.

(** ** The symbol table *)

Lemma NoDup_snoc {A : Type} (l : list A) x :
  NoDup l -> ~ In x l -> NoDup (l ++ [x]).
Proof.
  induction 1 as [|y l Hy Hl IH]; intros Hx; cbn [app].
  - constructor; [intros [] | constructor].
  - constructor.
    + rewrite in_app_iff. intros [Hin | [-> | []]]; [contradiction |].
      apply Hx. left. reflexivity.
    + apply IH. intros Hin. apply Hx. right. exact Hin.
Qed.

(** X10: The labels phase 1 records have pairwise different names. *)
Theorem labels_distinct src s :
  phase1 src = Ok s -> NoDup (map name (labels s)).
Proof.
  apply (phase1_inv (fun s => NoDup (map name (labels s)))); [constructor |].
  intros s1 s2 Hinv _ Hstep. apply phase1_step_shape in Hstep.
  destruct Hstep as [_ [_ El _ | n b _ _ _ El _ _ | l _ El _ _ Hnew _ | i _ El _ _ _ _]];
    rewrite El; try exact Hinv.
  rewrite map_app. cbn [map]. apply NoDup_snoc; [exact Hinv |].
  intros Hin. apply in_map_iff in Hin. destruct Hin as (l' & Hname & Hin).
  rewrite Forall_forall in Hnew. specialize (Hnew l' Hin).
  rewrite Hname, eq_sub_refl in Hnew. discriminate.
Qed.

Lemma labels_distinct_witness :
  NoDup (map name [mkLabel (cstr "A") 0; mkLabel (cstr "B") 0]).
Proof.
  apply (labels_distinct (line "a: b:" ++ line "nop")
           (mkState [] false 2 [mkInstr 0 (cstr "NOP") []]
                    [mkLabel (cstr "A") 0; mkLabel (cstr "B") 0])).
  vm_compute. reflexivity.
Defined.

(** The duplicate test of the label branch passes exactly when no label of
    the table has the name, whatever the addresses; otherwise the run
    ends with "duplicate label". *)
Lemma check_duplicate_spec labels_ word :
  (In word (map name labels_) ->
   check_duplicate labels_ word = Exit1 line_num "duplicate label") /\
  (~ In word (map name labels_) -> check_duplicate labels_ word = Ok tt).
Proof.
  induction labels_ as [|l rest [IHdup IHnew]]; cbn [map In check_duplicate].
  - split; [intros [] | reflexivity].
  - destruct (eq_sub (name l) word) eqn:He.
    + apply eq_sub_eq in He. split; [reflexivity | intros Hn; tauto].
    + assert (Hne : name l <> word).
      { intros E. apply eq_sub_eq in E. congruence. }
      cbn [negb asm_assert bind].
      split; [intros [E | Hin]; [contradiction | auto] | intros Hn; apply IHnew; tauto].
Qed.

(** ** The encoder in phase 2 *)

Lemma bind_returns {A B : Type} (m : outcome A) (k : A -> outcome B) :
  (m <> Abort /\ m <> Undefined) ->
  (forall a, k a <> Abort /\ k a <> Undefined) ->
  bind m k <> Abort /\ bind m k <> Undefined.
Proof.
  intros [Hm1 Hm2] Hk. destruct m; cbn [bind]; try (split; discriminate);
    try apply Hk; exfalso; first [apply Hm1; reflexivity | apply Hm2; reflexivity].
Qed.

Ltac returns :=
  repeat match goal with
         | |- asm_assert ?c _ <> Abort /\ _ => destruct c; split; discriminate
         | |- Ok _ <> Abort /\ _ => split; discriminate
         | |- Exit1 _ _ <> Abort /\ _ => split; discriminate
         | |- bind _ _ <> Abort /\ _ => apply bind_returns
         | |- (if ?c then _ else _) <> Abort /\ _ => destruct c
         | |- (let '(_, _) := ?p in _) <> Abort /\ _ => destruct p
         | |- forall _ : _, _ <> Abort /\ _ => intro
         end.

Lemma parse_num_returns tok bits success :
  parse_num tok bits success <> Abort /\ parse_num tok bits success <> Undefined.
Proof. unfold parse_num, parse_num_from_base. returns. Qed.

Lemma parse_reg_returns reg_str :
  parse_reg reg_str <> Abort /\ parse_reg reg_str <> Undefined.
Proof. unfold parse_reg. returns. Qed.

Lemma parse_constant_labels_returns const_str a labels_ bits :
  forall result found,
  parse_constant_labels const_str a labels_ bits result found <> Abort /\
  parse_constant_labels const_str a labels_ bits result found <> Undefined.
Proof.
  induction labels_ as [|l rest IH]; intros result found;
    cbn [parse_constant_labels]; returns; apply IH.
Qed.

Lemma parse_constant_returns const_str a labels_ bits :
  parse_constant const_str a labels_ bits <> Abort /\
  parse_constant const_str a labels_ bits <> Undefined.
Proof.
  unfold parse_constant. returns;
    first [apply parse_num_returns | apply parse_constant_labels_returns].
Qed.

Lemma parse_instruction_returns op_str args_ labels_ a :
  lookup_op op_str <> INVALID_OP ->
  parse_instruction op_str args_ labels_ a <> Abort /\
  parse_instruction op_str args_ labels_ a <> Undefined.
Proof.
  intros Hop. unfold parse_instruction.
  destruct (Z.eqb_spec (lookup_op op_str) INVALID_OP) as [E | _]; [contradiction |].
  destruct (lookup_op_from_found op_str OP 0 _ eq_refl Hop) as (k & o & Hk & _ & Hi).
  fold (lookup_op op_str) in Hi. rewrite Hi.
  replace (Z.to_nat (0 + Z.of_nat k)) with k by lia. rewrite Hk.
  destruct (format o); returns;
    first [apply parse_reg_returns | apply parse_num_returns
          | apply parse_constant_returns].
Qed.

(** X11: For every instruction phase 1 records, whatever the table of labels
    and the address, the encoder returns a word or exits with an error
    message: its assertion on the mnemonic never fails and its read of the
    opcode table is inside the table. *)
Theorem encoder_assertion_never_fails src s i labels_ a :
  phase1 src = Ok s -> In i (instructions s) ->
  (exists w, parse_instruction (op i) (args i) labels_ a = Ok w) \/
  (exists msg, parse_instruction (op i) (args i) labels_ a = Exit1 line_num msg).
Proof.
  intros Hp Hin.
  pose proof (phase1_instructions_wf src s Hp) as Hwf.
  rewrite Forall_forall in Hwf. destruct (Hwf i Hin) as [Hop _].
  destruct (parse_instruction_returns (op i) (args i) labels_ a Hop) as [Ha Hu].
  pose proof (parse_instruction_no_fuel (op i) (args i) labels_ a) as Hf.
  pose proof (parse_instruction_reports (op i) (args i) labels_ a) as Hl.
  destruct (parse_instruction (op i) (args i) labels_ a) as [w | n msg | | |];
    try contradiction.
  - left. eauto.
  - right. exists msg. rewrite (Hl n msg eq_refl). reflexivity.
Qed.

Lemma encoder_assertion_never_fails_witness :
  (exists w, parse_instruction (cstr "BRR") [cstr "NOWHERE"] [] 0 = Ok w) \/
  (exists msg, parse_instruction (cstr "BRR") [cstr "NOWHERE"] [] 0 =
               Exit1 line_num msg).
Proof.
  apply (encoder_assertion_never_fails (line "BRR NOWHERE")
           (mkState [] false 2 [mkInstr 0 (cstr "BRR") [cstr "NOWHERE"]] [])
           (mkInstr 0 (cstr "BRR") [cstr "NOWHERE"]) [] 0).
  - vm_compute. reflexivity.
  - left. reflexivity.
Defined.

(** ** The layout of a program without [ORG] *)

Lemma phase1_slots src s :
  org_free (to_upper src) -> phase1 src = Ok s ->
  forall k i, nth_error (instructions s) k = Some i -> instr_addr i = 2 * Z.of_nat k.
Proof.
  intros Hfree Hp.
  enough (Hinv : plain_addresses s /\
                 forall k i, nth_error (instructions s) k = Some i ->
                             instr_addr i = 2 * Z.of_nat k) by apply Hinv.
  revert Hp.
  apply (phase1_inv (fun s => plain_addresses s /\
                      forall k i, nth_error (instructions s) k = Some i ->
                                  instr_addr i = 2 * Z.of_nat k)).
  - split.
    + split; [exact Hfree |]. split; [reflexivity |].
      split; [cbn; discriminate |]. split; constructor.
    + intros k i Hk. destruct k; discriminate Hk.
  - intros s1 s2 [Hplain Hslots] Hn Hstep.
    assert (Hplain2 : plain_addresses s2).
    { destruct Hplain as (Hf & Hnext & Hsz & Hi & Hl).
      pose proof Hstep as Hshape.
      apply phase1_step_shape in Hshape. destruct Hshape as [Hadv Hshape].
      assert (Hf2 : org_free (file_pos s2)).
      { eapply org_free_advanced; [exact Hadv | apply org_free_next, Hf]. }
      assert (H0 : 0 <= size (instructions s1)) by (unfold size; lia).
      unfold plain_addresses.
      destruct Hshape as [Ei El En | n b Horg _ _ _ _ _
                         | l Ei El Ea _ _ En | i Ei El Ea _ Hlt En];
        unfold MAX_INSTR, ROM_SIZE in *; change (1024 / 2) with 512 in *.
      + rewrite Ei, El, En. auto.
      + rewrite (org_free_head _ Hf) in Horg. discriminate.
      + rewrite Ei, El, En. repeat split; auto.
        apply Forall_app. split; [exact Hl |]. constructor; [| constructor].
        rewrite Ea, Hnext. lia.
      + rewrite Ei, El, En, size_app.
        repeat split; auto; try lia.
        * rewrite Hnext. unfold u32. rewrite Z.mod_small; lia.
        * apply Forall_app. split; [exact Hi |]. constructor; [| constructor].
          rewrite Ea, Hnext. lia. }
    split; [exact Hplain2 |].
    destruct Hplain as (_ & Hnext & _).
    apply phase1_step_shape in Hstep.
    destruct Hstep as [_ [Ei _ _ | n b _ _ Ei _ _ _ | l Ei _ _ _ _ _ | i Ei _ Ea _ _ _]];
      rewrite Ei; try exact Hslots.
    intros k j Hk.
    destruct (Nat.lt_ge_cases k (length (instructions s1))) as [Hlt | Hge].
    + rewrite nth_error_app1 in Hk by exact Hlt. apply Hslots, Hk.
    + rewrite nth_error_app2 in Hk by exact Hge.
      destruct (k - length (instructions s1))%nat as [|m] eqn:Hm.
      * cbn [nth_error] in Hk. injection Hk as <-.
        rewrite Ea, Hnext. unfold size. f_equal. lia.
      * destruct m; discriminate Hk.
Qed.

(** X12: In an accepted program without [ORG] the instructions lie in the
    image in the order of the text, without gaps: the [k]-th recorded
    instruction (from 0) has the address [2k], and there are at most 512
    of them. *)
Theorem plain_program_slots src s :
  phase1 src = Ok s -> org_free (to_upper src) ->
  (length (instructions s) <= 512)%nat /\
  forall k i, nth_error (instructions s) k = Some i -> instr_addr i = 2 * Z.of_nat k.
Proof.
  intros Hp Hfree. split.
  - destruct (phase1_plain_addresses src s Hfree Hp) as (_ & _ & Hsz & _).
    unfold size, MAX_INSTR, ROM_SIZE in Hsz. change (1024 / 2) with 512 in Hsz. lia.
  - apply (phase1_slots src s Hfree Hp).
Qed.

Lemma plain_program_slots_witness :
  (length [mkInstr 0 (cstr "NOP") []; mkInstr 2 (cstr "RETURN") []] <= 512)%nat /\
  forall k i,
    nth_error [mkInstr 0 (cstr "NOP") []; mkInstr 2 (cstr "RETURN") []] k = Some i ->
    instr_addr i = 2 * Z.of_nat k.
Proof.
  apply (plain_program_slots (line "NOP" ++ line "L:" ++ line "RETURN")
           (mkState [] false 4
              [mkInstr 0 (cstr "NOP") []; mkInstr 2 (cstr "RETURN") []]
              [mkLabel (cstr "L") 2])).
  - vm_compute. reflexivity.
  - repeat first [ apply org_free_end; reflexivity
                 | apply org_free_word; [reflexivity | reflexivity | cbn ] ].
Defined.

Lemma output_line_nth k : forall lines,
  Forall (fun l => length l = 5%nat) lines -> (k < length lines)%nat ->
  output_line k (concat lines) = nth k lines [].
Proof.
  unfold output_line. induction k as [|k IH]; intros lines Hall Hk.
  - destruct Hall as [|l rest Hl _]; [cbn in Hk; lia |].
    replace (5 * 0)%nat with 0%nat by lia. cbn [concat nth skipn].
    rewrite firstn_app, Hl, Nat.sub_diag.
    rewrite <- Hl at 1. rewrite firstn_all. cbn [firstn]. apply app_nil_r.
  - destruct Hall as [|l rest Hl Hrest]; [cbn in Hk; lia |].
    cbn [concat nth]. replace (5 * S k)%nat with (length l + 5 * k)%nat by lia.
    rewrite skipn_app, skipn_all2 by lia.
    replace (length l + 5 * k - length l)%nat with (5 * k)%nat by lia.
    cbn [app]. apply IH; [exact Hrest | cbn [length] in Hk; lia].
Qed.

Lemma rom_lines_five rom : Forall (fun l => length l = 5%nat) (rom_lines rom).
Proof. unfold rom_lines. apply Forall_map, Forall_forall. reflexivity. Qed.

(** X13: The output of an accepted program without [ORG], line by line: line
    [k] shows the word the encoder gives for the [k]-th instruction of the
    text at the address [2k], high byte first, and every line behind the
    last instruction is 0000. *)
Theorem plain_program_output src out :
  main src = Ok out -> org_free (to_upper src) ->
  exists s, phase1 src = Ok s /\
    (forall k i, nth_error (instructions s) k = Some i ->
       exists w,
         parse_instruction (op i) (args i) (labels s) (2 * Z.of_nat k) = Ok w /\
         output_line k out = hex02 (w / 256) ++ hex02 (w mod 256) ++ [NL]) /\
    (forall k, (length (instructions s) <= k < 512)%nat ->
       output_line k out = line "0000").
Proof.
  intros Hmain Hfree.
  destruct (main_ok src out Hmain) as (s & rom & Hp1 & Hp2 & ->).
  pose proof (phase1_slots src s Hfree Hp1) as Hslots.
  assert (Hlen0 : length (repeat 0 (Z.to_nat ROM_SIZE)) = Z.to_nat ROM_SIZE)
    by apply repeat_length.
  exists s. split; [exact Hp1 |]. split.
  - intros k i Hk.
    assert (Hklt : (k < length (instructions s))%nat)
      by (apply nth_error_Some; congruence).
    destruct (nth_error_split _ _ Hk) as (pre & post & Hsplit & Hpre).
    assert (Hapart : Forall (apart i) post).
    { apply Forall_forall. intros j Hj.
      apply In_nth_error in Hj. destruct Hj as [m Hm].
      assert (Hjm : nth_error (instructions s) (S k + m) = Some j).
      { rewrite Hsplit. rewrite nth_error_app2 by lia.
        replace (S k + m - length pre)%nat with (S m) by lia. exact Hm. }
      unfold apart. rewrite (Hslots _ _ Hjm), (Hslots _ _ Hk). lia. }
    rewrite Hsplit in Hp2.
    destruct (phase2_image _ _ _ _ Hlen0 blank_image_bytes Hp2) as (_ & _ & Hin & _).
    destruct (phase2_word _ _ _ _ _ _ Hlen0 blank_image_bytes Hp2 Hapart)
      as (w & Hw & Hhi & Hlo).
    exists w. rewrite <- (Hslots _ _ Hk). split; [exact Hw |].
    apply Forall_app in Hin. destruct Hin as [_ Hin].
    apply Forall_inv in Hin. destruct Hin as [_ Hhi0].
    unfold ROM_SIZE in Hhi0. rewrite (Hslots _ _ Hk) in Hhi0, Hhi, Hlo.
    rewrite output_line_nth;
      [| apply rom_lines_five | rewrite rom_lines_length; lia].
    rewrite rom_lines_nth by lia. unfold rom_line.
    replace (Z.to_nat (2 * Z.of_nat k)) with (2 * k)%nat in Hhi by lia.
    replace (Z.to_nat (2 * Z.of_nat k + 1)) with (2 * k + 1)%nat in Hlo by lia.
    rewrite Hhi, Hlo. reflexivity.
  - intros k [Hge Hlt].
    destruct (phase2_image _ _ _ _ Hlen0 blank_image_bytes Hp2) as (_ & _ & _ & Hkeep).
    rewrite output_line_nth;
      [| apply rom_lines_five | rewrite rom_lines_length; lia].
    rewrite rom_lines_nth by lia. unfold rom_line.
    assert (Hfar : forall j i, In i (instructions s) ->
              j = 2 * Z.of_nat k \/ j = 2 * Z.of_nat k + 1 ->
              j <> instr_addr i /\ j <> instr_addr i + 1).
    { intros j i Hi Hj. apply In_nth_error in Hi. destruct Hi as [m Hm].
      assert (m < length (instructions s))%nat by (apply nth_error_Some; congruence).
      rewrite (Hslots _ _ Hm). lia. }
    replace (2 * k)%nat with (Z.to_nat (2 * Z.of_nat k)) by lia.
    replace (Z.to_nat (2 * Z.of_nat k) + 1)%nat
      with (Z.to_nat (2 * Z.of_nat k + 1)) by lia.
    rewrite !Hkeep, !nth_repeat; try lia; try reflexivity;
      intros i Hi; apply (Hfar _ i Hi); lia.
Qed.

Lemma plain_program_output_witness :
  exists s, phase1 (line "L: ADD R1 R2 R3" ++ line "BRR L") = Ok s /\
    (forall k i, nth_error (instructions s) k = Some i ->
       exists w,
         parse_instruction (op i) (args i) (labels s) (2 * Z.of_nat k) = Ok w /\
         output_line k (line "0253" ++ line "81FF" ++ blank_lines 510) =
           hex02 (w / 256) ++ hex02 (w mod 256) ++ [NL]) /\
    (forall k, (length (instructions s) <= k < 512)%nat ->
       output_line k (line "0253" ++ line "81FF" ++ blank_lines 510) = line "0000").
Proof.
  apply (plain_program_output (line "L: ADD R1 R2 R3" ++ line "BRR L")
           (line "0253" ++ line "81FF" ++ blank_lines 510)).
  - vm_compute. reflexivity.
  - repeat first [ apply org_free_end; reflexivity
                 | apply org_free_word; [reflexivity | reflexivity | cbn ] ].
Defined.

(** ** The words of the encoder *)

Lemma lookup_op_index k o : nth_error OP k = Some o -> lookup_op (mnemonic o) = Z.of_nat k.
Proof.
  intros Hk. do 26 (destruct k as [|k]; [injection Hk as <-; reflexivity |]).
  destruct k; discriminate Hk.
Qed.

Lemma opcode_range k o : nth_error OP k = Some o -> 0 <= opcode o < 128.
Proof.
  intros Hk. apply nth_error_In in Hk. revert o Hk. apply Forall_forall.
  repeat constructor; cbn; lia.
Qed.

(** The start of [parse_instruction] for a mnemonic of the table. *)
Ltac open_entry Hk :=
  unfold parse_instruction; rewrite (lookup_op_index _ _ Hk);
  match goal with
  | |- context [Z.of_nat ?k =? INVALID_OP] =>
      let E := fresh in
      destruct (Z.eqb_spec (Z.of_nat k) INVALID_OP) as [E | _];
      [ exfalso;
        assert (k < length OP)%nat by (apply nth_error_Some; congruence);
        unfold INVALID_OP in E; cbn [length OP] in *; lia
      | rewrite Nat2Z.id, Hk ]
  end.

Lemma lor_field a b n :
  0 <= n -> 0 <= b < 2 ^ n -> Z.lor (a * 2 ^ n) b = a * 2 ^ n + b.
Proof.
  intros Hn Hb.
  assert (Hland : Z.land (a * 2 ^ n) b = 0).
  { apply Z.bits_inj'. intros i Hi. rewrite Z.land_spec, Z.bits_0.
    rewrite Z.mul_pow2_bits by lia.
    destruct (Z.ltb_spec i n).
    - rewrite Z.testbit_neg_r by lia. reflexivity.
    - rewrite (bits_high_nonneg b n i) by lia. apply andb_false_r. }
  rewrite <- Z.lxor_lor by exact Hland. symmetry. apply Z.add_nocarry_lxor, Hland.
Qed.

(** [instr |= v] with [v] below the fields already in [instr]. *)
Lemma or16_put hi v n x :
  x = hi * 2 ^ n -> 0 <= n -> 0 <= v < 2 ^ n -> 0 <= x -> x + v < 65536 ->
  or16 x v = x + v.
Proof.
  intros -> Hn Hv Hx Hlt. unfold or16, u16. rewrite lor_field by assumption.
  apply Z.mod_small. change (2 ^ 16) with 65536. lia.
Qed.

Lemma opcode_word o k :
  nth_error OP k = Some o -> or16 0 (u32 (Z.shiftl (opcode o) 9)) = opcode o * 512.
Proof.
  intros Hk. pose proof (opcode_range k o Hk) as Ho.
  rewrite Z.shiftl_mul_pow2 by lia. change (2 ^ 9) with 512.
  unfold or16, u32, u16. rewrite Z.lor_0_l.
  change (2 ^ 32) with 4294967296. change (2 ^ 16) with 65536.
  rewrite (Z.mod_small (opcode o * 512) 4294967296) by lia.
  apply Z.mod_small. lia.
Qed.

Lemma parse_reg_token n :
  0 <= n <= 9 -> parse_reg (reg_token n) = Ok n.
Proof.
  intros Hn. rewrite <- (Z2Nat.id n) by lia.
  assert (Hm : (Z.to_nat n < 10)%nat) by lia.
  revert Hm. generalize (Z.to_nat n). intros m Hm.
  do 10 (destruct m as [|m]; [reflexivity |]). lia.
Qed.

Lemma reg_shift6 r : 0 <= r <= 9 -> u32 (Z.shiftl r 6) = r * 64.
Proof.
  intros Hr. rewrite Z.shiftl_mul_pow2 by lia. change (2 ^ 6) with 64.
  unfold u32. apply Z.mod_small. lia.
Qed.

Lemma reg_shift3 r : 0 <= r <= 9 -> u32 (Z.shiftl r 3) = r * 8.
Proof.
  intros Hr. rewrite Z.shiftl_mul_pow2 by lia. change (2 ^ 3) with 8.
  unfold u32. apply Z.mod_small. lia.
Qed.

Ltac fields :=
  change (2 ^ 9) with 512; change (2 ^ 8) with 256; change (2 ^ 6) with 64;
  change (2 ^ 4) with 16; change (2 ^ 3) with 8; lia.

(** X14: The words of the formats that take registers only, for the registers
    R0 to R7: the opcode in the bits 15 to 9, the first register in the
    bits 8 to 6, the second in the bits 5 to 3, the third in the bits 2
    to 0. *)
Theorem encode_registers k o labels_ a r0 r1 r2 :
  nth_error OP k = Some o -> 0 <= r0 <= 7 -> 0 <= r1 <= 7 -> 0 <= r2 <= 7 ->
  match format o with
  | A0 => parse_instruction (mnemonic o) [] labels_ a = Ok (opcode o * 512)
  | A1 => parse_instruction (mnemonic o) [reg_token r0; reg_token r1; reg_token r2]
            labels_ a = Ok (opcode o * 512 + r0 * 64 + r1 * 8 + r2)
  | A3 => parse_instruction (mnemonic o) [reg_token r0] labels_ a =
            Ok (opcode o * 512 + r0 * 64)
  | L2 => parse_instruction (mnemonic o) [reg_token r0; reg_token r1] labels_ a =
            Ok (opcode o * 512 + r0 * 64 + r1 * 8)
  | _ => True
  end.
Proof.
  intros Hk H0 H1 H2. pose proof (opcode_range k o Hk) as Ho.
  destruct (format o) eqn:Hf; try exact I; open_entry Hk; rewrite Hf;
    rewrite (opcode_word o k Hk);
    cbn [size length Z.of_nat Pos.of_succ_nat Pos.succ Z.eqb Pos.eqb
         asm_assert negb bind arg nth];
    rewrite ?parse_reg_token by lia; cbn [bind];
    rewrite ?reg_shift6, ?reg_shift3 by lia.
  - reflexivity.
  - rewrite (or16_put (opcode o) (r0 * 64) 9) by fields.
    rewrite (or16_put (opcode o * 8 + r0) (r1 * 8) 6) by fields.
    rewrite (or16_put (opcode o * 64 + r0 * 8 + r1) r2 3) by fields.
    reflexivity.
  - rewrite (or16_put (opcode o) (r0 * 64) 9) by fields. reflexivity.
  - rewrite (or16_put (opcode o) (r0 * 64) 9) by fields.
    rewrite (or16_put (opcode o * 8 + r0) (r1 * 8) 6) by fields.
    reflexivity.
Qed.

Lemma encode_registers_witness :
  parse_instruction (cstr "ADD") [cstr "R1"; cstr "R2"; cstr "R3"] [] 0 =
    Ok (1 * 512 + 1 * 64 + 2 * 8 + 3).
Proof.
  apply (encode_registers 1 (mkOp (cstr "ADD") 1 A1 false) [] 0 1 2 3);
    [reflexivity | lia | lia | lia].
Defined.

Lemma pow_width f :
  2 ^ immediate_bits f = match f with A2 => 16 | B2 => 64 | L1 => 256 | _ => 1 end.
Proof. destruct f; reflexivity. Qed.

Lemma parse_num_accepts tok v w success :
  spec_literal_value tok = Some v -> 0 <= w < 31 -> - 2 ^ w <= v < 2 ^ w ->
  parse_num tok w success = Ok (v mod 2 ^ w, true).
Proof.
  intros Hlit Hw Hv.
  assert (Hle : 2 ^ w <= 2 ^ 30) by (apply Z.pow_le_mono_r; lia).
  change (2 ^ 30) with 1073741824 in Hle.
  rewrite (parse_num_literal tok v w success Hlit);
    [| change (2 ^ 31) with 2147483648; lia | lia].
  destruct (Z.leb_spec (- 2 ^ w) v); [| lia].
  destruct (Z.ltb_spec v (2 ^ w)); [| lia]. reflexivity.
Qed.

(** X15: The words of the formats with an immediate operand, for a literal
    [parse_num] accepts at the width of the format: the immediate, cut to
    the width, lies in the low bits; the register of A2 and B2 in the bits
    8 to 6; and bit 8 of L1 is set exactly for the [upper] entry. *)
Theorem encode_immediates k o labels_ a r0 tok v :
  nth_error OP k = Some o -> 0 <= r0 <= 7 ->
  spec_literal_value tok = Some v ->
  - 2 ^ immediate_bits (format o) <= v < 2 ^ immediate_bits (format o) ->
  match format o with
  | A2 => parse_instruction (mnemonic o) [reg_token r0; tok] labels_ a =
            Ok (opcode o * 512 + r0 * 64 + v mod 16)
  | B2 => parse_instruction (mnemonic o) [reg_token r0; tok] labels_ a =
            Ok (opcode o * 512 + r0 * 64 + v mod 64)
  | L1 => parse_instruction (mnemonic o) [tok] labels_ a =
            Ok (opcode o * 512 + (if upper o then 256 else 0) + v mod 256)
  | _ => True
  end.
Proof.
  intros Hk H0 Hlit Hv. pose proof (opcode_range k o Hk) as Ho.
  rewrite pow_width in Hv.
  destruct (format o) eqn:Hf; try exact I; open_entry Hk; rewrite Hf;
    rewrite (opcode_word o k Hk);
    cbn [size length Z.of_nat Pos.of_succ_nat Pos.succ Z.eqb Pos.eqb
         asm_assert negb bind arg nth];
    rewrite ?parse_reg_token by lia; cbn [bind];
    rewrite ?reg_shift6 by lia.
  - rewrite (parse_num_accepts tok v 4 false Hlit)
      by (try lia; change (2 ^ 4) with 16; lia).
    change (2 ^ 4) with 16. cbn [bind]. pose proof (Z.mod_pos_bound v 16 ltac:(lia)).
    rewrite (or16_put (opcode o) (r0 * 64) 9) by fields.
    rewrite (or16_put (opcode o * 8 + r0) (v mod 16) 6) by fields.
    reflexivity.
  - rewrite (parse_num_accepts tok v 6 false Hlit)
      by (try lia; change (2 ^ 6) with 64; lia).
    change (2 ^ 6) with 64. cbn [bind]. pose proof (Z.mod_pos_bound v 64 ltac:(lia)).
    rewrite (or16_put (opcode o) (r0 * 64) 9) by fields.
    rewrite (or16_put (opcode o * 8 + r0) (v mod 64) 6) by fields.
    reflexivity.
  - rewrite (parse_num_accepts tok v 8 false Hlit)
      by (try lia; change (2 ^ 8) with 256; lia).
    change (2 ^ 8) with 256. cbn [bind]. pose proof (Z.mod_pos_bound v 256 ltac:(lia)).
    destruct (upper o).
    + change (Z.shiftl 1 8) with 256.
      rewrite (or16_put (opcode o) 256 9) by fields.
      rewrite (or16_put (opcode o * 2 + 1) (v mod 256) 8) by fields.
      reflexivity.
    + rewrite (or16_put (opcode o * 2) (v mod 256) 8) by fields.
      rewrite Z.add_0_r. reflexivity.
Qed.

Lemma encode_immediates_witness :
  parse_instruction (cstr "LOADIMM.UPPER") [cstr "0XFF"] [] 0 =
    Ok (18 * 512 + 256 + 255 mod 256).
Proof.
  apply (encode_immediates 24 (mkOp (cstr "LOADIMM.UPPER") 18 L1 true) [] 0 0
           (cstr "0XFF") 255);
    [reflexivity | lia | reflexivity | cbn; lia].
Defined.

(** X16: Whatever the format, a number of operands other than the one the
    format takes ends the run with the message "too many args", also when
    there are too few. *)
Theorem operand_count_mismatch k o args_ labels_ a :
  nth_error OP k = Some o -> size args_ <> operand_count (format o) ->
  parse_instruction (mnemonic o) args_ labels_ a = Exit1 line_num "too many args".
Proof.
  intros Hk Hn. open_entry Hk.
  destruct (format o); cbn [operand_count] in Hn;
    match goal with
    | |- context [size args_ =? ?n] =>
        destruct (Z.eqb_spec (size args_) n); [contradiction | reflexivity]
    end.
Qed.

Lemma operand_count_mismatch_witness :
  parse_instruction (cstr "RETURN") [cstr "R1"] [] 0 = Exit1 line_num "too many args".
Proof.
  apply (operand_count_mismatch 20 (mkOp (cstr "RETURN") 71 A0 false) [cstr "R1"] [] 0);
    [reflexivity | cbn; discriminate].
Defined.

(** X17: The registers R8 and R9 are taken, but their number does not fit the
    three bits of the field: in the A3 format the word is that of the
    opcode with its lowest bit set and of the register R0 or R1, so that
    [OUT R8] is the word of [IN R0]. *)
Theorem high_register_changes_opcode k o labels_ a r :
  nth_error OP k = Some o -> format o = A3 -> r = 8 \/ r = 9 ->
  parse_instruction (mnemonic o) [reg_token r] labels_ a =
    Ok (Z.lor (opcode o) 1 * 512 + (r - 8) * 64).
Proof.
  intros Hk Hf Hr.
  do 26 (destruct k as [|k];
         [injection Hk as <-; try discriminate Hf;
          destruct Hr as [-> | ->]; reflexivity |]).
  destruct k; discriminate Hk.
Qed.

Lemma high_register_changes_opcode_witness :
  parse_instruction (cstr "OUT") [cstr "R8"] [] 0 = Ok (33 * 512 + 0 * 64).
Proof.
  apply (high_register_changes_opcode 9 (mkOp (cstr "OUT") 32 A3 false) [] 0 8);
    [reflexivity | reflexivity | left; reflexivity].
Defined.

(** ** Branch operands *)

Lemma letter_char c :
  in_range "A" "Z" c = true ->
  isspace c = false /\ Ascii.eqb c "+" = false /\ Ascii.eqb c "-" = false /\
  Ascii.eqb c "0" = false /\ valid_digit 10 c = false /\ (digit_val c <? 10) = false.
Proof.
  intros H. destruct c as [[|] [|] [|] [|] [|] [|] [|] [|]];
    vm_compute in H; try discriminate H; vm_compute; repeat split.
Qed.

(** A name that starts with a letter and does not have [X] or [B] as its
    second character passes [parse_num] as "not a number". *)
Lemma parse_num_name c rest w :
  in_range "A" "Z" c = true ->
  Ascii.eqb (at_ rest 0) "X" = false -> Ascii.eqb (at_ rest 0) "B" = false ->
  0 <= w < 32 ->
  parse_num (c :: rest) w true = Ok (0, false).
Proof.
  intros Hc HX HB Hw.
  destruct (letter_char c Hc) as (Hsp & Hplus & Hminus & Hzero & Hvalid & Hdigit).
  unfold parse_num. cbn [at_ nth]. rewrite Hplus, Hminus. cbn [orb].
  assert (Hs : strtoul (c :: rest) 10 = 0).
  { unfold strtoul. cbn [skip_space]. rewrite Hsp. cbn [at_ nth].
    rewrite Hminus, Hplus. cbn [orb].
    change (10 =? 16) with false. cbn [andb strtoul_digits].
    rewrite Hdigit. reflexivity. }
  assert (0 < 2 ^ w) by (apply Z.pow_pos_nonneg; lia).
  assert (Hfits : fits 0 w = true).
  { rewrite fits_spec by lia.
    destruct (Z.leb_spec (- 2 ^ w) 0); [| lia].
    destruct (Z.ltb_spec 0 (2 ^ w)); [reflexivity | lia]. }
  unfold parse_num_from_base.
  change (at_ (c :: rest) 1) with (at_ rest 0). rewrite HX, HB.
  destruct (2 <=? len (c :: rest));
    cbn [bind valid_digits negb]; rewrite Hvalid; cbn [negb bind];
    rewrite Hs; change (i32 0) with 0; rewrite Hfits;
    cbn [asm_assert negb bind]; rewrite mask_low_spec by lia;
    rewrite Z.mod_0_l by lia; reflexivity.
Qed.

(** X18: A B1 operand that is a numeric literal is the displacement field
    itself: it is put into the low 9 bits whatever the address of the
    instruction and whatever the symbol table holds, a label of the same
    spelling included. *)
Theorem branch_number_is_displacement k o labels_ a tok v :
  nth_error OP k = Some o -> format o = B1 ->
  spec_literal_value tok = Some v -> - 512 <= v < 512 ->
  parse_instruction (mnemonic o) [tok] labels_ a = Ok (opcode o * 512 + v mod 512).
Proof.
  intros Hk Hf Hlit Hv. pose proof (opcode_range k o Hk) as Ho.
  open_entry Hk. rewrite Hf, (opcode_word o k Hk).
  cbn [size length Z.of_nat Pos.of_succ_nat Z.eqb Pos.eqb asm_assert negb bind arg nth].
  unfold parse_constant.
  rewrite (parse_num_accepts tok v 9 true Hlit)
    by (try lia; change (2 ^ 9) with 512; lia).
  change (2 ^ 9) with 512. cbn [bind negb]. pose proof (Z.mod_pos_bound v 512 ltac:(lia)).
  rewrite (or16_put (opcode o) (v mod 512) 9) by fields. reflexivity.
Qed.

Lemma branch_number_is_displacement_witness :
  parse_instruction (cstr "BRR") [cstr "12"] [mkLabel (cstr "12") 100] 40 =
    Ok (64 * 512 + 12 mod 512).
Proof.
  apply (branch_number_is_displacement 11 (mkOp (cstr "BRR") 64 B1 false)
           [mkLabel (cstr "12") 100] 40 (cstr "12") 12);
    [reflexivity | reflexivity | reflexivity | lia].
Defined.

(** X19: A B1 operand that is the name of a label (a name that starts with a
    letter and has neither [X] nor [B] as its second character), the
    table holding the name once: the displacement is half the distance
    from the instruction to the label, rounded towards zero; from -512 to
    511 it is put into the low 9 bits modulo 512, forward and backward
    alike, and outside of that the run ends with "argument needs too many
    bits". *)
Theorem branch_label_displacement k o pre l post A c rest :
  nth_error OP k = Some o -> format o = B1 ->
  name l = c :: rest -> in_range "A" "Z" c = true ->
  Ascii.eqb (at_ rest 0) "X" = false -> Ascii.eqb (at_ rest 0) "B" = false ->
  Forall (fun l' => name l' <> c :: rest) (pre ++ post) ->
  0 <= addr l < 2 ^ 31 -> 0 <= A < 2 ^ 31 ->
  let d := Z.quot (addr l - A) 2 in
  parse_instruction (mnemonic o) [c :: rest] (pre ++ l :: post) A =
    if (-512 <=? d) && (d <? 512) then Ok (opcode o * 512 + d mod 512)
    else Exit1 line_num "argument needs too many bits".
Proof.
  intros Hk Hf Hname Hc HX HB Hothers HT HA d.
  pose proof (opcode_range k o Hk) as Ho.
  open_entry Hk. rewrite Hf, (opcode_word o k Hk).
  cbn [size length Z.of_nat Pos.of_succ_nat Z.eqb Pos.eqb asm_assert negb bind arg nth].
  rewrite (parse_constant_label (c :: rest) A pre l post 0
             (parse_num_name c rest 9 Hc HX HB ltac:(lia)) Hname Hothers HT HA).
  cbv zeta. fold d. change (2 ^ 9) with 512. change (Z.opp 512) with (-512).
  destruct ((-512 <=? d) && (d <? 512)); [| reflexivity].
  cbn [bind]. pose proof (Z.mod_pos_bound d 512 ltac:(lia)).
  rewrite (or16_put (opcode o) (d mod 512) 9) by fields. reflexivity.
Qed.

Lemma branch_label_displacement_witness :
  parse_instruction (cstr "BRR.Z") [cstr "LOOP"]
    ([mkLabel (cstr "START") 0] ++ mkLabel (cstr "LOOP") 4 :: [mkLabel (cstr "END") 40]) 10 =
  if (-512 <=? Z.quot (4 - 10) 2) && (Z.quot (4 - 10) 2 <? 512)
  then Ok (66 * 512 + Z.quot (4 - 10) 2 mod 512)
  else Exit1 line_num "argument needs too many bits".
Proof.
  apply (branch_label_displacement 13 (mkOp (cstr "BRR.Z") 66 B1 false)
           [mkLabel (cstr "START") 0] (mkLabel (cstr "LOOP") 4)
           [mkLabel (cstr "END") 40] 10 "L"%char (cstr "OOP"));
    try reflexivity; try (cbn; lia).
  repeat constructor; discriminate.
Defined.

(** X20: A B1 operand that is the name of no label ends the run with "label
    not found". *)
Theorem branch_unknown_label k o labels_ A c rest :
  nth_error OP k = Some o -> format o = B1 -> in_range "A" "Z" c = true ->
  Ascii.eqb (at_ rest 0) "X" = false -> Ascii.eqb (at_ rest 0) "B" = false ->
  Forall (fun l => name l <> c :: rest) labels_ ->
  parse_instruction (mnemonic o) [c :: rest] labels_ A =
    Exit1 line_num "label not found".
Proof.
  intros Hk Hf Hc HX HB Hmiss. open_entry Hk. rewrite Hf.
  cbn [size length Z.of_nat Pos.of_succ_nat Z.eqb Pos.eqb asm_assert negb bind arg nth].
  rewrite (parse_constant_unknown (c :: rest) A labels_ 0
             (parse_num_name c rest 9 Hc HX HB ltac:(lia)) Hmiss).
  reflexivity.
Qed.

Lemma branch_unknown_label_witness :
  parse_instruction (cstr "BRR") [cstr "NOWHERE"] [mkLabel (cstr "HERE") 0] 0 =
    Exit1 line_num "label not found".
Proof.
  apply (branch_unknown_label 11 (mkOp (cstr "BRR") 64 B1 false)
           [mkLabel (cstr "HERE") 0] 0 "N"%char (cstr "OWHERE"));
    try reflexivity.
  repeat constructor; discriminate.
Defined.

(** ** The directive and the label definition *)

Lemma lexed_not_nul w rest : lexed w rest -> Forall not_nul w.
Proof.
  intros [r _ | r | c w' r Hrun _].
  - constructor.
  - repeat constructor.
  - eapply Forall_impl; [| exact Hrun]. intros a. apply word_char_not_nul.
Qed.

(** X21: [ORG] takes the next word as its operand: a literal from -65536 to
    65535 sets the cursor to its low 16 bits and leaves the tables as they
    are; a newline in its place (an [ORG] at the end of a line) ends the
    run with "malformed constant". *)
Theorem org_directive s pos tok pos' v :
  get_word (file_pos s) = (cstr "ORG", pos) -> get_word pos = (tok, pos') ->
  (spec_literal_value tok = Some v -> - 65536 <= v < 65536 ->
   phase1_step s =
     Ok (mkState pos' (in_comment s) (v mod 65536) (instructions s) (labels s))) /\
  (tok = [NL] -> phase1_step s = Exit1 line_num "malformed constant").
Proof.
  intros Hgw Hgw1. unfold phase1_step. rewrite Hgw.
  change (eq_cstr (cstr "ORG") [NL]) with false. rewrite andb_false_r.
  change (is_comment (cstr "ORG")) with false.
  change (eq_cstr (cstr "ORG") (cstr "ORG")) with true. cbv iota. rewrite Hgw1.
  split.
  - intros Hlit Hv.
    rewrite (parse_num_accepts tok v 16 false Hlit)
      by (try lia; change (2 ^ 16) with 65536; lia).
    cbn [bind]. change (2 ^ 16) with 65536.
    pose proof (Z.mod_pos_bound v 65536 ltac:(lia)).
    unfold u32. rewrite (Z.mod_small (v mod 65536)) by (change (2 ^ 32) with 4294967296; lia).
    reflexivity.
  - intros ->. reflexivity.
Qed.

Lemma org_directive_witness :
  phase1_step (mkState (line "ORG 0X20") false 0 [] []) =
    Ok (mkState [NL] false (32 mod 65536) [] []).
Proof.
  refine (proj1 (org_directive (mkState (line "ORG 0X20") false 0 [] [])
                   (cstr " 0X20" ++ [NL]) (cstr "0X20") [NL] 32 _ _) _ _).
  - reflexivity.
  - reflexivity.
  - reflexivity.
  - lia.
Defined.

Lemma is_label_colon nm : is_label (nm ++ [":"%char]) = true.
Proof.
  unfold is_label, len. rewrite length_app. cbn [length].
  destruct (Z.eqb_spec (Z.of_nat (length nm + 1)) 0); [lia |].
  unfold at_. replace (length nm + 1 - 1)%nat with (length nm) by lia.
  rewrite app_nth2 by lia. rewrite Nat.sub_diag. reflexivity.
Qed.

(** X22: A word that ends in a colon defines a label: when the table is not
    full and holds no label of that name, the name without the colon is
    recorded at the address of the cursor, and the address of the cursor
    stays; when the table holds the name, the run ends with "duplicate
    label"; when the table is full, the [push] assertion fails. *)
Theorem label_definition s nm pos :
  get_word (file_pos s) = (nm ++ [":"%char], pos) ->
  (In nm (map name (labels s)) ->
   phase1_step s = Exit1 line_num "duplicate label") /\
  (~ In nm (map name (labels s)) -> size (labels s) < MAX_LABELS ->
   phase1_step s =
     Ok (mkState pos (in_comment s) (next_addr s) (instructions s)
           (labels s ++ [mkLabel nm (next_addr s)]))) /\
  (~ In nm (map name (labels s)) -> MAX_LABELS <= size (labels s) ->
   phase1_step s = Abort).
Proof.
  intros Hgw.
  destruct (get_word_lexed _ _ _ Hgw) as (_ & _ & _ & Hlex).
  pose proof (lexed_not_nul _ _ Hlex) as Hnn.
  pose proof (get_word_never_comment (file_pos s)) as Hc. rewrite Hgw in Hc.
  cbn [fst] in Hc.
  assert (Hnl : eq_cstr (nm ++ [":"%char]) [NL] = false).
  { destruct (eq_cstr (nm ++ [":"%char]) [NL]) eqn:E; [| reflexivity].
    apply (eq_cstr_equal _ [NL] Hnn) in E; [| repeat constructor].
    destruct nm as [|c [|d nm]]; discriminate E. }
  assert (Horg : eq_cstr (nm ++ [":"%char]) (cstr "ORG") = false).
  { destruct (eq_cstr (nm ++ [":"%char]) (cstr "ORG")) eqn:E; [| reflexivity].
    apply (eq_cstr_equal _ (cstr "ORG") Hnn) in E; [| repeat constructor].
    destruct nm as [|c0 [|c1 [|c2 [|c3 nm]]]]; discriminate E. }
  unfold phase1_step. rewrite Hgw, Hnl, Hc, Horg, is_label_colon, removelast_last.
  rewrite andb_false_r.
  destruct (check_duplicate_spec (labels s) nm) as [Hdup Hnew].
  split; [| split].
  - intros Hin. rewrite (Hdup Hin). reflexivity.
  - intros Hnin Hsz. rewrite (Hnew Hnin). cbn [bind]. unfold push.
    destruct (Z.ltb_spec (size (labels s)) MAX_LABELS); [reflexivity | lia].
  - intros Hnin Hsz. rewrite (Hnew Hnin). cbn [bind]. unfold push.
    destruct (Z.ltb_spec (size (labels s)) MAX_LABELS); [lia | reflexivity].
Qed.

Lemma label_definition_witness :
  phase1_step (mkState (line "LOOP: NOP") false 6 [] [mkLabel (cstr "END") 2]) =
    Ok (mkState (cstr " NOP" ++ [NL]) false 6 []
          [mkLabel (cstr "END") 2; mkLabel (cstr "LOOP") 6]).
Proof.
  refine (proj1 (proj2 (label_definition
            (mkState (line "LOOP: NOP") false 6 [] [mkLabel (cstr "END") 2])
            (cstr "LOOP") (cstr " NOP" ++ [NL]) _)) _ _).
  - reflexivity.
  - cbn. intros [H | []]. discriminate H.
  - reflexivity.
Defined.

(** ** Separators *)

Lemma separator_blank c : separator c -> blank c.
Proof.
  unfold separator, blank.
  destruct c as [[|] [|] [|] [|] [|] [|] [|] [|]]; vm_compute; intros (? & ? & ?);
    repeat split; congruence.
Qed.

Lemma same_tokens_upper a b : same_tokens a b -> same_words (to_upper a) (to_upper b).
Proof.
  unfold same_tokens, same_words. induction 1 as [|x y a b Hxy Hab IH]; [constructor |].
  cbn [to_upper]. destruct Hxy as [<- | [Hx Hy]].
  - destruct (is_nul x).
    + constructor; [left; reflexivity |].
      eapply Forall2_impl; [| exact Hab]. intros u v [E | [Hu Hv]]; [left; exact E |].
      right. split; apply separator_blank; assumption.
    + constructor; [left; reflexivity | exact IH].
  - destruct (separator_blank x Hx) as (Hnx & _). destruct (separator_blank y Hy) as (Hny & _).
    rewrite Hnx, Hny. constructor; [right; split; assumption | exact IH].
Qed.

Lemma same_words_head a b : same_words a b -> is_nul (at_ a 0) = is_nul (at_ b 0).
Proof.
  intros [|x y a' b' [<- | [(Hx & _) (Hy & _)]] _]; cbn [at_ nth];
    [reflexivity | reflexivity | congruence].
Qed.

Lemma skip_blank_same a b :
  same_words a b -> same_words (skip_blank a) (skip_blank b).
Proof.
  unfold same_words. induction 1 as [|x y a b Hxy Hab IH]; [constructor |].
  cbn [skip_blank]. destruct Hxy as [<- | [(Hnx & Hwx & Hlx) (Hny & Hwy & Hly)]].
  - destruct (is_nul x); [constructor; [left; reflexivity | exact Hab] |].
    destruct (word_char x || Ascii.eqb x NL);
      [constructor; [left; reflexivity | exact Hab] | exact IH].
  - rewrite Hnx, Hwx, Hlx, Hny, Hwy, Hly. exact IH.
Qed.

Lemma skip_word_chars_same a b :
  same_words a b ->
  exists w, a = w ++ skip_word_chars a /\ b = w ++ skip_word_chars b /\
            same_words (skip_word_chars a) (skip_word_chars b).
Proof.
  unfold same_words. induction 1 as [|x y a b Hxy Hab (w & Ha & Hb & Hr)].
  - exists []. repeat split; constructor.
  - cbn [skip_word_chars]. destruct Hxy as [<- | [(Hnx & Hwx & Hlx) (Hny & Hwy & Hly)]].
    + destruct (is_nul x).
      { exists []. repeat split. constructor; [left; reflexivity | exact Hab]. }
      destruct (word_char x); cbn [negb].
      * exists (x :: w). cbn [app]. repeat split; [congruence | congruence | exact Hr].
      * exists []. repeat split. constructor; [left; reflexivity | exact Hab].
    + rewrite Hnx, Hwx, Hny, Hwy. cbn [negb]. exists []. repeat split.
      constructor; [right; repeat split; assumption | exact Hab].
Qed.

Lemma get_word_same a b :
  same_words a b ->
  fst (get_word a) = fst (get_word b) /\
  same_words (snd (get_word a)) (snd (get_word b)).
Proof.
  intros Hab. unfold get_word. cbn [fst snd].
  pose proof (skip_blank_same a b Hab) as Hs.
  remember (skip_blank a) as sa eqn:Ea. remember (skip_blank b) as sb eqn:Eb.
  clear Ea Eb Hab a b. unfold skip_word.
  destruct Hs as [|x y a b Hxy Hab]; [split; [reflexivity | constructor] |].
  cbn [at_ nth tl].
  assert (Hnl : Ascii.eqb x NL = Ascii.eqb y NL).
  { destruct Hxy as [<- | [(_ & _ & Hx) (_ & _ & Hy)]]; congruence. }
  rewrite <- Hnl. destruct (Ascii.eqb_spec x NL) as [-> | Hx].
  - symmetry in Hnl. apply Ascii.eqb_eq in Hnl. subst y.
    split; [| exact Hab]. cbn [length].
    replace (S (length a) - length a)%nat with 1%nat by lia.
    replace (S (length b) - length b)%nat with 1%nat by lia. reflexivity.
  - assert (Hxs : same_words (x :: a) (y :: b)) by (constructor; assumption).
    destruct (skip_word_chars_same _ _ Hxs) as (w & Ha & Hb & Hr).
    split; [| exact Hr].
    rewrite Ha at 1 3. rewrite Hb at 1 3. rewrite !firstn_prefix. reflexivity.
Qed.

Lemma same_words_refl a : same_words a a.
Proof. induction a; constructor; [left; reflexivity | assumption]. Qed.

Lemma collect_args_same fuel : forall word a b args_,
  same_words a b ->
  alike (fun r1 r2 => fst r1 = fst r2 /\ same_words (snd r1) (snd r2))
        (collect_args fuel word a args_) (collect_args fuel word b args_).
Proof.
  induction fuel as [|fuel IH]; intros word a b args_ Hab; cbn [collect_args];
    destruct (negb (is_comment word) && negb (eq_cstr word [NL]));
    try (cbn; split; [reflexivity | exact Hab]); [reflexivity |].
  destruct (push 3 args_ word) as [args' | | | |]; cbn [bind]; try reflexivity.
  destruct (get_word_same a b Hab) as [Hw Hr].
  destruct (get_word a) as [wa ra], (get_word b) as [wb rb]. cbn [fst snd] in Hw, Hr.
  subst wb. apply IH, Hr.
Qed.

Lemma phase1_step_same s1 s2 :
  same_state s1 s2 -> alike same_state (phase1_step s1) (phase1_step s2).
Proof.
  intros (Hpos & Hc & Ha & Hi & Hl). unfold phase1_step.
  destruct (get_word_same _ _ Hpos) as [Hw Hr].
  destruct (get_word (file_pos s1)) as [word r1], (get_word (file_pos s2)) as [wb r2].
  cbn [fst snd] in Hw, Hr. subst wb. rewrite <- Hc, <- Ha, <- Hi, <- Hl.
  destruct (in_comment s1 && eq_cstr word [NL]); [repeat split; assumption |].
  destruct (is_comment word); [repeat split; assumption |].
  destruct (eq_cstr word (cstr "ORG")).
  { destruct (get_word_same _ _ Hr) as [Hw1 Hr1].
    destruct (get_word r1) as [w1 p1], (get_word r2) as [w2 p2].
    cbn [fst snd] in Hw1, Hr1. subst w2.
    destruct (parse_num w1 16 false) as [[n v] | | | |]; cbn [bind alike]; try reflexivity.
    repeat split; assumption. }
  destruct (is_label word).
  { destruct (check_duplicate (labels s1) (removelast word)); cbn [bind alike];
      try reflexivity.
    destruct (push MAX_LABELS (labels s1) _); cbn [bind alike]; try reflexivity.
    repeat split; assumption. }
  destruct (negb (lookup_op word =? INVALID_OP)); [| repeat split; assumption].
  destruct (get_word_same _ _ Hr) as [Hw1 Hr1].
  destruct (get_word r1) as [w1 p1], (get_word r2) as [w2 p2].
  cbn [fst snd] in Hw1, Hr1. subst w2.
  pose proof (collect_args_same 4 w1 p1 p2 [] Hr1) as Hargs.
  destruct (collect_args 4 w1 p1 []) as [[a1 q1] | | | |],
           (collect_args 4 w1 p2 []) as [[a2 q2] | | | |];
    cbn [alike] in Hargs; try contradiction; try discriminate Hargs;
    cbn [bind alike]; try reflexivity; try (injection Hargs as -> ->; reflexivity).
  cbn [fst snd] in Hargs. destruct Hargs as [<- Hq].
  destruct (push MAX_INSTR (instructions s1) _); cbn [bind alike]; try reflexivity.
  repeat split; assumption.
Qed.

Lemma phase1_loop_same fuel : forall s1 s2,
  same_state s1 s2 ->
  alike same_state (phase1_loop fuel s1) (phase1_loop fuel s2).
Proof.
  induction fuel as [|fuel IH]; intros s1 s2 Hs; cbn [phase1_loop];
    rewrite <- (same_words_head _ _ (proj1 Hs));
    destruct (is_nul (at_ (file_pos s1) 0)); try exact Hs; [reflexivity |].
  pose proof (phase1_step_same s1 s2 Hs) as Hstep.
  destruct (phase1_step s1) as [t1 | | | |], (phase1_step s2) as [t2 | | | |];
    cbn [alike] in Hstep; try contradiction; try discriminate Hstep;
    cbn [bind]; try exact Hstep.
  apply IH, Hstep.
Qed.

(** X23: Which separator stands between two words makes no difference: two
    texts that differ only in characters the lexer steps over (spaces,
    commas, semicolons, signs and the like) give the same result, be it an
    image or an error.  So a sign before a literal is never seen. *)
Theorem separators_interchangeable a b : same_tokens a b -> main a = main b.
Proof.
  intros Hab. pose proof (same_tokens_upper a b Hab) as Hup.
  assert (Hlen : length (to_upper a) = length (to_upper b))
    by (eapply Forall2_length; exact Hup).
  unfold main, phase1. rewrite <- Hlen.
  assert (Hs : same_state (mkState (to_upper a) false 0 [] [])
                          (mkState (to_upper b) false 0 [] []))
    by (repeat split; exact Hup).
  pose proof (phase1_loop_same (length (to_upper a)) _ _ Hs) as Hloop.
  destruct (phase1_loop (length (to_upper a)) (mkState (to_upper a) false 0 [] []))
    as [t1 | | | |],
    (phase1_loop (length (to_upper a)) (mkState (to_upper b) false 0 [] []))
    as [t2 | | | |];
    cbn [alike] in Hloop; try contradiction; try discriminate Hloop;
    cbn [bind]; try reflexivity; try (injection Hloop as -> ->; reflexivity).
  destruct Hloop as (_ & _ & _ & -> & ->). reflexivity.
Qed.

Lemma separators_interchangeable_witness :
  main (line "SHL R1,-5") = main (line "SHL;R1  5").
Proof.
  apply (separators_interchangeable (line "SHL R1,-5") (line "SHL;R1  5")).
  unfold same_tokens.
  repeat (constructor;
          [first [ left; reflexivity
                 | right; split; vm_compute; repeat split; reflexivity ] |]).
  constructor.
Defined.

(** ** Reading the output back *)

Lemma hex_digit_reads n :
  0 <= n < 16 ->
  digit_val (hex_digit n) = n /\ isspace (hex_digit n) = false /\
  Ascii.eqb (hex_digit n) "-" = false /\ Ascii.eqb (hex_digit n) "+" = false /\
  Ascii.eqb (hex_digit n) "x" = false /\ Ascii.eqb (hex_digit n) "X" = false.
Proof.
  intros Hn. replace n with (Z.of_nat (Z.to_nat n)) by lia.
  assert (Hm : (Z.to_nat n < 16)%nat) by lia. revert Hm.
  generalize (Z.to_nat n) as m. intros m Hm.
  do 16 (destruct m as [|m]; [vm_compute; repeat split; reflexivity |]). lia.
Qed.

(** X24: A line of the output file is the word of its two bytes: read by
    [strtoul] in base 16 it gives the byte at the even address times 256
    plus the byte at the odd address. *)
Theorem rom_line_reads_back rom i :
  Forall byte rom ->
  strtoul (rom_line rom i) 16 = 256 * nth i rom 0 + nth (i + 1) rom 0.
Proof.
  intros Hb. pose proof (nth_byte rom i Hb) as Hhi.
  pose proof (nth_byte rom (i + 1) Hb) as Hlo. unfold byte in Hhi, Hlo.
  unfold rom_line, hex02. cbn [app].
  set (hi := nth i rom 0) in *. set (lo := nth (i + 1) rom 0) in *.
  assert (H1 : 0 <= hi / 16 < 16)
    by (split; [apply Z.div_pos; lia | apply Z.div_lt_upper_bound; lia]).
  assert (H2 : 0 <= hi mod 16 < 16) by (apply Z.mod_pos_bound; lia).
  assert (H3 : 0 <= lo / 16 < 16)
    by (split; [apply Z.div_pos; lia | apply Z.div_lt_upper_bound; lia]).
  assert (H4 : 0 <= lo mod 16 < 16) by (apply Z.mod_pos_bound; lia).
  destruct (hex_digit_reads _ H1) as (V1 & S1 & M1 & P1 & _).
  destruct (hex_digit_reads _ H2) as (V2 & _ & _ & _ & X2 & Y2).
  destruct (hex_digit_reads _ H3) as (V3 & _).
  destruct (hex_digit_reads _ H4) as (V4 & _).
  unfold strtoul. cbn [skip_space]. rewrite S1. cbn [at_ nth].
  rewrite M1, P1. cbn [orb at_ nth]. rewrite X2, Y2. cbn [orb]. rewrite andb_false_r.
  cbn [strtoul_digits]. rewrite V1, V2, V3, V4.
  change (digit_val NL) with 36. change (36 <? 16) with false.
  destruct (Z.ltb_spec (hi / 16) 16); [| lia].
  destruct (Z.ltb_spec (hi mod 16) 16); [| lia].
  destruct (Z.ltb_spec (lo / 16) 16); [| lia].
  destruct (Z.ltb_spec (lo mod 16) 16); [| lia].
  pose proof (Z.div_mod hi 16 ltac:(lia)) as Dh.
  pose proof (Z.div_mod lo 16 ltac:(lia)) as Dl.
  unfold ULONG_MAX. change (2 ^ 64 - 1) with 18446744073709551615.
  destruct (Z.gtb_spec ((((0 * 16 + hi / 16) * 16 + hi mod 16) * 16 + lo / 16) * 16
                        + lo mod 16) 18446744073709551615); lia.
Qed.

Lemma rom_line_reads_back_witness :
  strtoul (rom_line [142; 0] 0) 16 = 256 * nth 0 [142; 0] 0 + nth (0 + 1) [142; 0] 0.
Proof.
  apply (rom_line_reads_back [142; 0] 0).
  repeat constructor; unfold byte; lia.
Defined.

(** ** The comment state *)

(** X25: No word [get_word] returns starts with a semicolon, a semicolon being
    no word character; so the comment branches of the phase-1 loop are
    never taken, a step never enters the comment state, and phase 1 ends
    outside it. *)
Theorem comment_state_unreachable :
  (forall buf, is_comment (fst (get_word buf)) = false) /\
  (forall s s', in_comment s = false -> phase1_step s = Ok s' ->
                in_comment s' = false) /\
  (forall src s, phase1 src = Ok s -> in_comment s = false).
Proof.
  split; [exact get_word_never_comment |]. split; [| exact phase1_never_in_comment].
  intros s1 s2 Hc. unfold phase1_step.
  pose proof (get_word_never_comment (file_pos s1)) as Hw.
  destruct (get_word (file_pos s1)) as [word pos]. cbn [fst] in Hw.
  rewrite Hc, Hw. cbn [andb].
  destruct (eq_cstr word (cstr "ORG")).
  { destruct (get_word pos) as [word1 pos1]. intros H. bind_inv H.
    destruct a. injection H as <-. reflexivity. }
  destruct (is_label word).
  { intros H. bind_inv H. bind_inv H. injection H as <-. reflexivity. }
  destruct (negb (lookup_op word =? INVALID_OP)).
  - destruct (get_word pos) as [word1 pos1]. intros H. bind_inv H.
    destruct a. bind_inv H. injection H as <-. reflexivity.
  - intros H. injection H as <-. reflexivity.
Qed.

Lemma comment_state_unreachable_witness :
  in_comment (mkState [] false 2 [mkInstr 0 (cstr "NOP") []] []) = false.
Proof.
  apply (proj2 (proj2 comment_state_unreachable) (line "; nop")).
  vm_compute. reflexivity.
Defined.

(** * The line-based assembler *)

(** ** Its lexer *)

Lemma apr7_skip_blank_agrees buf :
  Forall (fun c => Ascii.eqb c NL = false) buf ->
  Apr7.skip_blank buf = skip_blank buf.
Proof.
  induction 1 as [|c rest Hc _ IH]; [reflexivity |].
  cbn [Apr7.skip_blank skip_blank]. rewrite Hc, orb_false_r, IH. reflexivity.
Qed.

Lemma getlines_lines file : forall cur,
  Forall (fun c => Ascii.eqb c NL = false) cur ->
  Forall (fun l => Forall (fun c => Ascii.eqb c NL = false) l /\
                   len l < Apr7.LINE_BUF_SIZE)
         (Apr7.getlines cur file).
Proof.
  induction file as [|c rest IH]; intros cur Hcur; cbn [Apr7.getlines].
  - destruct cur as [|d cur']; [constructor |].
    destruct (Z.ltb_spec (len (d :: cur')) Apr7.LINE_BUF_SIZE);
      [constructor; [split; assumption | constructor] | constructor].
  - destruct (Ascii.eqb c NL) eqn:Hc.
    + destruct (Z.ltb_spec (len cur) Apr7.LINE_BUF_SIZE); [| constructor].
      constructor; [split; assumption | apply IH; constructor].
    + apply IH. apply Forall_app. split; [exact Hcur | repeat constructor; exact Hc].
Qed.

Lemma toupper_no_newline c :
  Ascii.eqb c NL = false -> Ascii.eqb (toupper c) NL = false.
Proof.
  destruct c as [[|] [|] [|] [|] [|] [|] [|] [|]]; vm_compute; congruence.
Qed.

Lemma to_upper_no_newline buf :
  Forall (fun c => Ascii.eqb c NL = false) buf ->
  Forall (fun c => Ascii.eqb c NL = false) (to_upper buf).
Proof.
  induction 1 as [|c rest Hc Hrest IH]; [constructor |].
  cbn [to_upper]. destruct (is_nul c); constructor; try assumption.
  apply toupper_no_newline, Hc.
Qed.

Lemma strip_comments_no_newline buf : forall found,
  Forall (fun c => Ascii.eqb c NL = false) buf ->
  Forall (fun c => Ascii.eqb c NL = false) (strip_comments_from found buf).
Proof.
  induction buf as [|c rest IH]; intros found H; [constructor |].
  inversion H as [| ? ? Hc Hrest]; subst. cbn [strip_comments_from].
  destruct (is_nul c); [exact H |].
  constructor; [| apply IH, Hrest].
  destruct (if Ascii.eqb c ";" then true else found); [reflexivity | exact Hc].
Qed.

(** X26: On a buffer that holds no newline the lexer of the line-based version
    returns the word and the cursor the lexer of [assembler.cpp] returns;
    and such are the buffers it is run on: no line [getline] reads holds
    a newline, nor does it once stripped of its comment and upper-cased,
    and every line is shorter than the line buffer. *)
Theorem apr7_lexer_agrees :
  (forall buf, Forall (fun c => Ascii.eqb c NL = false) buf ->
               Apr7.get_word buf = get_word buf) /\
  (forall file line_buf, In line_buf (Apr7.getlines [] file) ->
     len line_buf < Apr7.LINE_BUF_SIZE /\
     Forall (fun c => Ascii.eqb c NL = false) (to_upper (strip_comments line_buf))).
Proof.
  split.
  - intros buf Hb. unfold Apr7.get_word, get_word, Apr7.skip_word, skip_word.
    rewrite (apr7_skip_blank_agrees buf Hb).
    assert (E : Ascii.eqb (at_ (skip_blank buf) 0) NL = false).
    { destruct (skip_blank_split buf) as (blanks & Hsplit & _).
      rewrite Hsplit in Hb. apply Forall_app in Hb. destruct Hb as [_ Hb].
      destruct (skip_blank buf) as [|c rest]; [reflexivity |].
      apply Forall_inv in Hb. exact Hb. }
    rewrite E. reflexivity.
  - intros file line_buf Hin.
    pose proof (getlines_lines file [] (Forall_nil _)) as Hl.
    rewrite Forall_forall in Hl. destruct (Hl line_buf Hin) as [Hnl Hlen].
    split; [exact Hlen |].
    apply to_upper_no_newline, strip_comments_no_newline, Hnl.
Qed.

Lemma apr7_lexer_agrees_witness :
  Apr7.get_word (cstr ", R1, 0X1F") = get_word (cstr ", R1, 0X1F").
Proof.
  apply (proj1 apr7_lexer_agrees (cstr ", R1, 0X1F")). repeat constructor.
Defined.

(** ** Comments *)

Lemma apr7_skip_blank_text a :
  Apr7.skip_blank (until_nul a) = until_nul (Apr7.skip_blank a).
Proof.
  induction a as [|c a IH]; [reflexivity |].
  cbn [until_nul Apr7.skip_blank]. destruct (is_nul c) eqn:Hn.
  - cbn [until_nul]. rewrite Hn. reflexivity.
  - cbn [Apr7.skip_blank]. rewrite Hn. destruct (word_char c); [| exact IH].
    cbn [until_nul]. rewrite Hn. reflexivity.
Qed.

Lemma skip_word_chars_text a :
  skip_word_chars (until_nul a) = until_nul (skip_word_chars a).
Proof.
  induction a as [|c a IH]; [reflexivity |].
  cbn [until_nul skip_word_chars]. destruct (is_nul c) eqn:Hn.
  - cbn [until_nul]. rewrite Hn. reflexivity.
  - cbn [skip_word_chars]. rewrite Hn. destruct (word_char c); cbn [negb]; [exact IH |].
    cbn [until_nul]. rewrite Hn. reflexivity.
Qed.

Lemma until_nul_word w r :
  Forall (fun c => word_char c = true) w -> until_nul (w ++ r) = w ++ until_nul r.
Proof.
  induction 1 as [|c w Hc _ IH]; [reflexivity |].
  cbn [app until_nul]. rewrite (word_char_not_nul c Hc), IH. reflexivity.
Qed.

Lemma apr7_get_word_text a :
  Apr7.get_word (until_nul a) =
    (fst (Apr7.get_word a), until_nul (snd (Apr7.get_word a))).
Proof.
  unfold Apr7.get_word, Apr7.skip_word. cbn [fst snd].
  rewrite apr7_skip_blank_text. generalize (Apr7.skip_blank a) as start. intros start.
  rewrite skip_word_chars_text.
  destruct (skip_word_chars_split start) as (w & Hs & Hw & _).
  assert (E : until_nul start = w ++ until_nul (skip_word_chars start)).
  { rewrite Hs at 1. apply until_nul_word, Hw. }
  apply f_equal2; [| reflexivity]. rewrite E, firstn_prefix.
  rewrite Hs at 1 3. rewrite firstn_prefix. reflexivity.
Qed.

Lemma apr7_get_word_same_text a b :
  until_nul a = until_nul b ->
  fst (Apr7.get_word a) = fst (Apr7.get_word b) /\
  until_nul (snd (Apr7.get_word a)) = until_nul (snd (Apr7.get_word b)).
Proof.
  intros H. pose proof (apr7_get_word_text a) as Ha.
  pose proof (apr7_get_word_text b) as Hb. rewrite H in Ha. rewrite Ha in Hb.
  split; congruence.
Qed.

Lemma apr7_collect_args_text fuel : forall w a b args_,
  until_nul a = until_nul b ->
  Apr7.collect_args fuel w a args_ = Apr7.collect_args fuel w b args_.
Proof.
  induction fuel as [|fuel IH]; intros w a b args_ H; cbn [Apr7.collect_args];
    [reflexivity |].
  destruct (negb (len w =? 0)); [| reflexivity].
  destruct (push 3 args_ w) as [args' | | | |]; cbn [bind]; try reflexivity.
  destruct (apr7_get_word_same_text a b H) as [Hw Hr].
  destruct (Apr7.get_word a) as [wa ra], (Apr7.get_word b) as [wb rb].
  cbn [fst snd] in Hw, Hr. subst wb. apply IH, Hr.
Qed.

Lemma apr7_lines_text n s b1 b2 :
  until_nul (to_upper (strip_comments b1)) = until_nul (to_upper (strip_comments b2)) ->
  Apr7.pass1_line n s b1 = Apr7.pass1_line n s b2 /\
  Apr7.pass2_line n s b1 = Apr7.pass2_line n s b2.
Proof.
  unfold Apr7.pass1_line, Apr7.pass2_line.
  generalize (to_upper (strip_comments b1)) as l1.
  generalize (to_upper (strip_comments b2)) as l2. intros l2 l1 H.
  destruct (apr7_get_word_same_text l1 l2 H) as [Hw Hr].
  destruct (Apr7.get_word l1) as [w1 r1], (Apr7.get_word l2) as [w2 r2].
  cbn [fst snd] in Hw, Hr. subst w2.
  destruct (apr7_get_word_same_text r1 r2 Hr) as [Hw' Hr'].
  destruct (Apr7.get_word r1) as [w1' r1'], (Apr7.get_word r2) as [w2' r2'].
  cbn [fst snd] in Hw', Hr'. subst w2'.
  rewrite (apr7_collect_args_text 4 w1' r1' r2' [] Hr'). split; reflexivity.
Qed.

Lemma to_upper_text a : until_nul (to_upper a) = map toupper (until_nul a).
Proof.
  induction a as [|c a IH]; [reflexivity |].
  cbn [to_upper until_nul]. destruct (is_nul c) eqn:Hn.
  - cbn [until_nul]. rewrite Hn. reflexivity.
  - cbn [until_nul map]. destruct (toupper_char c) as (_ & Hz & _).
    rewrite Hz, Hn, IH. reflexivity.
Qed.

Lemma strip_comments_keeps pre :
  Forall (fun c => is_nul c = false /\ Ascii.eqb c ";" = false) pre ->
  until_nul (strip_comments pre) = pre.
Proof.
  unfold strip_comments. induction 1 as [|c pre [Hn Hs] _ IH]; [reflexivity |].
  cbn [strip_comments_from]. rewrite Hn, Hs. cbn [until_nul]. rewrite Hn.
  f_equal. exact IH.
Qed.

(** X27: In the line-based version a comment is gone before the lexer runs:
    both passes treat a line with a comment as they treat the text before
    its semicolon. *)
Theorem apr7_comment_ignored n s pre post :
  Forall (fun c => is_nul c = false /\ Ascii.eqb c ";" = false) pre ->
  Apr7.pass1_line n s (pre ++ ";"%char :: post) = Apr7.pass1_line n s pre /\
  Apr7.pass2_line n s (pre ++ ";"%char :: post) = Apr7.pass2_line n s pre.
Proof.
  intros Hpre. apply apr7_lines_text. rewrite !to_upper_text.
  rewrite (strip_comments_cuts pre post Hpre), (strip_comments_keeps pre Hpre).
  reflexivity.
Qed.

Lemma apr7_comment_ignored_witness :
  Apr7.pass1_line 1 (Apr7.mkState 0 [] 0 []) (cstr "nop ;return") =
    Apr7.pass1_line 1 (Apr7.mkState 0 [] 0 []) (cstr "nop ") /\
  Apr7.pass2_line 1 (Apr7.mkState 0 [] 0 []) (cstr "nop ;return") =
    Apr7.pass2_line 1 (Apr7.mkState 0 [] 0 []) (cstr "nop ").
Proof.
  apply (apr7_comment_ignored 1 (Apr7.mkState 0 [] 0 []) (cstr "nop ") (cstr "return")).
  repeat constructor.
Defined.

(** ** The two passes *)

Lemma apr7_line_agree n s1 s2 buf t1 t2 :
  Apr7.write_addr s1 = Apr7.write_addr s2 ->
  Apr7.pass1_line n s1 buf = Ok (Apr7.Next t1) ->
  Apr7.pass2_line n s2 buf = Ok t2 ->
  Apr7.write_addr t1 = Apr7.write_addr t2 /\ Apr7.labels t2 = Apr7.labels s2.
Proof.
  intros Hw. unfold Apr7.pass1_line, Apr7.pass2_line.
  destruct (Apr7.get_word (to_upper (strip_comments buf))) as [word rest].
  destruct (eq_cstr word (cstr "ORG")).
  { destruct (Apr7.get_word rest) as [word1 rest1].
    destruct (Apr7.at_line n (parse_num word1 16 false)) as [[v b] | | | |];
      cbn [bind]; try discriminate.
    intros H1 H2. injection H1 as <-. injection H2 as <-. split; reflexivity. }
  destruct (negb (lookup_op word =? INVALID_OP)).
  { destruct (Apr7.get_word rest) as [word1 rest1].
    intros H1 H2. injection H1 as <-.
    bind_inv H2. bind_inv H2. bind_inv H2. bind_inv H2. injection H2 as <-.
    cbn [Apr7.write_addr Apr7.labels]. rewrite Hw. split; reflexivity. }
  intros H1 H2. injection H2 as <-. split; [| reflexivity].
  destruct (is_label word).
  - bind_inv H1.
    destruct (u32 (Apr7.label_buf_mark s1 + len (removelast word))
              <=? Apr7.LABEL_BUF_SIZE); [| discriminate H1].
    bind_inv H1. injection H1 as <-. exact Hw.
  - injection H1 as <-. exact Hw.
Qed.

(** X28: The two passes walk the same addresses: after the same lines, the
    write address of the first pass, which the labels record, is the one
    the second pass has; and the second pass leaves the label table as the
    first one made it. *)
Theorem apr7_passes_agree lines : forall n s1 s2 t1 t2,
  Apr7.write_addr s1 = Apr7.write_addr s2 ->
  Apr7.pass1 n s1 lines = Ok (Apr7.Next t1) ->
  Apr7.pass2 n s2 lines = Ok t2 ->
  Apr7.write_addr t1 = Apr7.write_addr t2 /\ Apr7.labels t2 = Apr7.labels s2.
Proof.
  induction lines as [|buf rest IH]; intros n s1 s2 t1 t2 Hw H1 H2;
    cbn [Apr7.pass1 Apr7.pass2] in H1, H2.
  - injection H1 as <-. injection H2 as <-. split; [exact Hw | reflexivity].
  - bind_inv H1. destruct a as [u1 | msg]; [| discriminate H1].
    bind_inv H2. rename a into u2.
    destruct (apr7_line_agree _ _ _ _ _ _ Hw Ha Ha0) as [Hw' Hl'].
    destruct (IH _ _ _ _ _ Hw' H1 H2) as [Hw'' Hl''].
    split; [exact Hw'' | congruence].
Qed.

Lemma apr7_passes_agree_witness :
  Apr7.write_addr (Apr7.mkState 1 [mkLabel (cstr "L") 16] 18 []) =
    Apr7.write_addr (Apr7.mkState 0 [] 18 (repeat 0 1024)) /\
  Apr7.labels (Apr7.mkState 0 [] 18 (repeat 0 1024)) =
    Apr7.labels (Apr7.mkState 0 [] 0 (repeat 0 1024)).
Proof.
  apply (apr7_passes_agree [cstr "org 0x10"; cstr "l:"; cstr "nop"] 0
           (Apr7.mkState 0 [] 0 []) (Apr7.mkState 0 [] 0 (repeat 0 1024))).
  - reflexivity.
  - vm_compute. reflexivity.
  - vm_compute. reflexivity.
Defined.

(** ** The bound of the operand loop *)

Lemma apr7_collect_args_fuel fuel : forall word line_ args_,
  (3 - length args_ < fuel)%nat -> Apr7.collect_args fuel word line_ args_ <> Fuel.
Proof.
  induction fuel as [|fuel IH]; intros word line_ args_ Hf; [lia |].
  cbn [Apr7.collect_args]. destruct (negb (len word =? 0)); [| discriminate].
  unfold push. destruct (Z.ltb_spec (size args_) 3) as [Hlt | Hge]; cbn [bind];
    [| discriminate].
  destruct (Apr7.get_word line_) as [word1 line1]. apply IH.
  unfold size in Hlt. rewrite length_app. cbn [length]. lia.
Qed.

Lemma at_line_no_fuel {A : Type} n (m : outcome A) : m <> Fuel -> Apr7.at_line n m <> Fuel.
Proof. destruct m; cbn; congruence. Qed.

Lemma apr7_pass1_line_no_fuel n s buf : Apr7.pass1_line n s buf <> Fuel.
Proof.
  unfold Apr7.pass1_line. no_fuel;
    first [apply at_line_no_fuel, parse_num_no_fuel
          | apply at_line_no_fuel, check_duplicate_no_fuel].
Qed.

Lemma apr7_pass2_line_no_fuel n s buf : Apr7.pass2_line n s buf <> Fuel.
Proof.
  unfold Apr7.pass2_line. no_fuel;
    first [apply at_line_no_fuel, parse_num_no_fuel
          | apply at_line_no_fuel, parse_instruction_no_fuel
          | apply rom_store_no_fuel
          | apply apr7_collect_args_fuel; cbn; lia].
Qed.

Lemma apr7_pass1_no_fuel lines : forall n s, Apr7.pass1 n s lines <> Fuel.
Proof.
  induction lines as [|buf rest IH]; intros n s; cbn [Apr7.pass1]; [discriminate |].
  apply bind_no_fuel; [apply apr7_pass1_line_no_fuel |].
  intros [s' | msg]; [apply IH | discriminate].
Qed.

Lemma apr7_pass2_no_fuel lines : forall n s, Apr7.pass2 n s lines <> Fuel.
Proof.
  induction lines as [|buf rest IH]; intros n s; cbn [Apr7.pass2]; [discriminate |].
  apply bind_no_fuel; [apply apr7_pass2_line_no_fuel | intros s'; apply IH].
Qed.

(** The embedding of the line-based [main] gives a result of the program
    for every input. *)
Lemma apr7_main_total file : Apr7.main file <> Fuel.
Proof.
  unfold Apr7.main. apply bind_no_fuel; [apply apr7_pass1_no_fuel |].
  intros [s | msg]; [| discriminate].
  apply bind_no_fuel; [apply apr7_pass2_no_fuel | discriminate].
Qed.

(** ** The line number of an error *)

Lemma at_line_exit {A : Type} n (m : outcome A) l msg :
  Apr7.at_line n m = Exit1 l msg -> l = n.
Proof. destruct m; cbn; congruence. Qed.

Lemma bind_exit {A B : Type} (m : outcome A) (k : A -> outcome B) l msg :
  bind m k = Exit1 l msg ->
  m = Exit1 l msg \/ exists a, m = Ok a /\ k a = Exit1 l msg.
Proof.
  destruct m as [a | l0 s | | |]; cbn [bind]; intros H; try discriminate H;
    [right; exists a; split; [reflexivity | exact H] | left; injection H as -> ->; reflexivity].
Qed.

Lemma push_exit {T : Type} max_size (a : Array T) x l msg :
  push max_size a x <> Exit1 l msg.
Proof. unfold push. destruct (size a <? max_size); discriminate. Qed.

Lemma rom_store_exit rom i v l msg : rom_store rom i v <> Exit1 l msg.
Proof. unfold rom_store. destruct ((0 <=? i) && (i <? ROM_SIZE)); discriminate. Qed.

Lemma apr7_collect_args_exit fuel : forall word line_ args_ l msg,
  Apr7.collect_args fuel word line_ args_ <> Exit1 l msg.
Proof.
  induction fuel as [|fuel IH]; intros word line_ args_ l msg;
    cbn [Apr7.collect_args]; destruct (negb (len word =? 0)); try discriminate.
  intros H. apply bind_exit in H. destruct H as [H | (a & _ & H)].
  - exact (push_exit _ _ _ _ _ H).
  - destruct (Apr7.get_word line_) as [word1 line1]. exact (IH _ _ _ _ _ H).
Qed.

Lemma apr7_pass1_line_exit n s buf l msg :
  Apr7.pass1_line n s buf = Exit1 l msg -> l = n.
Proof.
  unfold Apr7.pass1_line.
  destruct (Apr7.get_word (to_upper (strip_comments buf))) as [word rest].
  destruct (eq_cstr word (cstr "ORG")).
  { destruct (Apr7.get_word rest) as [word1 rest1]. intros H.
    apply bind_exit in H. destruct H as [H | ([v b] & _ & H)]; [| discriminate H].
    exact (at_line_exit _ _ _ _ H). }
  destruct (negb (lookup_op word =? INVALID_OP)); [discriminate |].
  destruct (is_label word); [| discriminate].
  intros H. apply bind_exit in H. destruct H as [H | (a & _ & H)].
  - exact (at_line_exit _ _ _ _ H).
  - destruct (u32 (Apr7.label_buf_mark s + len (removelast word))
              <=? Apr7.LABEL_BUF_SIZE); [| discriminate H].
    apply bind_exit in H. destruct H as [H | (a' & _ & H)]; [| discriminate H].
    destruct (push_exit _ _ _ _ _ H).
Qed.

Lemma apr7_pass2_line_exit n s buf l msg :
  Apr7.pass2_line n s buf = Exit1 l msg -> l = n.
Proof.
  unfold Apr7.pass2_line.
  destruct (Apr7.get_word (to_upper (strip_comments buf))) as [word rest].
  destruct (eq_cstr word (cstr "ORG")).
  { destruct (Apr7.get_word rest) as [word1 rest1]. intros H.
    apply bind_exit in H. destruct H as [H | ([v b] & _ & H)]; [| discriminate H].
    exact (at_line_exit _ _ _ _ H). }
  destruct (negb (lookup_op word =? INVALID_OP)); [| discriminate].
  destruct (Apr7.get_word rest) as [word1 rest1]. intros H.
  apply bind_exit in H. destruct H as [H | (args_ & _ & H)].
  { destruct (apr7_collect_args_exit _ _ _ _ _ _ H). }
  apply bind_exit in H. destruct H as [H | (instr & _ & H)].
  { exact (at_line_exit _ _ _ _ H). }
  apply bind_exit in H. destruct H as [H | (rom & _ & H)].
  { destruct (rom_store_exit _ _ _ _ _ H). }
  apply bind_exit in H. destruct H as [H | (rom' & _ & H)]; [| discriminate H].
  destruct (rom_store_exit _ _ _ _ _ H).
Qed.

Lemma u32_step n k : u32 (u32 (n + 1) + k) = u32 (n + (k + 1)).
Proof.
  unfold u32. rewrite Z.add_mod_idemp_l by (change (2 ^ 32) with 4294967296; lia).
  f_equal. ring.
Qed.

Lemma apr7_pass1_exit lines : forall n s m msg,
  Apr7.pass1 n s lines = Exit1 m msg ->
  exists pre buf post s',
    lines = pre ++ buf :: post /\ Apr7.pass1 n s pre = Ok (Apr7.Next s') /\
    m = u32 (n + (Z.of_nat (length pre) + 1)) /\
    Apr7.pass1_line m s' buf = Exit1 m msg.
Proof.
  induction lines as [|buf rest IH]; intros n s m msg H; cbn [Apr7.pass1] in H;
    [discriminate H |].
  apply bind_exit in H. destruct H as [H | (r & Hr & H)].
  - pose proof (apr7_pass1_line_exit _ _ _ _ _ H) as Hm.
    exists [], buf, rest, s. split; [reflexivity |]. split; [reflexivity |].
    cbn [length].
    split; [rewrite Hm; f_equal; lia | rewrite Hm at 1; exact H].
  - destruct r as [s1 | e]; [| discriminate H].
    destruct (IH _ _ _ _ H) as (pre & buf' & post & s' & -> & Hpre & Hm & Hline).
    exists (buf :: pre), buf', post, s'. split; [reflexivity |].
    split; [cbn [Apr7.pass1]; rewrite Hr; exact Hpre |].
    split; [| exact Hline]. rewrite Hm, u32_step. cbn [length]. f_equal. lia.
Qed.

Lemma apr7_pass2_exit lines : forall n s m msg,
  Apr7.pass2 n s lines = Exit1 m msg ->
  exists pre buf post s',
    lines = pre ++ buf :: post /\ Apr7.pass2 n s pre = Ok s' /\
    m = u32 (n + (Z.of_nat (length pre) + 1)) /\
    Apr7.pass2_line m s' buf = Exit1 m msg.
Proof.
  induction lines as [|buf rest IH]; intros n s m msg H; cbn [Apr7.pass2] in H;
    [discriminate H |].
  apply bind_exit in H. destruct H as [H | (s1 & Hr & H)].
  - pose proof (apr7_pass2_line_exit _ _ _ _ _ H) as Hm.
    exists [], buf, rest, s. split; [reflexivity |]. split; [reflexivity |].
    cbn [length].
    split; [rewrite Hm; f_equal; lia | rewrite Hm at 1; exact H].
  - destruct (IH _ _ _ _ H) as (pre & buf' & post & s' & -> & Hpre & Hm & Hline).
    exists (buf :: pre), buf', post, s'. split; [reflexivity |].
    split; [cbn [Apr7.pass2]; rewrite Hr; exact Hpre |].
    split; [| exact Hline]. rewrite Hm, u32_step. cbn [length]. f_equal. lia.
Qed.

(** X29: The line-based version counts its lines: when a run ends in an
    [asm_assert], the number printed is (modulo 2^32) the number, counted
    from 1, of the line the run stopped at.  The lines before it went
    through the pass without an error, and the assertion failed on this
    line in the state they left: in the first pass, or, the first pass
    having gone through the whole file, in the second pass started from
    the labels it collected. *)
Theorem apr7_error_line file m msg :
  Apr7.main file = Exit1 m msg ->
  exists pre buf post,
    Apr7.getlines [] file = pre ++ buf :: post /\
    m = u32 (Z.of_nat (length pre) + 1) /\
    ((exists s',
        Apr7.pass1 0 (Apr7.mkState 0 [] 0 (repeat 0 (Z.to_nat ROM_SIZE))) pre =
          Ok (Apr7.Next s') /\
        Apr7.pass1_line m s' buf = Exit1 m msg) \/
     (exists s1 s',
        Apr7.pass1 0 (Apr7.mkState 0 [] 0 (repeat 0 (Z.to_nat ROM_SIZE)))
          (Apr7.getlines [] file) = Ok (Apr7.Next s1) /\
        Apr7.pass2 0 (Apr7.mkState (Apr7.label_buf_mark s1) (Apr7.labels s1) 0
                        (Apr7.rom_data s1)) pre = Ok s' /\
        Apr7.pass2_line m s' buf = Exit1 m msg)).
Proof.
  unfold Apr7.main. intros H. apply bind_exit in H. destruct H as [H | (r & Hr & H)].
  - destruct (apr7_pass1_exit _ _ _ _ _ H)
      as (pre & buf & post & s' & Hl & Hpre & Hm & Hx).
    exists pre, buf, post. split; [exact Hl |]. split; [exact Hm |].
    left. exists s'. split; [exact Hpre | exact Hx].
  - destruct r as [s | e]; [| discriminate H].
    apply bind_exit in H. destruct H as [H | (s2 & _ & H)]; [| discriminate H].
    destruct (apr7_pass2_exit _ _ _ _ _ H)
      as (pre & buf & post & s' & Hl & Hpre & Hm & Hx).
    exists pre, buf, post. split; [exact Hl |]. split; [exact Hm |].
    right. exists s, s'. split; [exact Hr |]. split; [exact Hpre | exact Hx].
Qed.

Lemma apr7_error_line_witness :
  exists pre buf post,
    Apr7.getlines [] (line "a:" ++ line "b:" ++ line "a:") = pre ++ buf :: post /\
    3 = u32 (Z.of_nat (length pre) + 1) /\
    ((exists s',
        Apr7.pass1 0 (Apr7.mkState 0 [] 0 (repeat 0 (Z.to_nat ROM_SIZE))) pre =
          Ok (Apr7.Next s') /\
        Apr7.pass1_line 3 s' buf = Exit1 3 "duplicate label") \/
     (exists s1 s',
        Apr7.pass1 0 (Apr7.mkState 0 [] 0 (repeat 0 (Z.to_nat ROM_SIZE)))
          (Apr7.getlines [] (line "a:" ++ line "b:" ++ line "a:")) =
          Ok (Apr7.Next s1) /\
        Apr7.pass2 0 (Apr7.mkState (Apr7.label_buf_mark s1) (Apr7.labels s1) 0
                        (Apr7.rom_data s1)) pre = Ok s' /\
        Apr7.pass2_line 3 s' buf = Exit1 3 "duplicate label")).
Proof.
  apply (apr7_error_line (line "a:" ++ line "b:" ++ line "a:")).
  vm_compute. reflexivity.
Defined.

(** ** A label and an instruction on one line *)

Lemma eq_cstr_colon nm : forall lit,
  forallb (fun c => negb (Ascii.eqb c ":")) lit = true ->
  eq_cstr (nm ++ [":"%char]) lit = false.
Proof.
  induction nm as [|c nm IH]; intros lit Hlit; cbn [app eq_cstr].
  - destruct lit as [|d lit]; [reflexivity |]. cbn [forallb] in Hlit.
    apply andb_true_iff in Hlit. destruct Hlit as [Hd _]. cbn [at_ nth].
    rewrite Ascii.eqb_sym, Hd. reflexivity.
  - destruct (negb (Ascii.eqb c (at_ lit 0))); [reflexivity |]. apply IH.
    destruct lit as [|d lit]; [reflexivity |]. cbn [forallb] in Hlit.
    apply andb_true_iff in Hlit. destruct Hlit as [_ Hl]. exact Hl.
Qed.

Lemma lookup_op_from_none word ops : forall j,
  Forall (fun op => eq_cstr word (mnemonic op) = false) ops ->
  lookup_op_from j ops word = INVALID_OP.
Proof.
  induction ops as [|o ops IH]; intros j H; [reflexivity |].
  cbn [lookup_op_from]. inversion H as [| ? ? Ho Hops]; subst.
  rewrite Ho. apply IH, Hops.
Qed.

Lemma lookup_op_colon nm : lookup_op (nm ++ [":"%char]) = INVALID_OP.
Proof.
  apply lookup_op_from_none. unfold OP.
  repeat (constructor; [apply eq_cstr_colon; reflexivity |]). constructor.
Qed.

(** X30: The line-based version assembles nothing from a line that starts with
    a label: the second pass leaves the image and the write address as
    they are, whatever follows the label on the line; the first pass, when
    it goes on, has put the label at the write address and has not moved
    that address either. *)
Theorem apr7_label_line n s buf nm :
  fst (Apr7.get_word (to_upper (strip_comments buf))) = nm ++ [":"%char] ->
  Apr7.pass2_line n s buf = Ok s /\
  (forall t, Apr7.pass1_line n s buf = Ok (Apr7.Next t) ->
     Apr7.write_addr t = Apr7.write_addr s /\
     Apr7.rom_data t = Apr7.rom_data s /\
     Apr7.labels t = Apr7.labels s ++ [mkLabel nm (Apr7.write_addr s)]).
Proof.
  unfold Apr7.pass2_line, Apr7.pass1_line.
  destruct (Apr7.get_word (to_upper (strip_comments buf))) as [word rest].
  cbn [fst]. intros ->.
  rewrite (eq_cstr_colon nm (cstr "ORG") eq_refl), lookup_op_colon.
  change (negb (INVALID_OP =? INVALID_OP)) with false. cbv iota.
  split; [reflexivity |].
  rewrite is_label_colon, removelast_last. intros t H.
  bind_inv H.
  destruct (u32 (Apr7.label_buf_mark s + len nm) <=? Apr7.LABEL_BUF_SIZE);
    [| discriminate H].
  bind_inv H. injection H as <-. cbn [Apr7.write_addr Apr7.rom_data Apr7.labels].
  unfold push in Ha0. destruct (size (Apr7.labels s) <? MAX_LABELS);
    [| discriminate Ha0].
  injection Ha0 as <-. repeat split; reflexivity.
Qed.

Lemma apr7_label_line_witness :
  Apr7.pass2_line 1 (Apr7.mkState 0 [] 4 (repeat 0 1024)) (cstr "loop: add r1, r2, r3") =
    Ok (Apr7.mkState 0 [] 4 (repeat 0 1024)).
Proof.
  apply (proj1 (apr7_label_line 1 (Apr7.mkState 0 [] 4 (repeat 0 1024))
                  (cstr "loop: add r1, r2, r3") (cstr "LOOP") eq_refl)).
Defined.
